(** * Chat relay: text chunker, SSE route and client stream consumers

    A shallow embedding of the relay-and-reframe pipeline of the chatbot
    repository:

    - [chunkText] and the [POST] handler of [src/app/api/chat/send/route.ts];
    - the stream consumer [handleSubmit] of the [ChatInterface] component and
      the stream consumer [handleSendMessage] of the chat page;
    - the text of the records on the wire, the route on any request body, the
      other handlers of the chat page, and the account service
      [src/services/authService.ts].

    JavaScript strings are sequences of UTF-16 code units, and every index the
    code computes ([length], [lastIndexOf], [slice], [substring]) counts code
    units; a string is therefore a [list N].  Indices are [Z], because
    [lastIndexOf] answers [-1] and the code compares that answer with other
    indices.

    Left out: logging, the pause between two chunks, the headers of the
    responses, and what happens when the client goes away while the route
    still writes.  The stream of the route is the list of the objects it
    enqueues; the consumers read the texts [decoder.decode(value)] of the
    successive reads. *)

From Stdlib Require Import List ZArith NArith Lia Bool String Ascii.
Import ListNotations.
Open Scope Z_scope.

(** ** JavaScript strings *)

Module JS.

Definition jsstring := list N.

(** An ASCII literal as a JavaScript string. *)
Definition str (s : string) : jsstring :=
  map N_of_ascii (list_ascii_of_string s).

(** The same, with every apostrophe of the literal standing for a double
    quote: [txt "{'type': 'done'}"] is the text [{"type": "done"}]. *)
Definition txt (s : string) : jsstring :=
  map (fun c => if N.eqb c 39 then 34%N else c) (str s).

(** Line feed. *)
Definition LF : N := 10.

(** [s.length] *)
Definition length (s : jsstring) : Z := Z.of_nat (List.length s).

Definition eqb (a b : jsstring) : bool :=
  if list_eq_dec N.eq_dec a b then true else false.

(** [s.slice(start, end)]: a negative index counts from the end of the
    string, both are clamped to [0 .. length], and an empty string is the
    answer when [end] does not lie after [start]. *)
Definition slice (s : jsstring) (start end_ : Z) : jsstring :=
  let len := length s in
  let from := if start <? 0 then Z.max (len + start) 0 else Z.min start len in
  let to := if end_ <? 0 then Z.max (len + end_) 0 else Z.min end_ len in
  firstn (Z.to_nat (to - from)) (skipn (Z.to_nat from) s).

(** [s.slice(start)] *)
Definition slice_from (s : jsstring) (start : Z) : jsstring :=
  slice s start (length s).

(** [s.substring(start, end)]: negative indices are 0, both are clamped to
    the length and swapped when out of order. *)
Definition substring (s : jsstring) (start end_ : Z) : jsstring :=
  let len := length s in
  let a := Z.min (Z.max start 0) len in
  let b := Z.min (Z.max end_ 0) len in
  firstn (Z.to_nat (Z.max a b - Z.min a b)) (skipn (Z.to_nat (Z.min a b)) s).

(** The scan behind [lastIndexOf]: [i] is the index of the head of [s],
    [acc] the last match seen so far. *)
Fixpoint lastIndexOf_scan (s : jsstring) (c : N) (i pos acc : Z) : Z :=
  match s with
  | [] => acc
  | x :: s' =>
      if i <=? pos
      then lastIndexOf_scan s' c (i + 1) pos (if N.eqb x c then i else acc)
      else acc
  end.

(** [s.lastIndexOf(c, position)] for a search string of one code unit: the
    largest index [k] with [k <= max(position, 0)] and [s[k] = c], or [-1]. *)
Definition lastIndexOf (s : jsstring) (c : N) (position : Z) : Z :=
  lastIndexOf_scan s c 0 (Z.max position 0) (-1).

(** White space and line terminators of ECMAScript, the code units that
    [trim] strips. *)
Definition isWhiteSpace (c : N) : bool :=
  ((9 <=? c) && (c <=? 13) || (c =? 32) || (c =? 160) || (c =? 5760)
   || (8192 <=? c) && (c <=? 8202) || (c =? 8232) || (c =? 8233)
   || (c =? 8239) || (c =? 8287) || (c =? 12288) || (c =? 65279))%N.

Fixpoint trimStart (s : jsstring) : jsstring :=
  match s with
  | [] => []
  | c :: s' => if isWhiteSpace c then trimStart s' else s
  end.

Definition trimEnd (s : jsstring) : jsstring := rev (trimStart (rev s)).

(** [s.trim()] *)
Definition trim (s : jsstring) : jsstring := trimEnd (trimStart s).

(** [s.startsWith(p)] *)
Fixpoint startsWith (s p : jsstring) : bool :=
  match p, s with
  | [], _ => true
  | _ :: _, [] => false
  | a :: p', b :: s' => N.eqb a b && startsWith s' p'
  end.

(** [s.includes(p)] *)
Fixpoint includes (s p : jsstring) : bool :=
  startsWith s p ||
  match s with
  | [] => false
  | _ :: s' => includes s' p
  end.

(** The pieces of [s.split(sep)] for a separator of one code unit; [cur] is
    the piece being read, in reverse. *)
Fixpoint split_scan (s : jsstring) (sep : N) (cur : jsstring) : list jsstring :=
  match s with
  | [] => [rev cur]
  | c :: s' =>
      if N.eqb c sep then rev cur :: split_scan s' sep []
      else split_scan s' sep (c :: cur)
  end.

(** [s.split(sep)] *)
Definition split (s : jsstring) (sep : N) : list jsstring := split_scan s sep [].

End JS.

Import JS.

(** ** The text chunker

    [function chunkText(text: string, chunkSize: number = 700): string[]].
    The chunk size is a whole number, as it is in every call of the program
    (700); it may be zero or negative. *)

Module Chunker.

Definition dot : N := 46.
Definition question : N := 63.
Definition exclamation : N := 33.
Definition space : N := 32.

(** The end of the segment that starts at [currentIndex]: the value of
    [endIndex] when the loop body reaches [chunks.push]. *)
Definition cutIndex (text : jsstring) (chunkSize currentIndex : Z) : Z :=
  let endIndex := currentIndex + chunkSize in
  if endIndex <? length text then
    let sentenceEnd := lastIndexOf text dot endIndex in
    let questionEnd := lastIndexOf text question endIndex in
    let exclamationEnd := lastIndexOf text exclamation endIndex in
    let maxSentenceEnd := Z.max (Z.max sentenceEnd questionEnd) exclamationEnd in
    if maxSentenceEnd >? currentIndex then maxSentenceEnd + 1
    else
      let spaceIndex := lastIndexOf text space endIndex in
      if spaceIndex >? currentIndex then spaceIndex else endIndex
  else endIndex.

(** The [while] loop.  Each iteration costs one unit of [fuel]; [None] says
    that the fuel ran out before the loop condition became false. *)
Fixpoint chunkLoop (fuel : nat) (text : jsstring) (chunkSize currentIndex : Z)
    (chunks : list jsstring) : option (list jsstring) :=
  if currentIndex <? length text then
    match fuel with
    | O => None
    | S fuel' =>
        let endIndex := cutIndex text chunkSize currentIndex in
        chunkLoop fuel' text chunkSize endIndex
          (chunks ++ [trim (slice text currentIndex endIndex)])
    end
  else Some chunks.

Definition nonEmpty (chunk : jsstring) : bool := length chunk >? 0.

Definition chunkText_fuel (fuel : nat) (text : jsstring) (chunkSize : Z)
    : option (list jsstring) :=
  option_map (filter nonEmpty) (chunkLoop fuel text chunkSize 0 []).

(** With a chunk size of at least 1 the loop ends within [text.length]
    iterations ([chunkText_fuel_enough] below), so that much fuel gives the
    list the function returns. *)
Definition chunkText (text : jsstring) (chunkSize : Z) : list jsstring :=
  match chunkText_fuel (List.length text) text chunkSize with
  | Some chunks => chunks
  | None => []
  end.

End Chunker.

Import Chunker.

(** ** JSON values, [JSON.parse] and the parts of ECMAScript left abstract *)

Module Json.

(** A number keeps the exact decimal value of its literal, [mantissa * 10 ^
    exponent]; the members of an object are kept in source order, and a key
    that occurs twice is read at its last occurrence, as [JSON.parse] does. *)
#[warnings="-register-all"]
Inductive JSON : Type :=
| JNull
| JBool (b : bool)
| JNum (mantissa exponent : Z)
| JStr (s : jsstring)
| JArr (items : list JSON)
| JObj (members : list (jsstring * JSON)).

(** [v[key]] for an object; [None] is [undefined]. *)
Fixpoint lookup (members : list (jsstring * JSON)) (key : jsstring) : option JSON :=
  match members with
  | [] => None
  | (k, v) :: rest =>
      match lookup rest key with
      | Some v' => Some v'
      | None => if JS.eqb k key then Some v else None
      end
  end.

(** [v.key] for one of the keys the program reads ([type], [content],
    [sources], [usage], [error], [output]): no string, array, number or
    boolean has such a property.  Reading a property of [null] throws and is
    handled where it happens. *)
Definition prop (v : JSON) (key : jsstring) : option JSON :=
  match v with
  | JObj members => lookup members key
  | _ => None
  end.

(** A decimal [m * 10 ^ e] becomes the double 0 when it is at most half the
    least subnormal, 2 ^ -1075. *)
Definition roundsToZero (m e : Z) : bool :=
  (m =? 0) || ((e <? 0) && (Z.abs m * 2 ^ 1075 <=? 10 ^ (- e))).

(** ToBoolean *)
Definition truthy (v : JSON) : bool :=
  match v with
  | JNull => false
  | JBool b => b
  | JNum m e => negb (roundsToZero m e)
  | JStr s => negb (JS.eqb s [])
  | JArr _ | JObj _ => true
  end.

(** ToBoolean of a property that may be [undefined]. *)
Definition truthyProp (v : option JSON) : bool :=
  match v with
  | Some v => truthy v
  | None => false
  end.

Definition isJsonSpace (c : N) : bool :=
  ((c =? 32) || (c =? 9) || (c =? 10) || (c =? 13))%N.

Fixpoint skipSpace (s : jsstring) : jsstring :=
  match s with
  | [] => []
  | c :: s' => if isJsonSpace c then skipSpace s' else s
  end.

Definition isDigit (c : N) : bool := ((48 <=? c) && (c <=? 57))%N.

(** Reads a run of decimal digits: the value read (after [acc]), the number
    of digits ([n] more than already counted) and the rest. *)
Fixpoint digits (s : jsstring) (acc n : Z) : Z * Z * jsstring :=
  match s with
  | [] => (acc, n, [])
  | c :: s' =>
      if isDigit c then digits s' (10 * acc + Z.of_N (c - 48)) (n + 1)
      else (acc, n, s)
  end.

(** An optional minus sign. *)
Definition minusSign (s : jsstring) : bool * jsstring :=
  match s with
  | c :: t => if (c =? 45)%N then (true, t) else (false, s)
  | [] => (false, s)
  end.

(** The integer part of a number: a single 0, or a digit from 1 to 9
    followed by any digits. *)
Definition integerPart (s : jsstring) : option (Z * jsstring) :=
  match s with
  | c :: t =>
      if isDigit c then
        if (c =? 48)%N then Some (0, t)
        else let '(int, _, rest) := digits s 0 0 in Some (int, rest)
      else None
  | [] => None
  end.

(** The optional fraction, a point and at least one digit: the digits are
    appended to those of the integer part and counted. *)
Definition fractionPart (int : Z) (s : jsstring) : option (Z * Z * jsstring) :=
  match s with
  | c :: t =>
      if (c =? 46)%N then
        let '(m, n, rest) := digits t int 0 in
        if n =? 0 then None else Some (m, n, rest)
      else Some (int, 0, s)
  | [] => Some (int, 0, s)
  end.

(** An optional sign of the exponent. *)
Definition exponentSign (s : jsstring) : bool * jsstring :=
  match s with
  | c :: t =>
      if (c =? 45)%N then (true, t)
      else if (c =? 43)%N then (false, t)
      else (false, s)
  | [] => (false, s)
  end.

(** The optional exponent: e or E, an optional sign and at least one
    digit. *)
Definition exponentPart (s : jsstring) : option (Z * jsstring) :=
  match s with
  | e :: t =>
      if ((e =? 101) || (e =? 69))%N then
        let (negative, t') := exponentSign t in
        let '(x, k, rest) := digits t' 0 0 in
        if k =? 0 then None else Some (if negative then - x else x, rest)
      else Some (0, s)
  | [] => Some (0, s)
  end.

(** A number literal. *)
Definition parseNumber (s : jsstring) : option (JSON * jsstring) :=
  let (negative, s1) := minusSign s in
  match integerPart s1 with
  | None => None
  | Some (int, s2) =>
      match fractionPart int s2 with
      | None => None
      | Some (m, n, s3) =>
          match exponentPart s3 with
          | None => None
          | Some (x, s4) => Some (JNum (if negative then - m else m) (x - n), s4)
          end
      end
  end.

Definition hexValue (c : N) : option N :=
  if isDigit c then Some (c - 48)%N
  else if ((97 <=? c) && (c <=? 102))%N then Some (c - 87)%N
  else if ((65 <=? c) && (c <=? 70))%N then Some (c - 55)%N
  else None.

Definition hex4 (a b c d : N) : option N :=
  match hexValue a, hexValue b, hexValue c, hexValue d with
  | Some x, Some y, Some z, Some w => Some (((x * 16 + y) * 16 + z) * 16 + w)%N
  | _, _, _, _ => None
  end.

(** The code unit a one-letter escape stands for. *)
Definition escaped (c : N) : option N :=
  if (c =? 34)%N then Some 34%N
  else if (c =? 92)%N then Some 92%N
  else if (c =? 47)%N then Some 47%N
  else if (c =? 98)%N then Some 8%N
  else if (c =? 102)%N then Some 12%N
  else if (c =? 110)%N then Some 10%N
  else if (c =? 114)%N then Some 13%N
  else if (c =? 116)%N then Some 9%N
  else None.

(** A string literal after its opening quote; [acc] is what was read so far,
    in reverse. *)
Fixpoint stringBody (s : jsstring) (acc : jsstring) : option (jsstring * jsstring) :=
  match s with
  | [] => None
  | c :: s' =>
      if (c =? 34)%N then Some (rev acc, s')
      else if (c =? 92)%N then
        match s' with
        | [] => None
        | e :: s'' =>
            match escaped e with
            | Some x => stringBody s'' (x :: acc)
            | None =>
                if (e =? 117)%N then
                  match s'' with
                  | h1 :: h2 :: h3 :: h4 :: s3 =>
                      match hex4 h1 h2 h3 h4 with
                      | Some x => stringBody s3 (x :: acc)
                      | None => None
                      end
                  | _ => None
                  end
                else None
            end
        end
      else if (c <? 32)%N then None
      else stringBody s' (c :: acc)
  end.

Definition lit_true : jsstring := str "true".
Definition lit_false : jsstring := str "false".
Definition lit_null : jsstring := str "null".

(** Recursive descent over the JSON grammar.  [parseElements] stands before
    an element of an array, [parseMembers] before a key of an object; both
    carry what was read so far in reverse. *)
Fixpoint parseValue (fuel : nat) (s : jsstring) : option (JSON * jsstring) :=
  match fuel with
  | O => None
  | S fuel' =>
      match skipSpace s with
      | [] => None
      | c :: rest =>
          if (c =? 123)%N then
            match skipSpace rest with
            | [] => None
            | c' :: r =>
                if (c' =? 125)%N then Some (JObj [], r)
                else parseMembers fuel' (c' :: r) []
            end
          else if (c =? 91)%N then
            match skipSpace rest with
            | [] => None
            | c' :: r =>
                if (c' =? 93)%N then Some (JArr [], r)
                else parseElements fuel' (c' :: r) []
            end
          else if (c =? 34)%N then
            match stringBody rest [] with
            | Some (text, r) => Some (JStr text, r)
            | None => None
            end
          else if startsWith (c :: rest) lit_true then Some (JBool true, skipn 4 (c :: rest))
          else if startsWith (c :: rest) lit_false then Some (JBool false, skipn 5 (c :: rest))
          else if startsWith (c :: rest) lit_null then Some (JNull, skipn 4 (c :: rest))
          else parseNumber (c :: rest)
      end
  end
with parseElements (fuel : nat) (s : jsstring) (acc : list JSON)
    : option (JSON * jsstring) :=
  match fuel with
  | O => None
  | S fuel' =>
      match parseValue fuel' s with
      | None => None
      | Some (v, r) =>
          match skipSpace r with
          | c :: r' =>
              if (c =? 44)%N then parseElements fuel' r' (v :: acc)
              else if (c =? 93)%N then Some (JArr (rev (v :: acc)), r')
              else None
          | [] => None
          end
      end
  end
with parseMembers (fuel : nat) (s : jsstring) (acc : list (jsstring * JSON))
    : option (JSON * jsstring) :=
  match fuel with
  | O => None
  | S fuel' =>
      match skipSpace s with
      | [] => None
      | q :: s1 =>
          if (q =? 34)%N then
            match stringBody s1 [] with
            | None => None
            | Some (key, s2) =>
                match skipSpace s2 with
                | [] => None
                | colon :: s3 =>
                    if (colon =? 58)%N then
                      match parseValue fuel' s3 with
                      | None => None
                      | Some (v, r) =>
                          match skipSpace r with
                          | c :: r' =>
                              if (c =? 44)%N then parseMembers fuel' r' ((key, v) :: acc)
                              else if (c =? 125)%N then Some (JObj (rev ((key, v) :: acc)), r')
                              else None
                          | [] => None
                          end
                      end
                    else None
                end
            end
          else None
      end
  end.

(** [JSON.parse(text)]; [None] is the [SyntaxError] it throws.  No chain of
    calls of the three functions above is longer than twice the text, so the
    fuel is enough ([JSON_parse_fuel] below). *)
Definition JSON_parse (text : jsstring) : option JSON :=
  match parseValue (2 * List.length text + 2) text with
  | Some (v, rest) =>
      match skipSpace rest with
      | [] => Some v
      | _ :: _ => None
      end
  | None => None
  end.

(** What the program asks of ECMAScript beyond the above and what this
    development does not fix: the text [JSON.stringify] writes, the string a
    value that is not a string becomes when it is appended to a string (the
    conversion is taken to succeed), the outcome of the comparison [0 < v]
    for a value [v] read from a property, and the wording of the engine's
    own [TypeError]s.  Every definition
    below that depends on one of them takes the runtime as an argument, and
    every theorem holds for all runtimes. *)
Inductive NativeError := NullProperty | NotAFunction | NotPrimitive.

Record Runtime : Type := {
  JSON_stringify : JSON -> jsstring;
  ToString : JSON -> jsstring;
  (** [0 < v]: [None] when the conversion of [v] to a number throws *)
  zeroLess : JSON -> option bool;
  nativeMessage : NativeError -> jsstring
}.

End Json.

Import Json.


(** ** The route [POST /api/chat/send] *)

Module Route.

Inductive Backend := python | gemini | chatgpt.

(** [ChatRequest].  [topK] and [temperature] only travel on to the body of
    the upstream request; the upstream's answer is an input of this model
    ([FetchOutcome]), so they are left out. *)
Record ChatRequest : Type := {
  chatInput : option jsstring;
  backend : option Backend
}.

(** [process.env] *)
Record Env : Type := {
  N8N_BASE_URL : option jsstring;
  N8N_WEBHOOK_PATH : option jsstring;
  N8N_GEMINI_WEBHOOK_PATH : option jsstring
}.

(** ToBoolean of a string that may be [undefined]. *)
Definition present (v : option jsstring) : bool :=
  match v with
  | Some (_ :: _) => true
  | _ => false
  end.

(** [a || b] *)
Definition orElse (a b : option jsstring) : option jsstring :=
  if present a then a else b.

(** What [await fetch(webhookUrl, ...)] gives: a rejection (DNS failure,
    refused connection, TLS failure) or a response with its status and the
    text of its body, [await response.text()], taken to arrive whole. *)
Inductive FetchOutcome :=
| FetchRejected (message : jsstring)
| FetchResponse (status : Z) (rawResponse : jsstring).

(** [response.ok] *)
Definition ok (status : Z) : bool := (200 <=? status) && (status <=? 299).

(** The objects the stream carries, one per [controller.enqueue]; each is
    written to the wire as [data: ] followed by its JSON text and two line
    feeds.  A [Chunk] has the keys [sources] and [usage] only when the
    field here is [Some]. *)
Inductive StreamEvent :=
| Connected
| Chunk (content : jsstring) (isLast : bool) (sources usage : option JSON)
| Error (error : jsstring)
| Done.

(** What the handler answers: a JSON body with a status, or the event
    stream, given by the events enqueued before [controller.close()]. *)
Inductive Response :=
| JsonResponse (status : Z) (error : jsstring)
| EventStream (events : list StreamEvent).

(** *** Code that enqueues events and may throw *)

Inductive Exn :=
| Thrown (message : jsstring)
| Native (e : NativeError).

Definition Emit (A : Type) : Type :=
  list StreamEvent -> (Exn + A) * list StreamEvent.

Definition ret {A : Type} (a : A) : Emit A := fun out => (inr a, out).

Definition bind {A B : Type} (c : Emit A) (k : A -> Emit B) : Emit B :=
  fun out =>
    match c out with
    | (inl e, out') => (inl e, out')
    | (inr a, out') => k a out'
    end.

Definition throw {A : Type} (e : Exn) : Emit A := fun out => (inl e, out).

(** [controller.enqueue(encoder.encode(...))] *)
Definition enqueue (ev : StreamEvent) : Emit unit :=
  fun out => (inr tt, out ++ [ev]).

Notation "x <- c ;; k" := (bind c (fun x => k))
  (at level 61, c at next level, right associativity).
Notation "c ;; k" := (bind c (fun _ => k))
  (at level 61, right associativity).

(** [for (let i = start; i < chunks.length; i++) body(i, chunks[i])], over
    the elements from index [i] on. *)
Fixpoint forEachFrom {A : Type} (i : nat) (rest : list A)
    (body : nat -> A -> Emit unit) : Emit unit :=
  match rest with
  | [] => ret tt
  | x :: rest' => body i x ;; forEachFrom (S i) rest' body
  end.

(** *** The fallback reply *)

Definition key_output : jsstring := str "output".
Definition key_sources : jsstring := str "sources".
Definition key_usage : jsstring := str "usage".
Definition key_length : jsstring := str "length".

(** The three literal parts of the template of [mockResponse.output]. *)
Definition mockBefore : jsstring :=
  txt "Esta es una respuesta simulada para tu pregunta: '".

Definition mockBetween : jsstring :=
  txt "'. El sistema est" ++ [225%N]
  ++ str " funcionando correctamente, pero el webhook de N8N en ".

Definition mockAfter : jsstring :=
  str " no est" ++ [225%N]
  ++ str " disponible en este momento. Por favor, verifica que tu workflow de N8N est"
  ++ [233%N] ++ str " activo y accesible.".

Definition mockOutput (chatInput webhookUrl : jsstring) : jsstring :=
  mockBefore ++ chatInput ++ mockBetween ++ webhookUrl ++ mockAfter.

Definition mockSources : JSON :=
  JArr [JObj [(str "title", JStr (str "Documentaci" ++ [243%N] ++ str "n N8N"));
              (str "url", JStr (str "https://docs.n8n.io/webhooks/"));
              (str "snippet",
               JStr (str "Informaci" ++ [243%N] ++ str "n sobre configuraci"
                     ++ [243%N] ++ str "n de webhooks en N8N"))]].

Definition usageOf (promptTokens completionTokens totalTokens : Z) : JSON :=
  JObj [(str "promptTokens", JNum promptTokens 0);
        (str "completionTokens", JNum completionTokens 0);
        (str "totalTokens", JNum totalTokens 0)].

Definition mockUsage : JSON := usageOf 20 50 70.

(** *** The reply put in the place of one without [output] *)

(** The literal part of the template of the text put in place of the
    missing output. *)
Definition missingPrefix : jsstring :=
  str "El flujo de N8N se ejecut" ++ [243%N]
  ++ str " correctamente pero no devolvi" ++ [243%N]
  ++ str " una respuesta v" ++ [225%N]
  ++ txt "lida. La estructura de la respuesta no contiene el campo 'output' esperado. Contenido recibido: ".

Definition missingOutput (rt : Runtime) (n8nResponse : JSON) : jsstring :=
  missingPrefix ++ substring (JSON_stringify rt n8nResponse) 0 200 ++ str "...".

Definition repaired (rt : Runtime) (n8nResponse : JSON) : JSON :=
  JObj [(key_output, JStr (missingOutput rt n8nResponse));
        (key_sources, JArr []);
        (key_usage, usageOf 0 0 0)].

(** [if (!n8nResponse.output) {...}]: reading a property of [null] throws. *)
Definition validate (rt : Runtime) (n8nResponse : JSON) : Emit JSON :=
  match n8nResponse with
  | JNull => throw (Native NullProperty)
  | _ =>
      if negb (truthyProp (prop n8nResponse key_output))
      then ret (repaired rt n8nResponse)
      else ret n8nResponse
  end.

(** [chunkText(n8nResponse.output, 700)] for an [output] that passed the
    test above.  The interface declares it a string, but it is whatever the
    upstream sent.  A number or a boolean has no [length], the loop condition
    [0 < undefined] is false and the answer is the empty list.  For an array
    or an object that has a positive [length] the first iteration ends in a
    [TypeError]: an array's [slice] yields an array, which has no [trim], and
    no value read from JSON is a function. *)
Definition chunkOutput (rt : Runtime) (output : option JSON) : Emit (list jsstring) :=
  match output with
  | Some (JStr text) => ret (chunkText text 700)
  | Some (JNum _ _) | Some (JBool _) => ret []
  | Some (JArr []) => ret []
  | Some (JArr (_ :: _)) => throw (Native NotAFunction)
  | Some (JObj members) =>
      match lookup members key_length with
      | None => ret []
      | Some v =>
          match zeroLess rt v with
          | Some true => throw (Native NotAFunction)
          | Some false => ret []
          | None => throw (Native NotPrimitive)
          end
      end
  | Some JNull | None => throw (Native NullProperty)
  end.

(** The object built in the body of either [for] loop; [sources] and
    [usage] are what the spreads [...(isLast && ...)] add on the last
    chunk. *)
Definition eventData (chunks : list jsstring) (sources usage : option JSON)
    (i : nat) (chunk : jsstring) : StreamEvent :=
  let isLast := Nat.eqb i (List.length chunks - 1) in
  Chunk chunk isLast (if isLast then sources else None)
        (if isLast then usage else None).

(** Either [for] loop.  The pause between two chunks is not modelled. *)
Definition sendChunks (chunks : list jsstring) (sources usage : option JSON)
    : Emit unit :=
  forEachFrom 0 chunks (fun i chunk => enqueue (eventData chunks sources usage i chunk)).

(** [n8nResponse.sources && { sources: n8nResponse.sources }] *)
Definition whenTruthy (v : option JSON) : option JSON :=
  if truthyProp v then v else None.

Definition invalidJson (rawResponse : jsstring) : jsstring :=
  str "Invalid JSON response from N8N: " ++ substring rawResponse 0 100 ++ str "...".

(** The [try] block of [start(controller)]. *)
Definition tryBlock (rt : Runtime) (chatInput webhookUrl : jsstring)
    (upstream : FetchOutcome) : Emit unit :=
  enqueue Connected ;;
  response <- match upstream with
              | FetchRejected message => throw (Thrown message)
              | FetchResponse status rawResponse => ret (status, rawResponse)
              end ;;
  let '(status, rawResponse) := response in
  if negb (ok status) then
    let chunks := chunkText (mockOutput chatInput webhookUrl) 700 in
    sendChunks chunks (Some mockSources) (Some mockUsage) ;;
    enqueue Done
  else
    parsed <- match JSON_parse rawResponse with
              | Some v => ret v
              | None => throw (Thrown (invalidJson rawResponse))
              end ;;
    n8nResponse <- validate rt parsed ;;
    chunks <- chunkOutput rt (prop n8nResponse key_output) ;;
    sendChunks chunks (whenTruthy (prop n8nResponse key_sources))
               (whenTruthy (prop n8nResponse key_usage)) ;;
    enqueue Done.

(** [error instanceof Error ? error.message : ...]: everything thrown in the
    [try] block is an [Error]. *)
Definition messageOf (rt : Runtime) (e : Exn) : jsstring :=
  match e with
  | Thrown message => message
  | Native n => nativeMessage rt n
  end.

(** [start(controller)]: the [try] block, the [catch] that enqueues the
    error event, and the events enqueued by the time [finally] closes the
    controller. *)
Definition start (rt : Runtime) (chatInput webhookUrl : jsstring)
    (upstream : FetchOutcome) : list StreamEvent :=
  match tryBlock rt chatInput webhookUrl upstream [] with
  | (inr _, out) => out
  | (inl e, out) => out ++ [Error (messageOf rt e)]
  end.

(** The webhook path for the chosen backend. *)
Definition webhookPath (env : Env) (body : ChatRequest) : option jsstring :=
  match backend body with
  | Some gemini => orElse (N8N_GEMINI_WEBHOOK_PATH env) (N8N_WEBHOOK_PATH env)
  | Some chatgpt => N8N_WEBHOOK_PATH env
  | _ => N8N_WEBHOOK_PATH env
  end.

(** [export async function POST(req)], for a request whose body was read as
    a [ChatRequest]. *)
Definition POST (rt : Runtime) (env : Env) (body : ChatRequest)
    (upstream : FetchOutcome) : Response :=
  match chatInput body with
  | None | Some [] => JsonResponse 400 (str "chatInput is required")
  | Some input =>
      if JS.eqb (trim input) [] then JsonResponse 400 (str "chatInput is required")
      else
        match N8N_BASE_URL env, webhookPath env body with
        | Some (b :: base), Some (p :: path) =>
            EventStream (start rt input ((b :: base) ++ (p :: path)) upstream)
        | _, _ => JsonResponse 500 (str "N8N configuration missing")
        end
  end.

End Route.

Import Route.

(** ** The stream consumer of [ChatInterface]: [handleSubmit] *)

Module Submit.

Inductive Role := user | assistant.

(** [Message].  The [id], a time stamp that serves as React key, is left
    out. *)
Record Message : Type := {
  type : Role;
  content : jsstring;
  sources : option JSON;
  usage : option JSON
}.

(** The component state the handler reads and sets. *)
Record State : Type := {
  messages : list Message;
  input : jsstring;
  isLoading : bool;
  error : option jsstring
}.

(** How the sequence of [reader.read()] ends: [done], or a rejection. *)
Inductive ReadEnd :=
| Closed
| ReadFailed (message : jsstring).

(** What [await fetch('/api/chat/send', ...)] gives.  A body is the texts
    [decoder.decode(value)] of its successive reads and the way they end. *)
Inductive SendOutcome :=
| SendRejected (message : jsstring)
| SendResponse (ok : bool) (body : option (list jsstring * ReadEnd)).

(** What the inner [try] block can throw. *)
Inductive Thrown :=
| SyntaxError
| TypeError
| ServerError (error : option JSON).

Definition key_type : jsstring := str "type".
Definition key_content : jsstring := str "content".
Definition key_sources : jsstring := str "sources".
Definition key_usage : jsstring := str "usage".
Definition key_error : jsstring := str "error".
Definition prefix : jsstring := str "data: ".

(** [v === 'literal'] *)
Definition strictEq (v : option JSON) (literal : jsstring) : bool :=
  match v with
  | Some (JStr s) => JS.eqb s literal
  | _ => false
  end.

(** [content += v] *)
Definition appendValue (rt : Runtime) (content : jsstring) (v : option JSON) : jsstring :=
  content ++ match v with
             | Some (JStr s) => s
             | Some v => ToString rt v
             | None => str "undefined"
             end.

(** [if (v) field = v] *)
Definition overwrite (field v : option JSON) : option JSON :=
  if truthyProp v then v else field.

(** The updater passed to [setMessages] for a chunk. *)
Definition onChunk (rt : Runtime) (data : JSON) (prev : list Message) : list Message :=
  match rev prev with
  | lastMessage :: before =>
      match type lastMessage with
      | assistant =>
          rev before ++
          [{| type := assistant;
              content := appendValue rt (content lastMessage) (prop data key_content);
              sources := overwrite (sources lastMessage) (prop data key_sources);
              usage := overwrite (usage lastMessage) (prop data key_usage) |}]
      | user => prev
      end
  | [] => prev
  end.

(** What follows [JSON.parse] in the inner [try] block. *)
Definition dispatch (rt : Runtime) (data : JSON) (msgs : list Message)
    : Thrown + list Message :=
  match data with
  | JNull => inl TypeError
  | _ =>
      if strictEq (prop data key_type) (str "chunk") then inr (onChunk rt data msgs)
      else if strictEq (prop data key_type) (str "error")
      then inl (ServerError (prop data key_error))
      else inr msgs
  end.

(** The inner [try] block. *)
Definition tryLine (rt : Runtime) (msgs : list Message) (line : jsstring)
    : Thrown + list Message :=
  match JSON_parse (slice_from line 6) with
  | None => inl SyntaxError
  | Some data => dispatch rt data msgs
  end.

(** The body of [for (const line of lines)]: whatever the [try] block
    throws, the [catch] only logs it. *)
Definition onLine (rt : Runtime) (msgs : list Message) (line : jsstring) : list Message :=
  if startsWith line prefix then
    match tryLine rt msgs line with
    | inr msgs' => msgs'
    | inl _ => msgs
    end
  else msgs.

(** What a value of [data] does to the messages: the tests on [data.type],
    under the [catch]. *)
Definition handle (rt : Runtime) (msgs : list Message) (data : JSON) : list Message :=
  match dispatch rt data msgs with
  | inr msgs' => msgs'
  | inl _ => msgs
  end.

(** One turn of [while (true)] after a read that was not [done]. *)
Definition onRead (rt : Runtime) (msgs : list Message) (chunk : jsstring) : list Message :=
  fold_left (onLine rt) (split chunk LF) msgs.

Definition readLoop (rt : Runtime) (msgs : list Message) (reads : list jsstring)
    : list Message :=
  fold_left (onRead rt) reads msgs.

(** The value of [data] that a line brings to the tests on [data.type], if
    any. *)
Definition parsedLine (line : jsstring) : list JSON :=
  if startsWith line prefix then
    match JSON_parse (slice_from line 6) with
    | Some data => [data]
    | None => []
    end
  else [].

(** The values of [data] that reach the tests on [data.type], in order. *)
Definition delivered (reads : list jsstring) : list JSON :=
  flat_map (fun chunk => flat_map parsedLine (split chunk LF)) reads.

(** The updater of the outer [catch]: drop a trailing assistant message
    that is still empty. *)
Definition dropEmptyAssistant (prev : list Message) : list Message :=
  match rev prev with
  | lastMessage :: before =>
      match type lastMessage, content lastMessage with
      | assistant, [] => rev before
      | _, _ => prev
      end
  | [] => prev
  end.

(** The outer [try] block: the messages it leaves, and what it threw, if
    anything. *)
Definition tryBlock (rt : Runtime) (msgs : list Message) (response : SendOutcome)
    : list Message * option jsstring :=
  match response with
  | SendRejected message => (msgs, Some message)
  | SendResponse false _ => (msgs, Some (str "Failed to send message"))
  | SendResponse true None => (msgs, Some (str "No response body"))
  | SendResponse true (Some (reads, ending)) =>
      let assistantMessage :=
        {| type := assistant; content := []; sources := None; usage := None |} in
      let msgs' := readLoop rt (msgs ++ [assistantMessage]) reads in
      match ending with
      | Closed => (msgs', None)
      | ReadFailed message => (msgs', Some message)
      end
  end.

(** [handleSubmit] *)
Definition handleSubmit (rt : Runtime) (st : State) (response : SendOutcome) : State :=
  if JS.eqb (trim (input st)) [] || isLoading st then st
  else
    let userMessage :=
      {| type := user; content := trim (input st); sources := None; usage := None |} in
    match tryBlock rt (messages st ++ [userMessage]) response with
    | (msgs, None) =>
        {| messages := msgs; input := []; isLoading := false; error := None |}
    | (msgs, Some message) =>
        {| messages := dropEmptyAssistant msgs; input := [];
           isLoading := false; error := Some message |}
    end.

End Submit.

(** ** The stream consumer of the chat page: [handleSendMessage] *)

Module SendMessage.

Inductive Role := user | assistant.

Record Message : Type := {
  role : Role;
  content : jsstring
}.

(** The locals of the handler and the messages of the current chat. *)
Record Locals : Type := {
  fullResponse : jsstring;
  lastChunk : bool;
  messages : list Message
}.

Definition doneSignal : jsstring := txt "data: {'type': 'done'}".
Definition prefix : jsstring := str "data:".

(** The updater passed to [setChats], on the messages of the current chat. *)
Definition showPartial (fullResponse : jsstring) (msgs : list Message) : list Message :=
  match rev msgs with
  | lastMessage :: before =>
      match role lastMessage with
      | assistant => rev before ++ [{| role := assistant; content := fullResponse |}]
      | user => msgs ++ [{| role := assistant; content := fullResponse |}]
      end
  | [] => msgs ++ [{| role := assistant; content := fullResponse |}]
  end.

(** What follows [JSON.parse] in the [try] block. *)
Definition dispatch (rt : Runtime) (eventData : JSON) (l : Locals)
    : Submit.Thrown + Locals :=
  match eventData with
  | JNull => inl Submit.TypeError
  | _ =>
      if Submit.strictEq (prop eventData Submit.key_type) (str "chunk") then
        let full := Submit.appendValue rt (fullResponse l) (prop eventData Submit.key_content) in
        inr {| fullResponse := full; lastChunk := lastChunk l;
               messages := showPartial full (messages l) |}
      else if Submit.strictEq (prop eventData Submit.key_type) (str "error")
      then inl (Submit.ServerError (prop eventData Submit.key_error))
      else inr l
  end.

(** The [try] block. *)
Definition tryLine (rt : Runtime) (l : Locals) (line : jsstring) : Submit.Thrown + Locals :=
  let jsonString := trim (substring line 5 (length line)) in
  match jsonString with
  | [] => inr l
  | _ :: _ =>
      match JSON_parse jsonString with
      | None => inl Submit.SyntaxError
      | Some eventData => dispatch rt eventData l
      end
  end.

Definition onLine (rt : Runtime) (l : Locals) (line : jsstring) : Locals :=
  if startsWith line prefix then
    match tryLine rt l line with
    | inr l' => l'
    | inl _ => l
    end
  else l.

(** What a value of [eventData] does to the locals and the messages: the
    tests on [eventData.type], under the [catch]. *)
Definition handle (rt : Runtime) (l : Locals) (eventData : JSON) : Locals :=
  match dispatch rt eventData l with
  | inr l' => l'
  | inl _ => l
  end.

(** One turn of [while (true)] after a read that was not [done]. *)
Definition onRead (rt : Runtime) (l : Locals) (chunk : jsstring) : Locals :=
  let l1 :=
    if includes chunk doneSignal
    then {| fullResponse := fullResponse l; lastChunk := true; messages := messages l |}
    else l in
  if includes chunk prefix then fold_left (onLine rt) (split chunk LF) l1 else l1.

Definition readLoop (rt : Runtime) (l : Locals) (reads : list jsstring) : Locals :=
  fold_left (onRead rt) reads l.

(** The value of [eventData] that a line brings to the tests on
    [eventData.type], if any. *)
Definition parsedLine (line : jsstring) : list JSON :=
  if startsWith line prefix then
    match JSON_parse (trim (substring line 5 (length line))) with
    | Some eventData => [eventData]
    | None => []
    end
  else [].

(** The values of [eventData] that reach the tests on [eventData.type], in
    order. *)
Definition delivered (reads : list jsstring) : list JSON :=
  flat_map
    (fun chunk =>
       if includes chunk prefix then flat_map parsedLine (split chunk LF) else [])
    reads.

End SendMessage.

(** ** Notions the properties are stated with *)

Module Spec.

(** [s] occurs in [t] as a contiguous substring. *)
Definition substringOf (s t : jsstring) : Prop :=
  exists before after, t = before ++ s ++ after.

Definition isTerminator (c : N) : Prop :=
  c = dot \/ c = question \/ c = exclamation.

(** What the loop of [chunkText] pushes: the trim of a slice of the text
    of at most one more than the chunk size. *)
Definition pushed (text : jsstring) (chunkSize : Z) (segment : jsstring) : Prop :=
  exists a b, 0 <= a < b /\ b <= a + chunkSize + 1 /\ segment = trim (slice text a b).

(** The chunk events for a list of segments: [isLast] on the last one only,
    which alone carries [sources] and [usage]. *)
Fixpoint framed (segments : list jsstring) (sources usage : option JSON)
    : list StreamEvent :=
  match segments with
  | [] => []
  | [segment] => [Chunk segment true sources usage]
  | segment :: rest => Chunk segment false None None :: framed rest sources usage
  end.

Definition isChunk (ev : StreamEvent) : Prop :=
  match ev with
  | Chunk _ _ _ _ => True
  | _ => False
  end.

Definition isTerminal (ev : StreamEvent) : Prop :=
  match ev with
  | Done | Error _ => True
  | _ => False
  end.

(** The event has the key [sources] or the key [usage]. *)
Definition carriesMeta (ev : StreamEvent) : Prop :=
  match ev with
  | Chunk _ _ None None => False
  | Chunk _ _ _ _ => True
  | _ => False
  end.

(** The ordering of the wire protocol: [Connected], then chunk events only,
    then one terminal event and nothing after it; no chunk but the last
    carries [sources] or [usage]. *)
Definition ordered (events : list StreamEvent) : Prop :=
  exists chunks terminal,
    events = Connected :: chunks ++ [terminal]
    /\ Forall isChunk chunks
    /\ isTerminal terminal
    /\ forall before ev after,
         chunks = before ++ ev :: after -> after <> [] -> ~ carriesMeta ev.

(** Two states of [handleSendMessage] that differ at most in the flag
    [lastChunk], which the handler sets and never reads. *)
Definition sameButFlag (l l' : SendMessage.Locals) : Prop :=
  SendMessage.fullResponse l = SendMessage.fullResponse l'
  /\ SendMessage.messages l = SendMessage.messages l'.

End Spec.

Import Spec.

(** ** Sample inputs and a sample runtime, for the examples *)

Module Samples.

Definition digit (d : Z) : N := Z.to_N (48 + d).

(** The decimal digits of a natural number; the fuel bounds their count. *)
Fixpoint digitsOf (fuel : nat) (n : Z) (acc : jsstring) : jsstring :=
  match fuel with
  | O => acc
  | S fuel' =>
      if n <? 10 then digit n :: acc
      else digitsOf fuel' (n / 10) (digit (n mod 10) :: acc)
  end.

Definition decimal (z : Z) : jsstring :=
  (if z <? 0 then [45%N] else []) ++ digitsOf (Z.to_nat (Z.log2 (Z.abs z) + 1)) (Z.abs z) [].

(** The text of a number: an integer in decimal digits, as JavaScript
    writes it up to 21 digits; any other number as mantissa, [e] and
    exponent, which is not the form JavaScript picks. *)
Definition numberText (m e : Z) : jsstring :=
  if e =? 0 then decimal m else decimal m ++ [101%N] ++ decimal e.

Definition hexDigit (d : N) : N := if (d <? 10)%N then (48 + d)%N else (87 + d)%N.

Definition escapeUnit (c : N) : jsstring :=
  if (c =? 34)%N then str "\" ++ [34%N]
  else if (c =? 92)%N then str "\\"
  else if (c =? 8)%N then str "\b"
  else if (c =? 9)%N then str "\t"
  else if (c =? 10)%N then str "\n"
  else if (c =? 12)%N then str "\f"
  else if (c =? 13)%N then str "\r"
  else if (c <? 32)%N then str "\u00" ++ [hexDigit (c / 16); hexDigit (c mod 16)]
  else [c].

Definition quote (s : jsstring) : jsstring :=
  [34%N] ++ flat_map escapeUnit s ++ [34%N].

Fixpoint join (pieces : list jsstring) : jsstring :=
  match pieces with
  | [] => []
  | [piece] => piece
  | piece :: rest => piece ++ [44%N] ++ join rest
  end.

(** JSON text for a value, in the order of its members. *)
Fixpoint stringify (v : JSON) : jsstring :=
  match v with
  | JNull => str "null"
  | JBool true => str "true"
  | JBool false => str "false"
  | JNum m e => numberText m e
  | JStr s => quote s
  | JArr items => [91%N] ++ join (map stringify items) ++ [93%N]
  | JObj members =>
      [123%N]
      ++ join (map (fun member => quote (fst member) ++ [58%N] ++ stringify (snd member))
                   members)
      ++ [125%N]
  end.

Fixpoint toString (v : JSON) : jsstring :=
  match v with
  | JNull => str "null"
  | JBool true => str "true"
  | JBool false => str "false"
  | JNum m e => numberText m e
  | JStr s => s
  | JArr items =>
      join (map (fun item => match item with JNull => [] | _ => toString item end) items)
  | JObj _ => str "[object Object]"
  end.

(** A runtime to run the examples with.  It stands in for the engine on
    the values of the examples only; strings and arrays, whose conversion to
    a number is not worked out here, count as not positive. *)
Definition runtime : Runtime := {|
  JSON_stringify := stringify;
  ToString := toString;
  zeroLess := fun v =>
    match v with
    | JNum m e => Some ((0 <? m) && negb (roundsToZero m e))
    | JBool b => Some b
    | _ => Some false
    end;
  nativeMessage := fun e =>
    match e with
    | NullProperty => str "Cannot read properties of null (reading 'output')"
    | NotAFunction => str "text.slice(...).trim is not a function"
    | NotPrimitive => str "Cannot convert object to primitive value"
    end
|}.

Definition env : Env := {|
  N8N_BASE_URL := Some (str "https://n8n.example.com");
  N8N_WEBHOOK_PATH := Some (str "/webhook/chat");
  N8N_GEMINI_WEBHOOK_PATH := None
|}.

Definition webhookUrl : jsstring := str "https://n8n.example.com/webhook/chat".

(** The request [{"chatInput": "Hola"}], for the default backend. *)
Definition hola : ChatRequest := {| chatInput := Some (str "Hola"); backend := None |}.

(** The same for the backend [python], named. *)
Definition holaPython : ChatRequest :=
  {| chatInput := Some (str "Hola"); backend := Some python |}.

(** A request whose text is 700 times the letter a. *)
Definition longRequest : ChatRequest :=
  {| chatInput := Some (repeat 97%N 700); backend := None |}.

(** A text of 730 code units whose only sentence terminator is at offset
    712. *)
Definition late_terminator : jsstring :=
  repeat 97%N 712 ++ [dot] ++ repeat 98%N 17.

(** A text of 730 code units whose last sentence terminator of the first
    window is at offset 688. *)
Definition early_terminator : jsstring :=
  repeat 97%N 688 ++ [question] ++ repeat 98%N 41.

(** Two reads: the first stops inside the record of a chunk event, the
    second has the rest of that record and the whole record of another. *)
Definition read1 : jsstring := txt "data: {'type':'chunk','content':'Hola, ".

Definition read2 : jsstring :=
  txt "mundo','isLast':false}" ++ [LF; LF]
  ++ txt "data: {'type':'chunk','content':'!','isLast':true}" ++ [LF; LF].

(** The two events of those records. *)
Definition event1 : JSON :=
  JObj [(str "type", JStr (str "chunk")); (str "content", JStr (str "Hola, mundo"));
        (str "isLast", JBool false)].

Definition event2 : JSON :=
  JObj [(str "type", JStr (str "chunk")); (str "content", JStr (str "!"));
        (str "isLast", JBool true)].

(** The same two records, each whole in its read. *)
Definition whole1 : jsstring :=
  txt "data: {'type':'chunk','content':'Hola, mundo','isLast':false}" ++ [LF; LF].

Definition whole2 : jsstring :=
  txt "data: {'type':'chunk','content':'!','isLast':true}" ++ [LF; LF].

(** A stream that is closed after a chunk event that is not the last. *)
Definition cutShort : list jsstring :=
  [txt "data: {'type': 'connected'}" ++ [LF; LF];
   txt "data: {'type':'chunk','content':'Hola, ','isLast':false}" ++ [LF; LF]].

(** The component before the user sends the text Hola. *)
Definition typed : Submit.State :=
  {| Submit.messages := []; Submit.input := str "Hola";
     Submit.isLoading := false; Submit.error := None |}.

End Samples.

Import Samples.

(** ** Further notions: what chunking keeps, and the raw windows *)

Module Cuts.

Definition blank (s : jsstring) : Prop := Forall (fun c => isWhiteSpace c = true) s.

(** [text] is the [segments] in their order, with nothing but white space
    before the first, between two of them and after the last. *)
Fixpoint covers (text : jsstring) (segments : list jsstring) : Prop :=
  match segments with
  | [] => blank text
  | segment :: rest =>
      exists gap tail,
        text = gap ++ segment ++ tail /\ blank gap /\ covers tail rest
  end.

(** The windows of [size] code units of a text, the last one shorter when
    the length is no multiple of the size; [count] bounds their number. *)
Fixpoint windowsFrom (count size : nat) (text : jsstring) : list jsstring :=
  match count with
  | O => []
  | S count' =>
      match text with
      | [] => []
      | _ :: _ => firstn size text :: windowsFrom count' size (skipn size text)
      end
  end.

Definition windows (size : nat) (text : jsstring) : list jsstring :=
  windowsFrom (List.length text) size text.

End Cuts.

Import Cuts.

(** ** The text of the stream

    What [controller.enqueue(encoder.encode(...))] is given for each event
    of the route: two literal records, and two made with [JSON.stringify]. *)

Module Wire.

Definition key_isLast : jsstring := str "isLast".

(** A spread [...(condition && { key: v })]: one member, or none. *)
Definition spread (key : jsstring) (v : option JSON) : list (jsstring * JSON) :=
  match v with
  | Some v => [(key, v)]
  | None => []
  end.

(** The value an event stands for: the object [eventData] or [errorEvent]
    that is given to [JSON.stringify], with its keys in their order, and for
    the two literal records the value of the literal. *)
Definition object (ev : StreamEvent) : JSON :=
  match ev with
  | Connected => JObj [(Submit.key_type, JStr (str "connected"))]
  | Chunk content isLast sources usage =>
      JObj ([(Submit.key_type, JStr (str "chunk"));
             (Submit.key_content, JStr content);
             (key_isLast, JBool isLast)]
            ++ spread Submit.key_sources sources
            ++ spread Submit.key_usage usage)
  | Error error =>
      JObj [(Submit.key_type, JStr (str "error")); (Submit.key_error, JStr error)]
  | Done => JObj [(Submit.key_type, JStr (str "done"))]
  end.

(** The text after [data: ] in the record of an event. *)
Definition payload (rt : Runtime) (ev : StreamEvent) : jsstring :=
  match ev with
  | Connected => txt "{'type': 'connected'}"
  | Done => txt "{'type': 'done'}"
  | _ => JSON_stringify rt (object ev)
  end.

(** The record of an event: one line and an empty line. *)
Definition record (rt : Runtime) (ev : StreamEvent) : jsstring :=
  str "data: " ++ payload rt ev ++ [LF; LF].

(** The text of the records of some events, one after the other. *)
Definition records (rt : Runtime) (events : list StreamEvent) : jsstring :=
  flat_map (record rt) events.

(** What the consumers need of the text that the runtime's
    [JSON.stringify] writes for an event: [JSON.parse] reads it back, it has
    no line feed, and no white space at either end.  ECMAScript's
    [JSON.stringify] without an indentation writes an object between
    braces, with every control character of a string escaped. *)
Definition readable (rt : Runtime) (ev : StreamEvent) : Prop :=
  JSON_parse (payload rt ev) = Some (object ev)
  /\ ~ In LF (payload rt ev)
  /\ trim (payload rt ev) = payload rt ev.

(** What [JSON.parse] makes of the text of an event; [null] stands for a
    text that it refuses. *)
Definition parsed (rt : Runtime) (ev : StreamEvent) : JSON :=
  match JSON_parse (payload rt ev) with
  | Some data => data
  | None => JNull
  end.

(** The value [data] read from the record of an event serves a consumer as
    the event does: it is no [null], it has the [type] and the [content] of
    the event, and no [sources] and no [usage] where the event has none.
    Nothing is asked of the values of [sources] and [usage] themselves. *)
Definition reads (data : JSON) (ev : StreamEvent) : Prop :=
  data <> JNull
  /\ prop data Submit.key_type = prop (object ev) Submit.key_type
  /\ prop data Submit.key_content = prop (object ev) Submit.key_content
  /\ (prop (object ev) Submit.key_sources = None -> prop data Submit.key_sources = None)
  /\ (prop (object ev) Submit.key_usage = None -> prop data Submit.key_usage = None).

(** A weaker demand than [readable], one that does not depend on how the
    runtime writes a number or orders the keys inside [sources] and
    [usage]: the text has no line feed and no white space at either end, and
    [JSON.parse] reads from it a value that serves as the event. *)
Definition legible (rt : Runtime) (ev : StreamEvent) : Prop :=
  ~ In LF (payload rt ev)
  /\ trim (payload rt ev) = payload rt ev
  /\ JSON_parse (payload rt ev) <> None
  /\ reads (parsed rt ev) ev.

End Wire.

(** ** The route on any request body

    [POST] above takes the body as a [ChatRequest].  The route itself reads
    whatever JSON the request carries, and its outer [catch] answers 500 with
    the message of what was thrown. *)

Module Request.

(** What [await req.json()] gives: the value read, or the rejection when
    the body is no JSON text. *)
Inductive Body :=
| Unreadable (message : jsstring)
| Parsed (v : JSON).

(** The two places where the engine throws a [TypeError] of its own before
    the stream is made: [body.chatInput] for the body [null], and
    [body.chatInput.trim()] for a [chatInput] that is no string.  The wording
    is the engine's. *)
Inductive Failure := PropertyOfNull | TrimIsNoFunction.

Definition key_chatInput : jsstring := str "chatInput".
Definition key_backend : jsstring := str "backend".

(** The branch that the tests [body.backend === 'gemini'] and
    [body.backend === 'chatgpt'] take. *)
Definition backendOf (v : option JSON) : option Backend :=
  if Submit.strictEq v (str "gemini") then Some gemini
  else if Submit.strictEq v (str "chatgpt") then Some chatgpt
  else None.

(** [export async function POST(req)] with its outer [try] and [catch].  No
    number, boolean, string or array has a property [chatInput]; a
    [chatInput] that is true and no string has no method [trim], and no value
    read from JSON is a function. *)
Definition POST (rt : Runtime) (wording : Failure -> jsstring) (env : Env) (body : Body)
    (upstream : FetchOutcome) : Response :=
  match body with
  | Unreadable message => JsonResponse 500 message
  | Parsed JNull => JsonResponse 500 (wording PropertyOfNull)
  | Parsed v =>
      match prop v key_chatInput with
      | Some (JStr input) =>
          Route.POST rt env
            {| chatInput := Some input; backend := backendOf (prop v key_backend) |}
            upstream
      | chatInput =>
          if truthyProp chatInput then JsonResponse 500 (wording TrimIsNoFunction)
          else JsonResponse 400 (str "chatInput is required")
      end
  end.

(** The engine's wording for the examples. *)
Definition wording (f : Failure) : jsstring :=
  match f with
  | PropertyOfNull => str "Cannot read properties of null (reading 'chatInput')"
  | TrimIsNoFunction => str "body.chatInput.trim is not a function"
  end.

End Request.

(** ** The rest of the component [ChatInterface] *)

Module Interface.

(** The body of the request of [handleSubmit]: the trimmed input, and no
    backend.  [topK] and [temperature] travel with it as in
    [ChatRequest]. *)
Definition requestBody (st : Submit.State) : ChatRequest :=
  {| chatInput := Some (trim (Submit.input st)); backend := None |}.

Definition isUser (m : Submit.Message) : bool :=
  match Submit.type m with
  | Submit.user => true
  | Submit.assistant => false
  end.

(** [handleRetry]: the text of the last message of the user goes back to
    the input. *)
Definition handleRetry (st : Submit.State) : Submit.State :=
  match Submit.messages st with
  | [] => st
  | _ :: _ =>
      match rev (filter isUser (Submit.messages st)) with
      | lastUserMessage :: _ =>
          {| Submit.messages := Submit.messages st;
             Submit.input := Submit.content lastUserMessage;
             Submit.isLoading := Submit.isLoading st;
             Submit.error := Submit.error st |}
      | [] => st
      end
  end.

End Interface.

(** ** The chat page: its chats and [handleSendMessage] as a whole *)

Module Page.

(** [Chat].  [createdAt] is written and never read. *)
Record Chat : Type := {
  id : jsstring;
  title : jsstring;
  messages : list SendMessage.Message;
  backend : Backend;
  chatbotId : option jsstring
}.

(** The state of the component that the handlers below read and set. *)
Record State : Type := {
  chats : list Chat;
  currentChatId : option jsstring;
  input : jsstring;
  isLoading : bool;
  showDeleteConfirm : option jsstring;
  isAuthenticated : bool;
  username : jsstring;
  password : jsstring
}.

(** [chats.find(chat => chat.id === currentChatId) || null] *)
Definition currentChat (st : State) : option Chat :=
  match currentChatId st with
  | Some chatId => find (fun chat => JS.eqb (id chat) chatId) (chats st)
  | None => None
  end.

(** [prev.map(chat => chat.id === currentChatId ? change(chat) : chat)] *)
Definition updateCurrent (chatId : jsstring) (change : Chat -> Chat) (prev : list Chat)
    : list Chat :=
  map (fun chat => if JS.eqb (id chat) chatId then change chat else chat) prev.

(** [{ ...chat, messages }] *)
Definition withMessages (chat : Chat) (msgs : list SendMessage.Message) : Chat :=
  {| id := id chat; title := title chat; messages := msgs;
     backend := backend chat; chatbotId := chatbotId chat |}.

(** [{ ...chat, backend }] *)
Definition withBackend (chat : Chat) (b : Backend) : Chat :=
  {| id := id chat; title := title chat; messages := messages chat;
     backend := b; chatbotId := chatbotId chat |}.

(** [handleNewChat]; [now] is [Date.now().toString()] and [newChat] the
    text [t('newChat')]. *)
Definition handleNewChat (now newChat : jsstring) (st : State) : State :=
  {| chats := {| id := now; title := newChat; messages := [];
                 backend := python; chatbotId := None |} :: chats st;
     currentChatId := Some now;
     input := [];
     isLoading := isLoading st;
     showDeleteConfirm := showDeleteConfirm st;
     isAuthenticated := isAuthenticated st;
     username := username st;
     password := password st |}.

(** [handleSwitchChat] *)
Definition handleSwitchChat (chatId : jsstring) (st : State) : State :=
  {| chats := chats st;
     currentChatId := Some chatId;
     input := [];
     isLoading := isLoading st;
     showDeleteConfirm := showDeleteConfirm st;
     isAuthenticated := isAuthenticated st;
     username := username st;
     password := password st |}.

(** [currentChatId === chatId] *)
Definition isCurrent (st : State) (chatId : jsstring) : bool :=
  match currentChatId st with
  | Some current => JS.eqb current chatId
  | None => false
  end.

(** [handleDeleteChat].  The list [chats] of the handler's closure is the
    same as the [prev] of its updater: no update is pending when a click is
    handled.  When the last chat goes, the updater of [handleNewChat] runs
    after the filter and its [setCurrentChatId] after the one with [null]. *)
Definition handleDeleteChat (now newChat chatId : jsstring) (st : State) : State :=
  let remainingChats := filter (fun chat => negb (JS.eqb (id chat) chatId)) (chats st) in
  let deleted :=
    {| chats := remainingChats;
       currentChatId := currentChatId st;
       input := input st;
       isLoading := isLoading st;
       showDeleteConfirm := None;
       isAuthenticated := isAuthenticated st;
       username := username st;
       password := password st |} in
  if isCurrent st chatId then
    match remainingChats with
    | first :: _ =>
        {| chats := remainingChats;
           currentChatId := Some (id first);
           input := input st;
           isLoading := isLoading st;
           showDeleteConfirm := None;
           isAuthenticated := isAuthenticated st;
           username := username st;
           password := password st |}
    | [] => handleNewChat now newChat deleted
    end
  else deleted.

Definition withChats (st : State) (chats' : list Chat) : State :=
  {| chats := chats';
     currentChatId := currentChatId st;
     input := input st;
     isLoading := isLoading st;
     showDeleteConfirm := showDeleteConfirm st;
     isAuthenticated := isAuthenticated st;
     username := username st;
     password := password st |}.

(** [handleSetBackend] *)
Definition handleSetBackend (b : Backend) (st : State) : State :=
  match currentChatId st with
  | Some (c :: rest) =>
      withChats st (updateCurrent (c :: rest) (fun chat => withBackend chat b) (chats st))
  | _ => st
  end.

(** [handleClearChat] *)
Definition handleClearChat (st : State) : State :=
  match currentChatId st with
  | Some (c :: rest) =>
      withChats st (updateCurrent (c :: rest) (fun chat => withMessages chat []) (chats st))
  | _ => st
  end.

(** [onChange={(e) => setInput(e.target.value)}] *)
Definition setInput (text : jsstring) (st : State) : State :=
  {| chats := chats st;
     currentChatId := currentChatId st;
     input := text;
     isLoading := isLoading st;
     showDeleteConfirm := showDeleteConfirm st;
     isAuthenticated := isAuthenticated st;
     username := username st;
     password := password st |}.

(** [onChange={(e) => setPassword(e.target.value)}] *)
Definition setPassword (text : jsstring) (st : State) : State :=
  {| chats := chats st;
     currentChatId := currentChatId st;
     input := input st;
     isLoading := isLoading st;
     showDeleteConfirm := showDeleteConfirm st;
     isAuthenticated := isAuthenticated st;
     username := username st;
     password := text |}.

(** [handleLogin]: the new state and the value returned. *)
Definition handleLogin (st : State) : State * bool :=
  if negb (JS.eqb (trim (username st)) []) && negb (JS.eqb (trim (password st)) []) then
    ({| chats := chats st;
        currentChatId := currentChatId st;
        input := input st;
        isLoading := isLoading st;
        showDeleteConfirm := showDeleteConfirm st;
        isAuthenticated := true;
        username := username st;
        password := [] |}, true)
  else (st, false).

(** [handleLogout] *)
Definition handleLogout (st : State) : State :=
  {| chats := [];
     currentChatId := None;
     input := input st;
     isLoading := isLoading st;
     showDeleteConfirm := showDeleteConfirm st;
     isAuthenticated := false;
     username := [];
     password := [] |}.

(** The message put in place of an answer when a chat of the backend
    [python] has no document yet. *)
Definition needsDocument : jsstring :=
  str "Para usar Python RAG necesitas subir primero un documento PDF. Usa el bot"
  ++ [243%N] ++ txt "n 'Subir archivo' en la parte superior.".

(** [currentChat?.backend === 'python' && !currentChat?.chatbotId] *)
Definition lacksDocument (chat : option Chat) : bool :=
  match chat with
  | Some chat =>
      match backend chat with
      | python => negb (present (chatbotId chat))
      | _ => false
      end
  | None => false
  end.

(** [input.substring(0, 30) + (input.length > 30 ? '...' : '')] *)
Definition titleOf (text : jsstring) : jsstring :=
  substring text 0 30 ++ (if length text >? 30 then str "..." else []).

(** The chat with the message of the user, and with its title when that
    is its first message. *)
Definition withUserMessage (text : jsstring) (chat : Chat) : Chat :=
  {| id := id chat;
     title := match messages chat with
              | [] => titleOf text
              | _ :: _ => title chat
              end;
     messages := messages chat
                 ++ [{| SendMessage.role := SendMessage.user; SendMessage.content := text |}];
     backend := backend chat;
     chatbotId := chatbotId chat |}.

(** The chat with one more message of the assistant. *)
Definition withAssistantMessage (text : jsstring) (chat : Chat) : Chat :=
  withMessages chat
    (messages chat
     ++ [{| SendMessage.role := SendMessage.assistant; SendMessage.content := text |}]).

(** The body of the request of [handleSendMessage]: the input as typed,
    and the backend of the current chat.  The [chatbotId] that goes with it
    for the backend [python] is no field of [ChatRequest]: the route does not
    read it. *)
Definition requestBody (st : State) : ChatRequest :=
  {| chatInput := Some (input st);
     Route.backend := Some match currentChat st with
                           | Some chat => backend chat
                           | None => python
                           end |}.

(** The locals of the loop and the chats as the updaters leave them. *)
Record Locals : Type := {
  fullResponse : jsstring;
  lastChunk : bool;
  shown : list Chat
}.

(** The updater passed to [setChats] for a chunk. *)
Definition showPartial (chatId full : jsstring) (prev : list Chat) : list Chat :=
  updateCurrent chatId
    (fun chat => withMessages chat (SendMessage.showPartial full (messages chat))) prev.

(** What follows [JSON.parse] in the [try] block. *)
Definition dispatch (rt : Runtime) (chatId : jsstring) (eventData : JSON) (l : Locals)
    : Submit.Thrown + Locals :=
  match eventData with
  | JNull => inl Submit.TypeError
  | _ =>
      if Submit.strictEq (prop eventData Submit.key_type) (str "chunk") then
        let full := Submit.appendValue rt (fullResponse l) (prop eventData Submit.key_content) in
        inr {| fullResponse := full; lastChunk := lastChunk l;
               shown := showPartial chatId full (shown l) |}
      else if Submit.strictEq (prop eventData Submit.key_type) (str "error")
      then inl (Submit.ServerError (prop eventData Submit.key_error))
      else inr l
  end.

(** The [try] block. *)
Definition tryLine (rt : Runtime) (chatId : jsstring) (l : Locals) (line : jsstring)
    : Submit.Thrown + Locals :=
  let jsonString := trim (substring line 5 (length line)) in
  match jsonString with
  | [] => inr l
  | _ :: _ =>
      match JSON_parse jsonString with
      | None => inl Submit.SyntaxError
      | Some eventData => dispatch rt chatId eventData l
      end
  end.

Definition onLine (rt : Runtime) (chatId : jsstring) (l : Locals) (line : jsstring) : Locals :=
  if startsWith line SendMessage.prefix then
    match tryLine rt chatId l line with
    | inr l' => l'
    | inl _ => l
    end
  else l.

(** One turn of [while (true)] after a read that was not [done]. *)
Definition onRead (rt : Runtime) (chatId : jsstring) (l : Locals) (chunk : jsstring) : Locals :=
  let l1 :=
    if includes chunk SendMessage.doneSignal
    then {| fullResponse := fullResponse l; lastChunk := true; shown := shown l |}
    else l in
  if includes chunk SendMessage.prefix
  then fold_left (onLine rt chatId) (split chunk LF) l1
  else l1.

Definition readLoop (rt : Runtime) (chatId : jsstring) (l : Locals) (reads : list jsstring)
    : Locals :=
  fold_left (onRead rt chatId) reads l.

(** The [try] block of [handleSendMessage]: the chats it leaves, and
    whether it threw. *)
Definition tryBlock (rt : Runtime) (chatId : jsstring) (prev : list Chat)
    (response : Submit.SendOutcome) : list Chat * bool :=
  match response with
  | Submit.SendRejected _ => (prev, true)
  | Submit.SendResponse _ None => (prev, true)
  | Submit.SendResponse _ (Some (reads, ending)) =>
      let l := readLoop rt chatId
                 {| fullResponse := []; lastChunk := false; shown := prev |} reads in
      match ending with
      | Submit.Closed => (shown l, false)
      | Submit.ReadFailed _ => (shown l, true)
      end
  end.

(** [handleSendMessage]; [error] is the text [t('error')].  The status of
    the response is not looked at. *)
Definition handleSendMessage (rt : Runtime) (error : jsstring) (st : State)
    (response : Submit.SendOutcome) : State :=
  match currentChatId st with
  | Some (c :: rest) =>
      let chatId := c :: rest in
      if JS.eqb (trim (input st)) [] || isLoading st then st
      else if lacksDocument (currentChat st) then
        {| chats :=
             updateCurrent chatId
               (fun chat =>
                  withMessages chat
                    (messages chat
                     ++ [{| SendMessage.role := SendMessage.user;
                            SendMessage.content := input st |};
                         {| SendMessage.role := SendMessage.assistant;
                            SendMessage.content := needsDocument |}]))
               (chats st);
           currentChatId := currentChatId st;
           input := [];
           isLoading := isLoading st;
           showDeleteConfirm := showDeleteConfirm st;
           isAuthenticated := isAuthenticated st;
           username := username st;
           password := password st |}
      else
        let sent := updateCurrent chatId (withUserMessage (input st)) (chats st) in
        let chats' :=
          match tryBlock rt chatId sent response with
          | (after, false) => after
          | (after, true) => updateCurrent chatId (withAssistantMessage error) after
          end in
        {| chats := chats';
           currentChatId := currentChatId st;
           input := [];
           isLoading := false;
           showDeleteConfirm := showDeleteConfirm st;
           isAuthenticated := isAuthenticated st;
           username := username st;
           password := password st |}
  | _ => st
  end.

(** What a user of the page can do to its chats. *)
Inductive Action :=
| NewChat (now newChat : jsstring)
| SwitchChat (chatId : jsstring)
| DeleteChat (now newChat chatId : jsstring)
| SetBackend (b : Backend)
| ClearChat
| SendMessage (error : jsstring) (response : Submit.SendOutcome)
| Login
| Logout.

Definition perform (rt : Runtime) (action : Action) (st : State) : State :=
  match action with
  | NewChat now newChat => handleNewChat now newChat st
  | SwitchChat chatId => handleSwitchChat chatId st
  | DeleteChat now newChat chatId => handleDeleteChat now newChat chatId st
  | SetBackend b => handleSetBackend b st
  | ClearChat => handleClearChat st
  | SendMessage error response => handleSendMessage rt error st response
  | Login => fst (handleLogin st)
  | Logout => handleLogout st
  end.

(** The page offers [handleSwitchChat] for the chats of its list only. *)
Definition offered (action : Action) (st : State) : Prop :=
  match action with
  | SwitchChat chatId => exists chat, In chat (chats st) /\ id chat = chatId
  | _ => True
  end.

(** The current chat id is [null] or the id of a chat of the list. *)
Definition consistent (st : State) : Prop :=
  match currentChatId st with
  | Some chatId => exists chat, In chat (chats st) /\ id chat = chatId
  | None => True
  end.

(** What a handler may do to a chat: add messages at the end, and that to
    the current chat only. *)
Definition grows (current : option jsstring) (chat chat' : Chat) : Prop :=
  id chat' = id chat
  /\ backend chat' = backend chat
  /\ chatbotId chat' = chatbotId chat
  /\ (exists more, messages chat' = messages chat ++ more)
  /\ (current <> Some (id chat) -> chat' = chat).

(** The locals of the loop together with the messages of one chat: the
    state that [SendMessage] runs the loop on. *)
Definition local (l : Locals) (msgs : list SendMessage.Message) : SendMessage.Locals :=
  {| SendMessage.fullResponse := fullResponse l;
     SendMessage.lastChunk := lastChunk l;
     SendMessage.messages := msgs |}.

(** A step of the loop on the chats does, at [l], to every chat with the
    id [chatId] what the step [step'] does to its messages, and to the
    locals what [step'] does to them; it leaves the other chats alone. *)
Definition tracks (chatId : jsstring) (step : Locals -> Locals)
    (step' : SendMessage.Locals -> SendMessage.Locals) (l : Locals) : Prop :=
  (forall msgs,
      SendMessage.fullResponse (step' (local l msgs)) = fullResponse (step l)
      /\ SendMessage.lastChunk (step' (local l msgs)) = lastChunk (step l))
  /\ shown (step l)
     = updateCurrent chatId
         (fun chat =>
            withMessages chat (SendMessage.messages (step' (local l (messages chat)))))
         (shown l).

End Page.

(** ** The account service [authService]

    Its two module-level maps are the state; a JavaScript [Map] is the list
    of its entries in the order of their insertion, with no key twice. *)

Module Auth.

Definition JsMap (V : Type) : Type := list (jsstring * V).

(** [m.get(key)] *)
Fixpoint get {V : Type} (m : JsMap V) (key : jsstring) : option V :=
  match m with
  | [] => None
  | (k, v) :: rest => if JS.eqb k key then Some v else get rest key
  end.

(** [m.set(key, v)]: the entry of a key that is there keeps its place. *)
Fixpoint set {V : Type} (m : JsMap V) (key : jsstring) (v : V) : JsMap V :=
  match m with
  | [] => [(key, v)]
  | (k, v') :: rest =>
      if JS.eqb k key then (k, v) :: rest else (k, v') :: set rest key v
  end.

(** [m.delete(key)]: the map without the key, and whether it was there. *)
Definition delete {V : Type} (m : JsMap V) (key : jsstring) : JsMap V * bool :=
  (filter (fun entry => negb (JS.eqb (fst entry) key)) m,
   existsb (fun entry => JS.eqb (fst entry) key) m).

(** [Array.from(m.values())] *)
Definition values {V : Type} (m : JsMap V) : list V := map snd m.

(** [User] and [Session]; [createdAt] is written and never read.  The
    [id] of a session is named [sessionId] here. *)
Record User : Type := {
  id : jsstring;
  username : jsstring;
  passwordHash : jsstring
}.

Record Session : Type := {
  sessionId : jsstring;
  userId : jsstring
}.

Record Store : Type := {
  users : JsMap User;
  sessions : JsMap Session
}.

(** What [registerUser], [authenticateUser] and [logoutUser] return;
    [issued] is the [userId] or the [sessionId] of a success. *)
Record Result : Type := {
  success : bool;
  message : jsstring;
  issued : option jsstring
}.

Definition hashPassword (password : jsstring) : jsstring := str "hashed_" ++ password.

Definition verifyPassword (password hash : jsstring) : bool :=
  JS.eqb hash (str "hashed_" ++ password).

(** [registerUser]; [now] is [Date.now().toString()]. *)
Definition registerUser (now name password : jsstring) (s : Store) : Store * Result :=
  if existsb (fun user => JS.eqb (username user) name) (values (users s)) then
    (s, {| success := false; message := str "Username already exists"; issued := None |})
  else
    let user := {| id := now; username := name; passwordHash := hashPassword password |} in
    ({| users := set (users s) name user; sessions := sessions s |},
     {| success := true; message := str "User registered successfully";
        issued := Some now |}).

(** [authenticateUser]; [generated] is what [generateSessionId()] gives. *)
Definition authenticateUser (generated name password : jsstring) (s : Store)
    : Store * Result :=
  match get (users s) name with
  | None => (s, {| success := false; message := str "Invalid credentials"; issued := None |})
  | Some user =>
      if verifyPassword password (passwordHash user) then
        ({| users := users s;
            sessions := set (sessions s) generated
                          {| sessionId := generated; userId := id user |} |},
         {| success := true; message := str "Authentication successful";
            issued := Some generated |})
      else
        (s, {| success := false; message := str "Invalid credentials"; issued := None |})
  end.

(** [validateSession]: the [userId] and the [username] of an answer with
    [valid: true], or [None] for [{ valid: false }]. *)
Definition validateSession (session : jsstring) (s : Store) : option (jsstring * jsstring) :=
  match get (sessions s) session with
  | None => None
  | Some found =>
      match find (fun user => JS.eqb (id user) (userId found)) (values (users s)) with
      | Some user => Some (id user, username user)
      | None => None
      end
  end.

(** [logoutUser] *)
Definition logoutUser (session : jsstring) (s : Store) : Store * Result :=
  let (remaining, deleted) := delete (sessions s) session in
  ({| users := users s; sessions := remaining |},
   if deleted
   then {| success := true; message := str "Logged out successfully"; issued := None |}
   else {| success := false; message := str "Session not found"; issued := None |}).

(** [getAllUsers] *)
Definition getAllUsers (s : Store) : list User := values (users s).

(** The calls of the service. *)
Inductive Call :=
| Register (now name password : jsstring)
| Authenticate (generated name password : jsstring)
| Logout (session : jsstring).

Definition call (c : Call) (s : Store) : Store * Result :=
  match c with
  | Register now name password => registerUser now name password s
  | Authenticate generated name password => authenticateUser generated name password s
  | Logout session => logoutUser session s
  end.

(** The store before any call. *)
Definition empty : Store := {| users := []; sessions := [] |}.

(** Every user is kept under its name, every session under its id, and no
    key is there twice. *)
Definition keyed (s : Store) : Prop :=
  Forall (fun entry => fst entry = username (snd entry)) (users s)
  /\ NoDup (map fst (users s))
  /\ Forall (fun entry => fst entry = sessionId (snd entry)) (sessions s)
  /\ NoDup (map fst (sessions s)).

(** [handleRegister] of the chat page: the store it leaves and the text of
    its alert.  On success it also goes back to the login view. *)
Definition handleRegister (now : jsstring) (st : Page.State) (s : Store)
    : Store * jsstring :=
  if JS.eqb (trim (Page.username st)) [] || JS.eqb (trim (Page.password st)) [] then
    (s, str "Username and password are required")
  else
    let (s', result) := registerUser now (Page.username st) (Page.password st) s in
    if success result
    then (s', str "User registered successfully! You can now log in.")
    else (s', message result).

End Auth.

(** ** A second sample runtime *)

Module Engines.

(** JSON text as [stringify] writes it, but with every whole number
    written with a decimal point, 7 as [7.0]: text that [JSON.parse] reads as
    another value of the same number. *)
Fixpoint stringifyPointed (v : JSON) : jsstring :=
  match v with
  | JNull => str "null"
  | JBool true => str "true"
  | JBool false => str "false"
  | JNum m e => if e =? 0 then decimal m ++ str ".0" else numberText m e
  | JStr s => quote s
  | JArr items => [91%N] ++ join (map stringifyPointed items) ++ [93%N]
  | JObj members =>
      [123%N]
      ++ join (map (fun member =>
                      quote (fst member) ++ [58%N] ++ stringifyPointed (snd member))
                   members)
      ++ [125%N]
  end.

Definition pointed : Runtime := {|
  JSON_stringify := stringifyPointed;
  ToString := ToString runtime;
  zeroLess := zeroLess runtime;
  nativeMessage := nativeMessage runtime
|}.

End Engines.

(** ** Sample states of the chat page *)

Module PageSamples.

Definition geminiChat : Page.Chat :=
  {| Page.id := str "1700000000000"; Page.title := str "Nuevo chat";
     Page.messages := []; Page.backend := gemini; Page.chatbotId := None |}.

Definition olderChat : Page.Chat :=
  {| Page.id := str "1600000000000"; Page.title := str "Saludos";
     Page.messages :=
       [{| SendMessage.role := SendMessage.user; SendMessage.content := str "Buenas" |}];
     Page.backend := chatgpt; Page.chatbotId := None |}.

(** The page with two chats, the first one current, and the text Hola
    typed. *)
Definition page : Page.State :=
  {| Page.chats := [geminiChat; olderChat];
     Page.currentChatId := Some (str "1700000000000");
     Page.input := str "Hola";
     Page.isLoading := false;
     Page.showDeleteConfirm := None;
     Page.isAuthenticated := true;
     Page.username := str "ana";
     Page.password := [] |}.

End PageSamples.

(** * Properties *)

(** ** Strings *)

Lemma JS_length_nonneg (s : jsstring) : 0 <= length s.
Proof. unfold length. lia. Qed.

Lemma JS_length_app (s t : jsstring) : length (s ++ t) = length s + length t.
Proof. unfold length. rewrite List.length_app. lia. Qed.

Lemma JS_eqb_eq (a b : jsstring) : JS.eqb a b = true <-> a = b.
Proof.
  unfold JS.eqb. destruct (list_eq_dec N.eq_dec a b); split; congruence.
Qed.

Lemma JS_eqb_refl (a : jsstring) : JS.eqb a a = true.
Proof. apply JS_eqb_eq. reflexivity. Qed.

(** *** [lastIndexOf] *)

Lemma lastIndexOf_scan_sound (s : jsstring) (c : N) :
  forall i pos acc,
    let r := lastIndexOf_scan s c i pos acc in
    r = acc \/ (i <= r <= pos /\ nth_error s (Z.to_nat (r - i)) = Some c).
Proof.
  induction s as [|x s IH]; intros i pos acc; simpl.
  - left. reflexivity.
  - destruct (i <=? pos) eqn:Hi; [|left; reflexivity].
    apply Z.leb_le in Hi.
    destruct (IH (i + 1) pos (if N.eqb x c then i else acc)) as [H|[H1 H2]].
    + destruct (N.eqb x c) eqn:Hx.
      * right. rewrite H. apply N.eqb_eq in Hx. subst x.
        replace (i - i) with 0 by lia. simpl. split; [lia|reflexivity].
      * left. exact H.
    + right. split; [lia|].
      replace (Z.to_nat (lastIndexOf_scan s c (i + 1) pos (if N.eqb x c then i else acc) - i))
        with (S (Z.to_nat (lastIndexOf_scan s c (i + 1) pos (if N.eqb x c then i else acc) - (i + 1))))
        by lia.
      exact H2.
Qed.

Lemma lastIndexOf_scan_acc_le (s : jsstring) (c : N) :
  forall i pos acc, acc < i -> acc <= lastIndexOf_scan s c i pos acc.
Proof.
  induction s as [|x s IH]; intros i pos acc Hacc; simpl; [lia|].
  destruct (i <=? pos); [|lia].
  destruct (N.eqb x c).
  - specialize (IH (i + 1) pos i). lia.
  - specialize (IH (i + 1) pos acc). lia.
Qed.

Lemma lastIndexOf_scan_complete (s : jsstring) (c : N) :
  forall i pos acc k,
    acc < i -> i <= k <= pos -> nth_error s (Z.to_nat (k - i)) = Some c ->
    k <= lastIndexOf_scan s c i pos acc.
Proof.
  induction s as [|x s IH]; intros i pos acc k Hacc Hk Hn; simpl.
  - destruct (Z.to_nat (k - i)); discriminate.
  - replace (i <=? pos) with true by (symmetry; apply Z.leb_le; lia).
    destruct (Z.eq_dec k i) as [->|Hne].
    + replace (i - i) with 0 in Hn by lia. simpl in Hn. injection Hn as ->.
      rewrite N.eqb_refl.
      apply lastIndexOf_scan_acc_le. lia.
    + apply IH; [destruct (N.eqb x c); lia | lia |].
      replace (Z.to_nat (k - i)) with (S (Z.to_nat (k - (i + 1)))) in Hn by lia.
      exact Hn.
Qed.

(** The answer of [lastIndexOf] is [-1] or the index of an occurrence at or
    before the position. *)
Lemma lastIndexOf_sound (s : jsstring) (c : N) (pos : Z) :
  lastIndexOf s c pos = -1
  \/ (0 <= lastIndexOf s c pos <= Z.max pos 0
      /\ nth_error s (Z.to_nat (lastIndexOf s c pos)) = Some c).
Proof.
  unfold lastIndexOf.
  destruct (lastIndexOf_scan_sound s c 0 (Z.max pos 0) (-1)) as [H|[H1 H2]].
  - left. exact H.
  - right. rewrite Z.sub_0_r in H2. split; [lia|exact H2].
Qed.

(** No occurrence at or before the position lies after the answer. *)
Lemma lastIndexOf_complete (s : jsstring) (c : N) (pos k : Z) :
  0 <= k <= pos -> nth_error s (Z.to_nat k) = Some c -> k <= lastIndexOf s c pos.
Proof.
  intros Hk Hn. unfold lastIndexOf.
  apply lastIndexOf_scan_complete; [lia | lia |].
  rewrite Z.sub_0_r. exact Hn.
Qed.

Lemma lastIndexOf_le (s : jsstring) (c : N) (pos : Z) :
  0 <= pos -> -1 <= lastIndexOf s c pos <= pos.
Proof.
  intros Hpos. destruct (lastIndexOf_sound s c pos) as [H|[H _]]; lia.
Qed.

(** *** [trim] *)

Lemma trimStart_split (s : jsstring) :
  exists ws, s = ws ++ trimStart s /\ Forall (fun c => isWhiteSpace c = true) ws.
Proof.
  induction s as [|c s [ws [H1 H2]]]; simpl.
  - exists []. split; [reflexivity|constructor].
  - destruct (isWhiteSpace c) eqn:Hc.
    + exists (c :: ws). split; [simpl; congruence|constructor; assumption].
    + exists []. split; [reflexivity|constructor].
Qed.

Lemma trimStart_head (s : jsstring) (c : N) (r : jsstring) :
  trimStart s = c :: r -> isWhiteSpace c = false.
Proof.
  induction s as [|x s IH]; simpl; [discriminate|].
  destruct (isWhiteSpace x) eqn:Hx; [exact IH|].
  intros H. injection H as -> _. exact Hx.
Qed.

Lemma trimStart_keeps (s : jsstring) (c : N) :
  In c s -> isWhiteSpace c = false -> In c (trimStart s).
Proof.
  induction s as [|x s IH]; simpl; [tauto|].
  intros [-> | Hin] Hc.
  - rewrite Hc. left. reflexivity.
  - destruct (isWhiteSpace x); [apply IH; assumption|right; exact Hin].
Qed.

Lemma trimStart_fixed (c : N) (s : jsstring) :
  isWhiteSpace c = false -> trimStart (c :: s) = c :: s.
Proof. intros H. simpl. rewrite H. reflexivity. Qed.

Lemma trimStart_idem (s : jsstring) : trimStart (trimStart s) = trimStart s.
Proof.
  destruct (trimStart s) as [|c r] eqn:H; [reflexivity|].
  apply trimStart_fixed. exact (trimStart_head _ _ _ H).
Qed.

Lemma trimStart_snoc (s : jsstring) (c : N) :
  isWhiteSpace c = false -> trimStart (s ++ [c]) = trimStart s ++ [c].
Proof.
  intros Hc. induction s as [|x s IH]; simpl.
  - rewrite Hc. reflexivity.
  - destruct (isWhiteSpace x); [exact IH|reflexivity].
Qed.

Lemma trimEnd_split (s : jsstring) :
  exists ws, s = trimEnd s ++ ws /\ Forall (fun c => isWhiteSpace c = true) ws.
Proof.
  unfold trimEnd. destruct (trimStart_split (rev s)) as [ws [H1 H2]].
  exists (rev ws). split.
  - apply (f_equal (@rev N)) in H1.
    rewrite rev_involutive, rev_app_distr in H1. exact H1.
  - apply Forall_rev. exact H2.
Qed.

Lemma trimEnd_snoc (s : jsstring) (c : N) :
  isWhiteSpace c = false -> trimEnd (s ++ [c]) = s ++ [c].
Proof.
  intros Hc. unfold trimEnd. rewrite rev_app_distr. simpl.
  rewrite Hc. simpl. rewrite rev_involutive. reflexivity.
Qed.

Lemma trimEnd_keeps (s : jsstring) (c : N) :
  In c s -> isWhiteSpace c = false -> In c (trimEnd s).
Proof.
  intros Hin Hc. unfold trimEnd. apply in_rev. rewrite rev_involutive.
  apply trimStart_keeps; [apply in_rev in Hin; exact Hin|exact Hc].
Qed.

Lemma trimEnd_idem (s : jsstring) : trimEnd (trimEnd s) = trimEnd s.
Proof. unfold trimEnd. rewrite rev_involutive, trimStart_idem. reflexivity. Qed.

(** Stripping the end leaves the first code unit in place. *)
Lemma trimEnd_head (c : N) (s : jsstring) :
  isWhiteSpace c = false -> exists r, trimEnd (c :: s) = c :: r.
Proof.
  intros Hc. destruct (trimEnd_split (c :: s)) as [ws [H1 H2]].
  destruct (trimEnd (c :: s)) as [|x r] eqn:He.
  - simpl in H1. subst ws. inversion H2. congruence.
  - exists r. simpl in H1. congruence.
Qed.

(** [trim] gives a contiguous part of the string. *)
Lemma trim_substringOf (s : jsstring) : substringOf (trim s) s.
Proof.
  unfold trim. destruct (trimStart_split s) as [pre [H1 _]].
  destruct (trimEnd_split (trimStart s)) as [post [H2 _]].
  exists pre, post. rewrite <- H2. exact H1.
Qed.

Lemma trim_length (s : jsstring) : length (trim s) <= length s.
Proof.
  destruct (trim_substringOf s) as [pre [post H]].
  rewrite H at 2. rewrite !JS_length_app.
  pose proof (JS_length_nonneg pre). pose proof (JS_length_nonneg post). lia.
Qed.

Lemma trim_keeps (s : jsstring) (c : N) :
  In c s -> isWhiteSpace c = false -> In c (trim s).
Proof.
  intros Hin Hc. unfold trim. apply trimEnd_keeps; [|exact Hc].
  apply trimStart_keeps; assumption.
Qed.

(** A trimmed string is its own trim. *)
Lemma trim_idem (s : jsstring) : trim (trim s) = trim s.
Proof.
  unfold trim.
  destruct (trimStart s) as [|c r] eqn:Hs; [reflexivity|].
  pose proof (trimStart_head _ _ _ Hs) as Hc.
  destruct (trimEnd_head c r Hc) as [r' Hr].
  rewrite Hr. rewrite (trimStart_fixed c r' Hc). rewrite <- Hr.
  apply trimEnd_idem.
Qed.

(** A string that starts and ends outside white space is left as it is. *)
Lemma trim_fixed (c d : N) (s : jsstring) :
  isWhiteSpace c = false -> isWhiteSpace d = false ->
  trim (c :: s ++ [d]) = c :: s ++ [d].
Proof.
  intros Hc Hd. unfold trim. rewrite (trimStart_fixed c _ Hc).
  change (c :: s ++ [d]) with ((c :: s) ++ [d]). apply trimEnd_snoc. exact Hd.
Qed.

Lemma trim_snoc (s : jsstring) (c : N) :
  isWhiteSpace c = false -> trim (s ++ [c]) = trimStart s ++ [c].
Proof.
  intros Hc. unfold trim. rewrite (trimStart_snoc s c Hc).
  apply trimEnd_snoc. exact Hc.
Qed.

(** *** [slice] *)

Lemma slice_nonneg (s : jsstring) (a b : Z) :
  0 <= a -> 0 <= b ->
  slice s a b
  = firstn (Z.to_nat (Z.min b (length s)) - Z.to_nat (Z.min a (length s)))
      (skipn (Z.to_nat (Z.min a (length s))) s).
Proof.
  intros Ha Hb. unfold slice.
  replace (a <? 0) with false by (symmetry; apply Z.ltb_ge; lia).
  replace (b <? 0) with false by (symmetry; apply Z.ltb_ge; lia).
  f_equal. lia.
Qed.

Lemma slice_substringOf (s : jsstring) (a b : Z) : substringOf (slice s a b) s.
Proof.
  unfold slice.
  set (n := Z.to_nat _). set (from := Z.to_nat _).
  exists (firstn from s), (skipn n (skipn from s)).
  rewrite (firstn_skipn n (skipn from s)). symmetry. apply firstn_skipn.
Qed.

Lemma slice_length (s : jsstring) (a b : Z) :
  0 <= a <= b -> length (slice s a b) <= b - a.
Proof.
  intros H. rewrite slice_nonneg by lia. unfold length.
  rewrite List.length_firstn. pose proof (JS_length_nonneg s). unfold length in *. lia.
Qed.

Lemma slice_nth (s : jsstring) (a b p : Z) :
  0 <= a -> a <= p < b -> p < length s ->
  nth_error (slice s a b) (Z.to_nat (p - a)) = nth_error s (Z.to_nat p).
Proof.
  intros Ha Hp Hlen. rewrite slice_nonneg by lia.
  rewrite nth_error_firstn.
  replace (Nat.ltb _ _) with true by (symmetry; apply Nat.ltb_lt; lia).
  rewrite nth_error_skipn. f_equal. lia.
Qed.

(** A slice that reaches the end of the string, taken from its start, is the
    whole string. *)
Lemma slice_all (s : jsstring) (b : Z) : length s <= b -> slice s 0 b = s.
Proof.
  intros H. pose proof (JS_length_nonneg s). rewrite slice_nonneg by lia.
  rewrite Z.min_r by lia. rewrite Z.min_l by lia. simpl.
  rewrite Nat.sub_0_r. apply firstn_all2. unfold length. lia.
Qed.

Lemma substringOf_trans (a b c : jsstring) :
  substringOf a b -> substringOf b c -> substringOf a c.
Proof.
  intros [p1 [q1 H1]] [p2 [q2 H2]]. exists (p2 ++ p1), (q1 ++ q2).
  rewrite H2, H1. rewrite <- !app_assoc. reflexivity.
Qed.

(** ** The parser *)

Lemma skipSpace_length (s : jsstring) :
  (List.length (skipSpace s) <= List.length s)%nat.
Proof.
  induction s as [|c s IH]; simpl; [lia|].
  destruct (isJsonSpace c); simpl; lia.
Qed.

Lemma digits_length (s : jsstring) :
  forall acc n, (List.length (snd (digits s acc n)) <= List.length s)%nat.
Proof.
  induction s as [|c s IH]; intros acc n; simpl; [apply Nat.le_refl|].
  destruct (isDigit c); simpl; [|apply Nat.le_refl].
  apply Nat.le_le_succ_r. apply IH.
Qed.

Lemma stringBody_consumes (n : nat) :
  forall s acc text rest,
    (List.length s <= n)%nat ->
    stringBody s acc = Some (text, rest) -> (List.length rest < List.length s)%nat.
Proof.
  induction n as [|n IH]; intros s acc text rest Hn H.
  - destruct s; [discriminate|simpl in Hn; lia].
  - destruct s as [|c s]; [discriminate|]. simpl in H, Hn.
    destruct (c =? 34)%N; [injection H as _ <-; simpl; lia|].
    destruct (c =? 92)%N.
    + destruct s as [|e s]; [discriminate|].
      destruct (escaped e).
      * apply IH in H; simpl in *; lia.
      * destruct (e =? 117)%N; [|discriminate].
        destruct s as [|h1 [|h2 [|h3 [|h4 s]]]]; try discriminate.
        destruct (hex4 h1 h2 h3 h4); [|discriminate].
        apply IH in H; simpl in *; lia.
    + destruct (c <? 32)%N; [discriminate|].
      apply IH in H; simpl in *; lia.
Qed.

Lemma parseNumber_consumes (s : jsstring) (v : JSON) (rest : jsstring) :
  parseNumber s = Some (v, rest) -> (List.length rest < List.length s)%nat.
Proof.
  unfold parseNumber. intros H.
  destruct (minusSign s) as [negative s1] eqn:E1.
  assert (H1 : (List.length s1 <= List.length s)%nat).
  { unfold minusSign in E1. destruct s as [|c t]; [injection E1 as _ <-; lia|].
    destruct (c =? 45)%N; injection E1 as _ <-; simpl; lia. }
  destruct (integerPart s1) as [[int s2]|] eqn:E2; [|discriminate].
  assert (H2 : (List.length s2 < List.length s1)%nat).
  { unfold integerPart in E2. destruct s1 as [|c t]; [discriminate|].
    destruct (isDigit c) eqn:Hc; [|discriminate].
    destruct (c =? 48)%N; [injection E2 as _ <-; simpl; lia|].
    assert (Ed : digits (c :: t) 0 0 = digits t (10 * 0 + Z.of_N (c - 48)) (0 + 1))
      by (cbn [digits]; rewrite Hc; reflexivity).
    rewrite Ed in E2.
    pose proof (digits_length t (10 * 0 + Z.of_N (c - 48)) (0 + 1)) as Hd.
    destruct (digits t (10 * 0 + Z.of_N (c - 48)) (0 + 1)) as [[a b] r].
    injection E2 as _ <-. simpl in *. lia. }
  destruct (fractionPart int s2) as [[[m n] s3]|] eqn:E3; [|discriminate].
  assert (H3 : (List.length s3 <= List.length s2)%nat).
  { unfold fractionPart in E3. destruct s2 as [|c t]; [injection E3 as _ _ <-; lia|].
    destruct (c =? 46)%N; [|injection E3 as _ _ <-; lia].
    pose proof (digits_length t int 0) as Hd.
    destruct (digits t int 0) as [[a b] r].
    destruct (b =? 0); [discriminate|]. injection E3 as _ _ <-. simpl in *. lia. }
  destruct (exponentPart s3) as [[x s4]|] eqn:E4; [|discriminate].
  assert (H4 : (List.length s4 <= List.length s3)%nat).
  { unfold exponentPart in E4. destruct s3 as [|e t]; [injection E4 as _ <-; lia|].
    destruct ((e =? 101) || (e =? 69))%N; [|injection E4 as _ <-; lia].
    destruct (exponentSign t) as [neg t'] eqn:Es.
    assert (Ht : (List.length t' <= List.length t)%nat).
    { unfold exponentSign in Es. destruct t as [|c t0]; [injection Es as _ <-; lia|].
      destruct (c =? 45)%N; [injection Es as _ <-; simpl; lia|].
      destruct (c =? 43)%N; injection Es as _ <-; simpl; lia. }
    pose proof (digits_length t' 0 0) as Hd.
    destruct (digits t' 0 0) as [[a b] r].
    destruct (b =? 0); [discriminate|]. injection E4 as _ <-. simpl in *. lia. }
  injection H as _ <-. lia.
Qed.

(** The three functions of the parser, unfolded once. *)
Lemma parseValue_S (fuel : nat) (s : jsstring) :
  parseValue (S fuel) s
  = match skipSpace s with
    | [] => None
    | c :: rest =>
        if (c =? 123)%N then
          match skipSpace rest with
          | [] => None
          | c' :: r =>
              if (c' =? 125)%N then Some (JObj [], r)
              else parseMembers fuel (c' :: r) []
          end
        else if (c =? 91)%N then
          match skipSpace rest with
          | [] => None
          | c' :: r =>
              if (c' =? 93)%N then Some (JArr [], r)
              else parseElements fuel (c' :: r) []
          end
        else if (c =? 34)%N then
          match stringBody rest [] with
          | Some (text, r) => Some (JStr text, r)
          | None => None
          end
        else if startsWith (c :: rest) lit_true then Some (JBool true, skipn 4 (c :: rest))
        else if startsWith (c :: rest) lit_false then Some (JBool false, skipn 5 (c :: rest))
        else if startsWith (c :: rest) lit_null then Some (JNull, skipn 4 (c :: rest))
        else parseNumber (c :: rest)
    end.
Proof. reflexivity. Qed.

Lemma parseElements_S (fuel : nat) (s : jsstring) (acc : list JSON) :
  parseElements (S fuel) s acc
  = match parseValue fuel s with
    | None => None
    | Some (v, r) =>
        match skipSpace r with
        | c :: r' =>
            if (c =? 44)%N then parseElements fuel r' (v :: acc)
            else if (c =? 93)%N then Some (JArr (rev (v :: acc)), r')
            else None
        | [] => None
        end
    end.
Proof. reflexivity. Qed.

Lemma parseMembers_S (fuel : nat) (s : jsstring) (acc : list (jsstring * JSON)) :
  parseMembers (S fuel) s acc
  = match skipSpace s with
    | [] => None
    | q :: s1 =>
        if (q =? 34)%N then
          match stringBody s1 [] with
          | None => None
          | Some (key, s2) =>
              match skipSpace s2 with
              | [] => None
              | colon :: s3 =>
                  if (colon =? 58)%N then
                    match parseValue fuel s3 with
                    | None => None
                    | Some (v, r) =>
                        match skipSpace r with
                        | c :: r' =>
                            if (c =? 44)%N then parseMembers fuel r' ((key, v) :: acc)
                            else if (c =? 125)%N
                                 then Some (JObj (rev ((key, v) :: acc)), r')
                                 else None
                        | [] => None
                        end
                    end
                  else None
              end
          end
        else None
    end.
Proof. reflexivity. Qed.

(** Whatever the parser reads, it reads at least one code unit of. *)
Lemma parse_consumes (fuel : nat) :
  (forall s v rest, parseValue fuel s = Some (v, rest) ->
                    (List.length rest < List.length s)%nat)
  /\ (forall s acc v rest, parseElements fuel s acc = Some (v, rest) ->
                           (List.length rest < List.length s)%nat)
  /\ (forall s acc v rest, parseMembers fuel s acc = Some (v, rest) ->
                           (List.length rest < List.length s)%nat).
Proof.
  induction fuel as [|fuel [IHv [IHe IHm]]].
  - repeat split; intros; discriminate.
  - split; [|split].
    + intros s v rest H. rewrite parseValue_S in H.
      pose proof (skipSpace_length s) as Hs.
      destruct (skipSpace s) as [|c r] eqn:Es; [discriminate|]. simpl in Hs.
      destruct (c =? 123)%N.
      { pose proof (skipSpace_length r) as Hr.
        destruct (skipSpace r) as [|c' r'] eqn:Er; [discriminate|]. simpl in Hr.
        destruct (c' =? 125)%N; [injection H as _ <-; lia|].
        apply IHm in H. simpl in H. lia. }
      destruct (c =? 91)%N.
      { pose proof (skipSpace_length r) as Hr.
        destruct (skipSpace r) as [|c' r'] eqn:Er; [discriminate|]. simpl in Hr.
        destruct (c' =? 93)%N; [injection H as _ <-; lia|].
        apply IHe in H. simpl in H. lia. }
      destruct (c =? 34)%N.
      { destruct (stringBody r []) as [[text r']|] eqn:Eb; [|discriminate].
        injection H as _ <-.
        apply (stringBody_consumes (List.length r)) in Eb; [lia|lia]. }
      destruct (startsWith (c :: r) lit_true).
      { injection H as _ <-. destruct r as [|? [|? [|? ?]]]; simpl in *; lia. }
      destruct (startsWith (c :: r) lit_false).
      { injection H as _ <-. destruct r as [|? [|? [|? [|? ?]]]]; simpl in *; lia. }
      destruct (startsWith (c :: r) lit_null).
      { injection H as _ <-. destruct r as [|? [|? [|? ?]]]; simpl in *; lia. }
      apply parseNumber_consumes in H. simpl in H. lia.
    + intros s acc v rest H. rewrite parseElements_S in H.
      destruct (parseValue fuel s) as [[v' r]|] eqn:Ev; [|discriminate].
      apply IHv in Ev. pose proof (skipSpace_length r) as Hr.
      destruct (skipSpace r) as [|c r'] eqn:Er; [discriminate|]. simpl in Hr.
      destruct (c =? 44)%N; [apply IHe in H; lia|].
      destruct (c =? 93)%N; [|discriminate]. injection H as _ <-. lia.
    + intros s acc v rest H. rewrite parseMembers_S in H.
      pose proof (skipSpace_length s) as Hs.
      destruct (skipSpace s) as [|q s1] eqn:Es; [discriminate|]. simpl in Hs.
      destruct (q =? 34)%N; [|discriminate].
      destruct (stringBody s1 []) as [[key s2]|] eqn:Eb; [|discriminate].
      apply (stringBody_consumes (List.length s1)) in Eb; [|lia].
      pose proof (skipSpace_length s2) as H2.
      destruct (skipSpace s2) as [|q' s3] eqn:E2; [discriminate|]. simpl in H2.
      destruct (q' =? 58)%N; [|discriminate].
      destruct (parseValue fuel s3) as [[v' r]|] eqn:Ev; [|discriminate].
      apply IHv in Ev. pose proof (skipSpace_length r) as Hr.
      destruct (skipSpace r) as [|c r'] eqn:Er; [discriminate|]. simpl in Hr.
      destruct (c =? 44)%N; [apply IHm in H; lia|].
      destruct (c =? 125)%N; [|discriminate]. injection H as _ <-. lia.
Qed.

(** From twice the length of the text on, one more unit of fuel changes
    nothing. *)
Lemma parse_stable (fuel : nat) :
  (forall s, (2 * List.length s + 1 <= fuel)%nat ->
             parseValue (S fuel) s = parseValue fuel s)
  /\ (forall s acc, (2 * List.length s + 2 <= fuel)%nat ->
                    parseElements (S fuel) s acc = parseElements fuel s acc)
  /\ (forall s acc, (2 * List.length s + 2 <= fuel)%nat ->
                    parseMembers (S fuel) s acc = parseMembers fuel s acc).
Proof.
  induction fuel as [|fuel [IHv [IHe IHm]]].
  - repeat split; intros; lia.
  - split; [|split].
    + intros s Hf. rewrite (parseValue_S (S fuel)), (parseValue_S fuel).
      pose proof (skipSpace_length s) as Hs.
      destruct (skipSpace s) as [|c r]; [reflexivity|]. simpl in Hs.
      destruct (c =? 123)%N.
      { pose proof (skipSpace_length r) as Hr.
        destruct (skipSpace r) as [|c' r']; [reflexivity|]. simpl in Hr.
        destruct (c' =? 125)%N; [reflexivity|]. apply IHm. simpl. lia. }
      destruct (c =? 91)%N; [|reflexivity].
      pose proof (skipSpace_length r) as Hr.
      destruct (skipSpace r) as [|c' r']; [reflexivity|]. simpl in Hr.
      destruct (c' =? 93)%N; [reflexivity|]. apply IHe. simpl. lia.
    + intros s acc Hf. rewrite (parseElements_S (S fuel)), (parseElements_S fuel).
      rewrite IHv by lia.
      destruct (parseValue fuel s) as [[v r]|] eqn:Ev; [|reflexivity].
      apply (proj1 (parse_consumes fuel)) in Ev.
      pose proof (skipSpace_length r) as Hr.
      destruct (skipSpace r) as [|c r']; [reflexivity|]. simpl in Hr.
      destruct (c =? 44)%N; [|reflexivity]. apply IHe. lia.
    + intros s acc Hf. rewrite (parseMembers_S (S fuel)), (parseMembers_S fuel).
      pose proof (skipSpace_length s) as Hs.
      destruct (skipSpace s) as [|q s1]; [reflexivity|]. simpl in Hs.
      destruct (q =? 34)%N; [|reflexivity].
      destruct (stringBody s1 []) as [[key s2]|] eqn:Eb; [|reflexivity].
      apply (stringBody_consumes (List.length s1)) in Eb; [|lia].
      pose proof (skipSpace_length s2) as H2.
      destruct (skipSpace s2) as [|colon s3]; [reflexivity|]. simpl in H2.
      destruct (colon =? 58)%N; [|reflexivity].
      rewrite IHv by lia.
      destruct (parseValue fuel s3) as [[v r]|] eqn:Ev; [|reflexivity].
      apply (proj1 (parse_consumes fuel)) in Ev.
      pose proof (skipSpace_length r) as Hr.
      destruct (skipSpace r) as [|c r']; [reflexivity|]. simpl in Hr.
      destruct (c =? 44)%N; [|reflexivity]. apply IHm. lia.
Qed.

(** The fuel of [JSON_parse] is enough: more of it gives the same answer,
    so that [None] is a syntax error and never a lack of fuel. *)
Lemma JSON_parse_fuel (text : jsstring) (extra : nat) :
  parseValue (2 * List.length text + 2 + extra) text
  = parseValue (2 * List.length text + 2) text.
Proof.
  induction extra as [|extra IH]; [rewrite Nat.add_0_r; reflexivity|].
  rewrite Nat.add_succ_r. rewrite (proj1 (parse_stable _)) by lia. exact IH.
Qed.

Example JSON_parse_event :
  JSON_parse (txt "{'type':'chunk','content':'Hola, mundo','isLast':false}") = Some event1.
Proof. vm_compute. reflexivity. Qed.

Example JSON_parse_values :
  JSON_parse (txt " [1, -2.50e3, 0.7, null, true, {'a': 'b\n\u00e1'}] ")
  = Some (JArr [JNum 1 0; JNum (-250) 1; JNum 7 (-1); JNull; JBool true;
                JObj [(str "a", JStr (str "b" ++ [10%N; 225%N]))]]).
Proof. vm_compute. reflexivity. Qed.

Example JSON_parse_rejects :
  JSON_parse (txt "{'type':'chunk','content':'Hola, ") = None
  /\ JSON_parse (str "[1,]") = None
  /\ JSON_parse (str "01") = None
  /\ JSON_parse [] = None
  /\ JSON_parse (txt "{'a':1} x") = None.
Proof. repeat split; vm_compute; reflexivity. Qed.

(** ** The chunker *)

Example chunkText_small :
  chunkText (str "Hola. Que tal? Muy bien, gracias!") 10
  = [str "Hola."; str "Que tal?"; str "Muy bien,"; str "gracias!"].
Proof. vm_compute. reflexivity. Qed.


(** Each iteration moves the scan position forward, by at most one more
    than the chunk size. *)
Lemma cutIndex_bounds (text : jsstring) (chunkSize currentIndex : Z) :
  1 <= chunkSize -> 0 <= currentIndex ->
  currentIndex < cutIndex text chunkSize currentIndex <= currentIndex + chunkSize + 1.
Proof.
  intros Hn Hc. unfold cutIndex.
  destruct (currentIndex + chunkSize <? length text); [|lia].
  pose proof (lastIndexOf_le text dot (currentIndex + chunkSize)).
  pose proof (lastIndexOf_le text question (currentIndex + chunkSize)).
  pose proof (lastIndexOf_le text exclamation (currentIndex + chunkSize)).
  pose proof (lastIndexOf_le text space (currentIndex + chunkSize)).
  destruct (Z.gtb_spec (Z.max (Z.max (lastIndexOf text dot (currentIndex + chunkSize))
                                     (lastIndexOf text question (currentIndex + chunkSize)))
                              (lastIndexOf text exclamation (currentIndex + chunkSize)))
                       currentIndex); [lia|].
  destruct (Z.gtb_spec (lastIndexOf text space (currentIndex + chunkSize)) currentIndex); lia.
Qed.

(** A window that reaches the end of the text is not cut short. *)
Lemma cutIndex_at_end (text : jsstring) (chunkSize currentIndex : Z) :
  length text <= currentIndex + chunkSize ->
  cutIndex text chunkSize currentIndex = currentIndex + chunkSize.
Proof.
  intros H. unfold cutIndex.
  replace (currentIndex + chunkSize <? length text) with false
    by (symmetry; apply Z.ltb_ge; lia).
  reflexivity.
Qed.

Lemma chunkLoop_acc (fuel : nat) (text : jsstring) (chunkSize : Z) :
  forall currentIndex chunks,
    chunkLoop fuel text chunkSize currentIndex chunks
    = option_map (app chunks) (chunkLoop fuel text chunkSize currentIndex []).
Proof.
  induction fuel as [|fuel IH]; intros cur chunks; simpl.
  - destruct (cur <? length text); simpl; [reflexivity|].
    rewrite app_nil_r. reflexivity.
  - destruct (cur <? length text); simpl; [|rewrite app_nil_r; reflexivity].
    rewrite (IH _ (chunks ++ _)). rewrite (IH _ [_]).
    destruct (chunkLoop fuel text chunkSize _ []); simpl; [|reflexivity].
    rewrite <- app_assoc. reflexivity.
Qed.

(** One iteration of the loop. *)
Lemma chunkLoop_step (fuel : nat) (text : jsstring) (chunkSize currentIndex : Z) :
  currentIndex < length text ->
  chunkLoop (S fuel) text chunkSize currentIndex []
  = option_map
      (cons (trim (slice text currentIndex (cutIndex text chunkSize currentIndex))))
      (chunkLoop fuel text chunkSize (cutIndex text chunkSize currentIndex) []).
Proof.
  intros H. simpl.
  replace (currentIndex <? length text) with true by (symmetry; apply Z.ltb_lt; lia).
  rewrite chunkLoop_acc. reflexivity.
Qed.

Lemma chunkLoop_stop (fuel : nat) (text : jsstring) (chunkSize currentIndex : Z) :
  length text <= currentIndex ->
  chunkLoop fuel text chunkSize currentIndex [] = Some [].
Proof.
  intros H. destruct fuel; simpl;
    replace (currentIndex <? length text) with false
      by (symmetry; apply Z.ltb_ge; lia); reflexivity.
Qed.

(** The loop ends within as many iterations as code units remain. *)
Lemma chunkLoop_terminates (text : jsstring) (chunkSize : Z) :
  1 <= chunkSize ->
  forall fuel currentIndex,
    0 <= currentIndex -> length text - currentIndex <= Z.of_nat fuel ->
    exists chunks, chunkLoop fuel text chunkSize currentIndex [] = Some chunks.
Proof.
  intros Hn. induction fuel as [|fuel IH]; intros cur Hc Hf.
  - exists []. apply chunkLoop_stop. lia.
  - destruct (Z_lt_le_dec cur (length text)) as [Hlt|Hge].
    + rewrite chunkLoop_step by exact Hlt.
      pose proof (cutIndex_bounds text chunkSize cur Hn Hc).
      destruct (IH (cutIndex text chunkSize cur)) as [r Hr]; [lia|lia|].
      rewrite Hr. simpl. eexists. reflexivity.
    + exists []. apply chunkLoop_stop. exact Hge.
Qed.

(** More fuel does not change an answer. *)
Lemma chunkLoop_more_fuel (text : jsstring) (chunkSize : Z) :
  forall fuel fuel' currentIndex chunks result,
    (fuel <= fuel')%nat ->
    chunkLoop fuel text chunkSize currentIndex chunks = Some result ->
    chunkLoop fuel' text chunkSize currentIndex chunks = Some result.
Proof.
  induction fuel as [|fuel IH]; intros fuel' cur chunks result Hle H.
  - simpl in H. destruct (cur <? length text) eqn:Hc; [discriminate|].
    destruct fuel'; simpl; rewrite Hc; exact H.
  - destruct fuel' as [|fuel']; [lia|].
    simpl in *. destruct (cur <? length text); [|exact H].
    apply IH; [lia|exact H].
Qed.

Lemma chunkLoop_pushed (text : jsstring) (chunkSize : Z) :
  1 <= chunkSize ->
  forall fuel currentIndex chunks,
    0 <= currentIndex ->
    chunkLoop fuel text chunkSize currentIndex [] = Some chunks ->
    Forall (pushed text chunkSize) chunks.
Proof.
  intros Hn. induction fuel as [|fuel IH]; intros cur chunks Hc H.
  - simpl in H. destruct (cur <? length text); [discriminate|].
    injection H as <-. constructor.
  - destruct (Z_lt_le_dec cur (length text)) as [Hlt|Hge].
    + rewrite chunkLoop_step in H by exact Hlt.
      pose proof (cutIndex_bounds text chunkSize cur Hn Hc).
      destruct (chunkLoop fuel text chunkSize (cutIndex text chunkSize cur) []) as [r|] eqn:Hr;
        [|discriminate].
      simpl in H. injection H as <-. constructor.
      * exists cur, (cutIndex text chunkSize cur). repeat split; lia.
      * apply (IH (cutIndex text chunkSize cur)); [lia|exact Hr].
    + rewrite chunkLoop_stop in H by exact Hge. injection H as <-. constructor.
Qed.

(** The pushed segments cover the text: a code unit outside white space at
    or after the scan position ends up in a segment that is not empty. *)
Lemma chunkLoop_covers (text : jsstring) (chunkSize : Z) :
  1 <= chunkSize ->
  forall fuel currentIndex chunks p c,
    0 <= currentIndex ->
    chunkLoop fuel text chunkSize currentIndex [] = Some chunks ->
    currentIndex <= p -> nth_error text (Z.to_nat p) = Some c ->
    isWhiteSpace c = false ->
    exists segment, In segment chunks /\ In c segment.
Proof.
  intros Hn. induction fuel as [|fuel IH]; intros cur chunks p c Hc H Hp Hnth Hws.
  - assert (Hlen : p < length text).
    { assert (Z.to_nat p < List.length text)%nat
        by (apply nth_error_Some; congruence).
      unfold length. lia. }
    simpl in H. replace (cur <? length text) with true in H
      by (symmetry; apply Z.ltb_lt; lia).
    discriminate.
  - assert (Hlen : p < length text).
    { assert (Z.to_nat p < List.length text)%nat
        by (apply nth_error_Some; congruence).
      unfold length. lia. }
    rewrite chunkLoop_step in H by lia.
    pose proof (cutIndex_bounds text chunkSize cur Hn Hc) as Hb.
    destruct (chunkLoop fuel text chunkSize (cutIndex text chunkSize cur) []) as [r|] eqn:Hr;
      [|discriminate].
    simpl in H. injection H as <-.
    destruct (Z_lt_le_dec p (cutIndex text chunkSize cur)) as [Hin|Hout].
    + exists (trim (slice text cur (cutIndex text chunkSize cur))).
      split; [left; reflexivity|].
      apply trim_keeps; [|exact Hws].
      apply (nth_error_In _ (Z.to_nat (p - cur))).
      rewrite slice_nth by lia. exact Hnth.
    + destruct (IH (cutIndex text chunkSize cur) r p c) as [seg [H1 H2]];
        try assumption; try lia.
      exists seg. split; [right; exact H1|exact H2].
Qed.

Lemma nonEmpty_true (s : jsstring) : nonEmpty s = true <-> s <> [].
Proof.
  unfold nonEmpty, length. destruct s as [|c s]; simpl.
  - split; [discriminate|congruence].
  - split; [discriminate|reflexivity].
Qed.

(** [chunkText] is the answer of [chunkText_fuel] for any fuel from
    [text.length] on. *)
Lemma chunkText_fuel_enough (text : jsstring) (chunkSize : Z) (fuel : nat) :
  1 <= chunkSize -> (List.length text <= fuel)%nat ->
  chunkText_fuel fuel text chunkSize = Some (chunkText text chunkSize).
Proof.
  intros Hn Hf. unfold chunkText, chunkText_fuel.
  destruct (chunkLoop_terminates text chunkSize Hn (List.length text) 0) as [r Hr];
    [lia|unfold length; lia|].
  rewrite Hr. rewrite (chunkLoop_more_fuel _ _ _ _ _ _ _ Hf Hr). reflexivity.
Qed.

(** The list [chunkText] returns, in terms of the loop. *)
Lemma chunkText_loop (text : jsstring) (chunkSize : Z) :
  1 <= chunkSize ->
  exists chunks,
    chunkLoop (List.length text) text chunkSize 0 [] = Some chunks
    /\ chunkText text chunkSize = filter nonEmpty chunks.
Proof.
  intros Hn.
  destruct (chunkLoop_terminates text chunkSize Hn (List.length text) 0) as [r Hr];
    [lia|unfold length; lia|].
  exists r. split; [exact Hr|]. unfold chunkText, chunkText_fuel. rewrite Hr. reflexivity.
Qed.

Lemma firstn_snoc (s : jsstring) :
  forall n c, nth_error s n = Some c -> firstn (S n) s = firstn n s ++ [c].
Proof.
  induction s as [|x s IH]; intros n c H.
  - destruct n; discriminate.
  - destruct n as [|n].
    + simpl in H. injection H as ->. reflexivity.
    + simpl in H. change (firstn (S (S n)) (x :: s)) with (x :: firstn (S n) s).
      rewrite (IH n c H). reflexivity.
Qed.

(** The slice up to and including an index is the slice up to it and the
    code unit there. *)
Lemma slice_snoc (s : jsstring) (p : Z) (c : N) :
  0 <= p -> nth_error s (Z.to_nat p) = Some c ->
  slice s 0 (p + 1) = slice s 0 p ++ [c].
Proof.
  intros Hp Hn.
  assert (Hlen : p < length s).
  { assert (Z.to_nat p < List.length s)%nat by (apply nth_error_Some; congruence).
    unfold length. lia. }
  rewrite !slice_nonneg by lia. pose proof (JS_length_nonneg s).
  rewrite (Z.min_l 0) by lia. rewrite !Z.min_l by lia. simpl. rewrite !Nat.sub_0_r.
  replace (Z.to_nat (p + 1)) with (S (Z.to_nat p)) by lia.
  apply firstn_snoc. exact Hn.
Qed.

Lemma terminator_not_space (c : N) : isTerminator c -> isWhiteSpace c = false.
Proof. intros [-> | [-> | ->]]; reflexivity. Qed.

(** The first cut of a text that is longer than the window lies right
    after the last sentence terminator of the window, when there is one
    after the first code unit. *)
Lemma cutIndex_terminator (text : jsstring) (chunkSize p : Z) (c : N) :
  chunkSize < length text -> 0 < p <= chunkSize ->
  nth_error text (Z.to_nat p) = Some c -> isTerminator c ->
  (forall q d, p < q <= chunkSize -> nth_error text (Z.to_nat q) = Some d ->
               ~ isTerminator d) ->
  cutIndex text chunkSize 0 = p + 1.
Proof.
  intros Hlen Hp Hc Ht Hlast. unfold cutIndex. simpl.
  replace (chunkSize <? length text) with true by (symmetry; apply Z.ltb_lt; lia).
  assert (Hle : forall d, isTerminator d -> lastIndexOf text d chunkSize <= p).
  { intros d Hd. destruct (lastIndexOf_sound text d chunkSize) as [H|[H1 H2]]; [lia|].
    destruct (Z_le_gt_dec (lastIndexOf text d chunkSize) p) as [Hok|Hgt]; [exact Hok|].
    exfalso. apply (Hlast (lastIndexOf text d chunkSize) d); [lia|exact H2|exact Hd]. }
  pose proof (Hle dot (or_introl eq_refl)) as Hd.
  pose proof (Hle question (or_intror (or_introl eq_refl))) as Hq.
  pose proof (Hle exclamation (or_intror (or_intror eq_refl))) as He.
  assert (Hge : p <= lastIndexOf text c chunkSize)
    by (apply lastIndexOf_complete; [lia|exact Hc]).
  assert (Hmax : Z.max (Z.max (lastIndexOf text dot chunkSize)
                              (lastIndexOf text question chunkSize))
                       (lastIndexOf text exclamation chunkSize) = p).
  { destruct Ht as [-> | [-> | ->]]; lia. }
  rewrite Hmax.
  replace (p >? 0) with true by (symmetry; apply Z.gtb_lt; lia).
  reflexivity.
Qed.

(** No first cut of a text that is longer than the window lies more than
    one code unit past the window. *)
Lemma cutIndex_first_le (text : jsstring) (chunkSize : Z) :
  1 <= chunkSize -> cutIndex text chunkSize 0 <= chunkSize + 1.
Proof.
  intros Hn. pose proof (cutIndex_bounds text chunkSize 0 Hn). lia.
Qed.

(** The first segment, when the first slice has a code unit outside white
    space. *)
Lemma chunkText_first (text : jsstring) (chunkSize : Z) (c : N) :
  1 <= chunkSize -> 0 < length text ->
  In c (slice text 0 (cutIndex text chunkSize 0)) -> isWhiteSpace c = false ->
  hd_error (chunkText text chunkSize)
  = Some (trim (slice text 0 (cutIndex text chunkSize 0))).
Proof.
  intros Hn Hlen Hin Hws.
  destruct (chunkText_loop text chunkSize Hn) as [chunks [Hloop Htext]].
  rewrite Htext.
  destruct (List.length text) as [|fuel] eqn:Hl; [unfold length in Hlen; lia|].
  rewrite chunkLoop_step in Hloop by exact Hlen.
  destruct (chunkLoop fuel text chunkSize (cutIndex text chunkSize 0) []) as [r|];
    [|discriminate].
  simpl in Hloop. injection Hloop as <-. simpl.
  replace (nonEmpty (trim (slice text 0 (cutIndex text chunkSize 0)))) with true.
  - reflexivity.
  - symmetry. apply nonEmpty_true. intros He.
    pose proof (trim_keeps _ _ Hin Hws) as Hc. rewrite He in Hc. exact Hc.
Qed.

(** ** Claims about the chunker *)

(** C9.  For every text and every chunk size of at least 1, the scan
    position grows in every iteration of the loop of [chunkText], and the
    function returns: from [text.length] units of fuel on, the loop ends and
    gives the list of segments, the same whatever the fuel. *)
Theorem chunkText_terminates (text : jsstring) (chunkSize : Z) :
  1 <= chunkSize ->
  (forall currentIndex,
      0 <= currentIndex -> currentIndex < cutIndex text chunkSize currentIndex)
  /\ exists segments,
       chunkText text chunkSize = segments
       /\ forall fuel, (List.length text <= fuel)%nat ->
                       chunkText_fuel fuel text chunkSize = Some segments.
Proof.
  intros Hn. split.
  - intros cur Hc. apply cutIndex_bounds; assumption.
  - exists (chunkText text chunkSize). split; [reflexivity|].
    intros fuel Hf. apply chunkText_fuel_enough; assumption.
Qed.

Lemma chunkText_terminates_witness :
  1 <= 5
  /\ chunkText_fuel 14 (str "Hola. Que tal?") 5 = Some [str "Hola."; str "Que"; str "tal?"].
Proof.
  split; [lia|].
  destruct (chunkText_terminates (str "Hola. Que tal?") 5 ltac:(lia)) as [_ [segs [H1 H2]]].
  rewrite (H2 14%nat (Nat.le_refl _)). rewrite <- H1. vm_compute. reflexivity.
Defined.

(** With a chunk size of 0 the scan position never moves, and the loop
    does not end on a text that is not empty. *)
Remark chunkText_zero_diverges (text : jsstring) (fuel : nat) :
  text <> [] -> chunkText_fuel fuel text 0 = None.
Proof.
  intros Hne. unfold chunkText_fuel.
  assert (Hcut : cutIndex text 0 0 = 0).
  { unfold cutIndex. simpl. destruct (0 <? length text); [|reflexivity].
    pose proof (lastIndexOf_le text dot 0). pose proof (lastIndexOf_le text question 0).
    pose proof (lastIndexOf_le text exclamation 0). pose proof (lastIndexOf_le text space 0).
    rewrite !Z.gtb_ltb.
    replace (0 <? Z.max _ _) with false by (symmetry; apply Z.ltb_ge; lia).
    replace (0 <? lastIndexOf text space 0) with false by (symmetry; apply Z.ltb_ge; lia).
    reflexivity. }
  assert (Hlen : (0 <? length text) = true).
  { apply Z.ltb_lt. unfold length. destruct text; [congruence|simpl; lia]. }
  assert (H : forall chunks, chunkLoop fuel text 0 0 chunks = None).
  { induction fuel as [|fuel IH]; intros chunks; simpl; rewrite Hlen; [reflexivity|].
    rewrite Hcut. apply IH. }
  rewrite H. reflexivity.
Qed.

(** What every returned segment is. *)
Lemma chunkText_segment_lemma :
  (forall text chunkSize segment,
      1 <= chunkSize -> In segment (chunkText text chunkSize) ->
      trim segment = segment)
  /\ (forall text chunkSize segment,
         1 <= chunkSize -> In segment (chunkText text chunkSize) ->
         pushed text chunkSize segment).
Proof.
  assert (H : forall text chunkSize segment,
             1 <= chunkSize -> In segment (chunkText text chunkSize) ->
             pushed text chunkSize segment).
  { intros text chunkSize segment Hn Hin.
    destruct (chunkText_loop text chunkSize Hn) as [chunks [Hloop Htext]].
    rewrite Htext in Hin. apply filter_In in Hin. destruct Hin as [Hin _].
    pose proof (chunkLoop_pushed text chunkSize Hn _ 0 chunks ltac:(lia) Hloop) as Hall.
    rewrite Forall_forall in Hall. exact (Hall _ Hin). }
  split; [|exact H].
  intros text chunkSize segment Hn Hin.
  destruct (H _ _ _ Hn Hin) as [a [b [_ [_ ->]]]]. apply trim_idem.
Qed.

(** C10.  For every text and every chunk size of at least 1, each segment
    [chunkText] returns is the trim of a slice [text.slice(a, b)] with
    [b <= a + chunkSize + 1], hence a contiguous part of the text, free of
    white space at both ends, of at most [chunkSize + 1] code units; and a
    segment of [chunkSize + 1] code units does occur. *)
Theorem chunkText_segment_bound :
  (forall text chunkSize segment,
      1 <= chunkSize -> In segment (chunkText text chunkSize) ->
      pushed text chunkSize segment
      /\ substringOf segment text
      /\ trim segment = segment
      /\ length segment <= chunkSize + 1)
  /\ (exists text chunkSize segment,
         1 <= chunkSize /\ In segment (chunkText text chunkSize)
         /\ length segment = chunkSize + 1).
Proof.
  split.
  - intros text chunkSize segment Hn Hin.
    pose proof (proj2 chunkText_segment_lemma _ _ _ Hn Hin) as Hp.
    split; [exact Hp|].
    destruct Hp as [a [b [Hab [Hb ->]]]].
    split; [|split].
    + apply (substringOf_trans _ (slice text a b)); [apply trim_substringOf|apply slice_substringOf].
    + apply trim_idem.
    + pose proof (trim_length (slice text a b)).
      pose proof (slice_length text a b ltac:(lia)). lia.
  - exists (str "ab.cd"), 2, (str "ab."). split; [lia|]. split.
    + vm_compute. left. reflexivity.
    + reflexivity.
Qed.

Lemma chunkText_segment_bound_witness :
  1 <= 10 /\ In (str "Que tal?") (chunkText (str "Hola. Que tal? Muy bien, gracias!") 10)
  /\ length (str "Que tal?") <= 10 + 1.
Proof.
  assert (Hin : In (str "Que tal?") (chunkText (str "Hola. Que tal? Muy bien, gracias!") 10))
    by (vm_compute; right; left; reflexivity).
  split; [lia|]. split; [exact Hin|].
  apply (proj1 chunkText_segment_bound _ 10 _ ltac:(lia) Hin).
Defined.

(** C3, as stated, fails: with a sentence terminator at offset 712 and a
    chunk size of 700 the first segment is the window [0, 700) and not the
    713 code units up to and including the terminator. *)
Lemma chunkText_boundary_712_counterexample :
  nth_error late_terminator 712 = Some dot
  /\ hd_error (chunkText late_terminator 700) = Some (slice late_terminator 0 700)
  /\ hd_error (chunkText late_terminator 700) <> Some (slice late_terminator 0 713)
  /\ cutIndex late_terminator 700 0 = 700.
Proof.
  split; [reflexivity|].
  assert (H : hd_error (chunkText late_terminator 700) = Some (slice late_terminator 0 700))
    by (vm_compute; reflexivity).
  split; [exact H|]. split; [|vm_compute; reflexivity].
  rewrite H. intros E. injection E as E.
  apply (f_equal (@List.length N)) in E. vm_compute in E. discriminate.
Qed.

(** C3, amended.  The search for a sentence terminator runs backward from
    offset 700.  When the text is longer than 700 code units and its last
    terminator at or before offset 700 is at offset [p > 0], the first
    segment ends at offset [p], terminator included: it is the text up to
    [p] without its leading white space.  For no text does the first cut lie
    after offset 701: a terminator at offset 712 is not seen from the first
    window. *)
Theorem chunkText_boundary (text : jsstring) (p : Z) (c : N) :
  700 < length text -> 0 < p <= 700 ->
  nth_error text (Z.to_nat p) = Some c -> isTerminator c ->
  (forall q d, p < q <= 700 -> nth_error text (Z.to_nat q) = Some d ->
               ~ isTerminator d) ->
  cutIndex text 700 0 = p + 1
  /\ hd_error (chunkText text 700) = Some (trimStart (slice text 0 p) ++ [c])
  /\ forall other, cutIndex other 700 0 <= 701.
Proof.
  intros Hlen Hp Hc Ht Hlast.
  pose proof (cutIndex_terminator text 700 p c Hlen Hp Hc Ht Hlast) as Hcut.
  split; [exact Hcut|]. split; [|intros other; apply (cutIndex_first_le other 700); lia].
  pose proof (terminator_not_space c Ht) as Hws.
  rewrite <- (trim_snoc _ _ Hws). rewrite <- (slice_snoc text p c ltac:(lia) Hc).
  rewrite <- Hcut. apply (chunkText_first text 700 c); [lia|lia| |exact Hws].
  rewrite Hcut. rewrite (slice_snoc text p c ltac:(lia) Hc).
  apply in_or_app. right. left. reflexivity.
Qed.

Lemma chunkText_boundary_witness :
  hd_error (chunkText early_terminator 700) = Some (repeat 97%N 688 ++ [question]).
Proof.
  assert (Hlast : forall q d, 688 < q <= 700 ->
                    nth_error early_terminator (Z.to_nat q) = Some d -> ~ isTerminator d).
  { intros q d Hq Hn.
    assert (Hd : d = 98%N).
    { unfold early_terminator in Hn.
      rewrite nth_error_app2 in Hn by (rewrite repeat_length; lia).
      rewrite repeat_length in Hn.
      rewrite nth_error_app2 in Hn by (simpl; lia).
      apply nth_error_In, repeat_spec in Hn. exact Hn. }
    subst d. intros [H|[H|H]]; discriminate. }
  destruct (chunkText_boundary early_terminator 688 question
              ltac:(vm_compute; reflexivity) ltac:(lia) ltac:(vm_compute; reflexivity)
              (or_intror (or_introl eq_refl)) Hlast) as [_ [H _]].
  rewrite H. vm_compute. reflexivity.
Defined.

(** C8, as stated, fails: a text of one space is not empty, and no segment
    is returned for it; and with a chunk size of 0 nothing is returned at
    all, since the loop does not end. *)
Lemma chunkText_blank_counterexample :
  [space] <> [] /\ chunkText [space] 700 = []
  /\ forall fuel, chunkText_fuel fuel (str "a") 0 = None.
Proof.
  split; [discriminate|]. split; [vm_compute; reflexivity|].
  intros fuel. apply chunkText_zero_diverges. discriminate.
Qed.

(** A text with a code unit outside white space gives at least one
    segment. *)
Lemma chunkText_nonempty (text : jsstring) (chunkSize : Z) (c : N) :
  1 <= chunkSize -> In c text -> isWhiteSpace c = false ->
  chunkText text chunkSize <> [].
Proof.
  intros Hn Hin Hws.
  destruct (chunkText_loop text chunkSize Hn) as [chunks [Hloop Htext]].
  apply In_nth_error in Hin. destruct Hin as [k Hk].
  destruct (chunkLoop_covers text chunkSize Hn _ 0 chunks (Z.of_nat k) c
              ltac:(lia) Hloop ltac:(lia)) as [seg [H1 H2]].
  - rewrite Nat2Z.id. exact Hk.
  - exact Hws.
  - rewrite Htext. intros He.
    assert (Hf : In seg (filter nonEmpty chunks)).
    { apply filter_In. split; [exact H1|]. apply nonEmpty_true.
      intros ->. exact H2. }
    rewrite He in Hf. exact Hf.
Qed.

(** A text that fits the window is one segment. *)
Lemma chunkText_short (text : jsstring) (chunkSize : Z) :
  1 <= chunkSize -> 0 < length text <= chunkSize ->
  chunkText text chunkSize = filter nonEmpty [trim text].
Proof.
  intros Hn Hlen.
  destruct (chunkText_loop text chunkSize Hn) as [chunks [Hloop Htext]].
  rewrite Htext. f_equal.
  destruct (List.length text) as [|fuel] eqn:Hl; [unfold length in Hlen; lia|].
  rewrite chunkLoop_step in Hloop by lia.
  rewrite cutIndex_at_end in Hloop by lia.
  rewrite chunkLoop_stop in Hloop by lia.
  simpl in Hloop. rewrite slice_all in Hloop by lia.
  injection Hloop as <-. reflexivity.
Qed.

(** ** The route *)

Lemma framed_snoc (segments : list jsstring) (last : jsstring) (sources usage : option JSON) :
  framed (segments ++ [last]) sources usage
  = map (fun segment => Chunk segment false None None) segments
    ++ [Chunk last true sources usage].
Proof.
  induction segments as [|x segments IH]; [reflexivity|].
  simpl. destruct (segments ++ [last]) eqn:He.
  - destruct segments; discriminate.
  - rewrite <- IH. reflexivity.
Qed.

Lemma framed_isChunk (segments : list jsstring) (sources usage : option JSON) :
  Forall isChunk (framed segments sources usage).
Proof.
  induction segments as [|x [|y rest] IH]; simpl.
  - constructor.
  - constructor; [exact I|constructor].
  - constructor; [exact I|exact IH].
Qed.

(** A chunk event that is not the last one is flagged so and carries
    neither [sources] nor [usage]. *)
Lemma framed_inner (segments : list jsstring) (sources usage : option JSON) :
  forall before ev after,
    framed segments sources usage = before ++ ev :: after -> after <> [] ->
    exists segment, ev = Chunk segment false None None.
Proof.
  induction segments as [|x [|y rest] IH]; intros before ev after H Hne.
  - destruct before; discriminate.
  - destruct before as [|b [|b' before]]; simpl in H.
    + injection H as _ <-. congruence.
    + destruct after; discriminate.
    + discriminate.
  - destruct before as [|b before].
    + simpl in H. injection H as <- _. exists x. reflexivity.
    + change (framed (x :: y :: rest) sources usage)
        with (Chunk x false None None :: framed (y :: rest) sources usage) in H.
      injection H as _ H. exact (IH _ _ _ H Hne).
Qed.

(** The last chunk event is flagged as the last. *)
Lemma framed_final (segments : list jsstring) (sources usage : option JSON) :
  forall before content isLast s u,
    framed segments sources usage = before ++ [Chunk content isLast s u] ->
    isLast = true.
Proof.
  induction segments as [|x [|y rest] IH]; intros before content isLast s u H.
  - destruct before; discriminate.
  - destruct before as [|b [|b' before]]; simpl in H.
    + injection H as _ <- _ _. reflexivity.
    + discriminate.
    + discriminate.
  - destruct before as [|b before].
    + simpl in H. destruct rest; discriminate.
    + change (framed (x :: y :: rest) sources usage)
        with (Chunk x false None None :: framed (y :: rest) sources usage) in H.
      injection H as _ H. exact (IH _ _ _ _ _ H).
Qed.

(** The [for] loops enqueue the framed segments and do not throw. *)
Lemma sendChunks_framed (chunks : list jsstring) (sources usage : option JSON)
    (out : list StreamEvent) :
  sendChunks chunks sources usage out = (inr tt, out ++ framed chunks sources usage).
Proof.
  unfold sendChunks.
  assert (H : forall rest done out,
             chunks = done ++ rest ->
             forEachFrom (List.length done) rest
               (fun i chunk => enqueue (eventData chunks sources usage i chunk)) out
             = (inr tt, out ++ framed rest sources usage)).
  { induction rest as [|x rest IH]; intros done out0 Hc.
    - simpl. unfold ret. rewrite app_nil_r. reflexivity.
    - simpl forEachFrom. unfold bind at 1. unfold enqueue at 1.
      specialize (IH (done ++ [x]) (out0 ++ [eventData chunks sources usage (List.length done) x])).
      rewrite List.length_app in IH. simpl in IH. rewrite Nat.add_1_r in IH.
      rewrite IH by (rewrite <- app_assoc; exact Hc).
      rewrite <- app_assoc. f_equal. f_equal. simpl.
      unfold eventData. rewrite Hc. rewrite List.length_app. simpl.
      destruct rest as [|y rest]; simpl List.length.
      + rewrite (proj2 (Nat.eqb_eq _ _)) by lia. reflexivity.
      + rewrite (proj2 (Nat.eqb_neq _ _)) by lia. reflexivity. }
  apply (H chunks [] out). reflexivity.
Qed.

Lemma tryBlock_rejected (rt : Runtime) (chatInput webhookUrl message : jsstring) :
  tryBlock rt chatInput webhookUrl (FetchRejected message) []
  = (inl (Thrown message), [Connected]).
Proof. reflexivity. Qed.

Lemma tryBlock_failed (rt : Runtime) (chatInput webhookUrl : jsstring) (status : Z)
    (rawResponse : jsstring) :
  ok status = false ->
  tryBlock rt chatInput webhookUrl (FetchResponse status rawResponse) []
  = (inr tt,
     Connected :: framed (chunkText (mockOutput chatInput webhookUrl) 700)
                    (Some mockSources) (Some mockUsage) ++ [Done]).
Proof.
  intros H. unfold tryBlock, bind, enqueue, ret. cbv beta iota.
  rewrite H. change (negb false) with true. cbv beta iota. rewrite sendChunks_framed.
  rewrite <- app_assoc. reflexivity.
Qed.

Lemma tryBlock_invalid (rt : Runtime) (chatInput webhookUrl : jsstring) (status : Z)
    (rawResponse : jsstring) :
  ok status = true -> JSON_parse rawResponse = None ->
  tryBlock rt chatInput webhookUrl (FetchResponse status rawResponse) []
  = (inl (Thrown (invalidJson rawResponse)), [Connected]).
Proof.
  intros H Hp. unfold tryBlock, bind, enqueue, ret. cbv beta iota.
  rewrite H, Hp. change (negb true) with false. reflexivity.
Qed.

Lemma tryBlock_parsed (rt : Runtime) (chatInput webhookUrl : jsstring) (status : Z)
    (rawResponse : jsstring) (parsed : JSON) :
  ok status = true -> JSON_parse rawResponse = Some parsed ->
  tryBlock rt chatInput webhookUrl (FetchResponse status rawResponse) []
  = (n8nResponse <- validate rt parsed ;;
     chunks <- chunkOutput rt (prop n8nResponse key_output) ;;
     sendChunks chunks (whenTruthy (prop n8nResponse key_sources))
                (whenTruthy (prop n8nResponse key_usage)) ;;
     enqueue Done) [Connected].
Proof.
  intros H Hp. unfold tryBlock, bind, enqueue, ret. cbv beta iota.
  rewrite H, Hp. change (negb true) with false. reflexivity.
Qed.

(** [validate] and [chunkOutput] enqueue nothing. *)
Lemma validate_cases (rt : Runtime) (parsed : JSON) (out : list StreamEvent) :
  validate rt parsed out
  = match parsed with
    | JNull => (inl (Native NullProperty), out)
    | _ => (inr (if negb (truthyProp (prop parsed key_output))
                 then repaired rt parsed else parsed), out)
    end.
Proof.
  unfold validate.
  destruct parsed; try reflexivity; destruct (negb _); reflexivity.
Qed.

Lemma chunkOutput_out (rt : Runtime) (output : option JSON) (out : list StreamEvent) :
  snd (chunkOutput rt output out) = out.
Proof.
  unfold chunkOutput.
  repeat match goal with
         | |- context [match ?x with _ => _ end] => destruct x
         end; reflexivity.
Qed.

(** The events of a stream whose upstream answered with JSON. *)
Lemma start_parsed (rt : Runtime) (chatInput webhookUrl : jsstring) (status : Z)
    (rawResponse : jsstring) (parsed : JSON) :
  ok status = true -> JSON_parse rawResponse = Some parsed ->
  start rt chatInput webhookUrl (FetchResponse status rawResponse)
  = match parsed with
    | JNull => [Connected; Error (nativeMessage rt NullProperty)]
    | _ =>
        let n8nResponse :=
          if negb (truthyProp (prop parsed key_output))
          then repaired rt parsed else parsed in
        match chunkOutput rt (prop n8nResponse key_output) [Connected] with
        | (inl e, _) => [Connected; Error (messageOf rt e)]
        | (inr chunks, _) =>
            Connected :: framed chunks (whenTruthy (prop n8nResponse key_sources))
                           (whenTruthy (prop n8nResponse key_usage)) ++ [Done]
        end
    end.
Proof.
  intros Hok Hp. unfold start. rewrite (tryBlock_parsed _ _ _ _ _ parsed) by assumption.
  unfold bind. rewrite validate_cases.
  destruct parsed; try reflexivity; cbv zeta;
    match goal with
    | |- context [chunkOutput rt ?o [Connected]] =>
        pose proof (chunkOutput_out rt o [Connected]) as Hout;
        destruct (chunkOutput rt o [Connected]) as [[e|chunks] out];
        simpl in Hout; subst out;
        [reflexivity
        |rewrite sendChunks_framed; unfold enqueue; rewrite <- app_assoc; reflexivity]
    end.
Qed.

(** The events of a stream are those of an upstream failure, [Connected]
    and one [Error], or [Connected], the framed segments and [Done]. *)
Lemma start_shape (rt : Runtime) (chatInput webhookUrl : jsstring) (upstream : FetchOutcome) :
  (exists message, start rt chatInput webhookUrl upstream = [Connected; Error message])
  \/ (exists segments sources usage,
         start rt chatInput webhookUrl upstream
         = Connected :: framed segments sources usage ++ [Done]).
Proof.
  destruct upstream as [message|status rawResponse].
  - left. exists message. reflexivity.
  - destruct (ok status) eqn:Hok.
    2:{ right. unfold start. rewrite tryBlock_failed by exact Hok.
        do 3 eexists. reflexivity. }
    destruct (JSON_parse rawResponse) as [parsed|] eqn:Hp.
    2:{ left. unfold start. rewrite tryBlock_invalid by assumption.
        eexists. reflexivity. }
    rewrite (start_parsed _ _ _ _ _ parsed) by assumption.
    destruct parsed; try (left; eexists; reflexivity); cbv zeta;
      match goal with
      | |- context [chunkOutput rt ?o [Connected]] =>
          destruct (chunkOutput rt o [Connected]) as [[e|chunks] out];
          [left; eexists; reflexivity|right; do 3 eexists; reflexivity]
      end.
Qed.

Lemma ordered_error (message : jsstring) : ordered [Connected; Error message].
Proof.
  exists [], (Error message). repeat split; try constructor.
  intros before ev after H. destruct before; discriminate.
Qed.

Lemma ordered_framed (segments : list jsstring) (sources usage : option JSON) :
  ordered (Connected :: framed segments sources usage ++ [Done]).
Proof.
  exists (framed segments sources usage), Done. split; [reflexivity|].
  split; [apply framed_isChunk|]. split; [exact I|].
  intros before ev after H Hne.
  destruct (framed_inner _ _ _ _ _ _ H Hne) as [segment ->]. simpl. tauto.
Qed.

(** A request that opens a stream. *)
Lemma POST_stream (rt : Runtime) (env : Env) (body : ChatRequest)
    (upstream : FetchOutcome) (events : list StreamEvent) :
  POST rt env body upstream = EventStream events ->
  exists input webhookUrl,
    chatInput body = Some input /\ trim input <> []
    /\ events = start rt input webhookUrl upstream.
Proof.
  unfold POST. intros H.
  destruct (chatInput body) as [[|c input]|]; try discriminate.
  destruct (JS.eqb (trim (c :: input)) []) eqn:Ht; [discriminate|].
  destruct (N8N_BASE_URL env) as [[|b base]|]; try discriminate.
  destruct (webhookPath env body) as [[|p path]|]; try discriminate.
  injection H as <-. exists (c :: input), ((b :: base) ++ p :: path).
  split; [reflexivity|]. split; [|reflexivity].
  intros He. rewrite He in Ht. rewrite JS_eqb_refl in Ht. discriminate.
Qed.

(** Every stream is ordered. *)
Lemma start_ordered (rt : Runtime) (input webhookUrl : jsstring) (upstream : FetchOutcome) :
  ordered (start rt input webhookUrl upstream).
Proof.
  destruct (start_shape rt input webhookUrl upstream) as [[m ->]|[segs [s [u ->]]]].
  - apply ordered_error.
  - apply ordered_framed.
Qed.

(** C1.  Whenever the route opens a stream, the events it writes are
    [Connected], then chunk events only, then one terminal event, [Done] or
    [Error], with nothing after it; and no chunk event but the last carries
    [sources] or [usage]. *)
Theorem stream_is_ordered (rt : Runtime) (env : Env) (body : ChatRequest)
    (upstream : FetchOutcome) (events : list StreamEvent) :
  POST rt env body upstream = EventStream events -> ordered events.
Proof.
  intros H. destruct (POST_stream _ _ _ _ _ H) as [input [url [_ [_ ->]]]].
  apply start_ordered.
Qed.

Lemma stream_is_ordered_witness :
  ordered [Connected;
           Chunk (str "Hola. Que tal?") true (Some (JArr [])) (Some (usageOf 3 4 7));
           Done].
Proof.
  apply (stream_is_ordered runtime env hola
           (FetchResponse 200
              (txt "{'output': 'Hola. Que tal?', 'sources': [], 'usage': {'promptTokens': 3, 'completionTokens': 4, 'totalTokens': 7}}"))).
  vm_compute. reflexivity.
Defined.

(** [isLast] marks the last chunk event of a stream and no other: a chunk
    event is flagged exactly when [Done] alone follows it. *)
Lemma stream_flags_last (rt : Runtime) (env : Env) (body : ChatRequest)
    (upstream : FetchOutcome) (events : list StreamEvent) :
  POST rt env body upstream = EventStream events ->
  forall before content isLast sources usage after,
    events = before ++ Chunk content isLast sources usage :: after ->
    (isLast = true <-> after = [Done]).
Proof.
  intros H before content isLast sources usage after Hev.
  destruct (POST_stream _ _ _ _ _ H) as [input [url [_ [_ He]]]].
  rewrite He in Hev. clear He H.
  destruct (start_shape rt input url upstream) as [[m Hs]|[segs [s [u Hs]]]];
    rewrite Hs in Hev; clear Hs.
  - destruct before as [|b [|b' [|b'' before]]]; discriminate.
  - destruct before as [|b before]; [discriminate|].
    injection Hev as _ Hev.
    destruct (exists_last (l := after)) as [after' [x Ha]].
    { intros ->. apply (f_equal (@rev StreamEvent)) in Hev.
      rewrite !rev_app_distr in Hev. simpl in Hev. discriminate. }
    subst after.
    change (before ++ Chunk content isLast sources usage :: after' ++ [x])
      with (before ++ (Chunk content isLast sources usage :: after') ++ [x]) in Hev.
    rewrite app_assoc in Hev. apply app_inj_tail in Hev. destruct Hev as [Hf <-].
    split.
    + intros ->. destruct after' as [|a after']; [reflexivity|].
      destruct (framed_inner _ _ _ _ _ _ Hf ltac:(discriminate)) as [seg Hseg].
      discriminate.
    + intros Ha. destruct after' as [|a [|a' after']]; try discriminate.
      exact (framed_final _ _ _ _ _ _ _ _ Hf).
Qed.

(** C8, amended.  For every chunk size of at least 1: a text with a code
    unit outside white space gives at least one segment (a text of white
    space only gives none); every segment returned is not empty and is its
    own trim; and in every stream of the route [isLast] is true on the last
    chunk event and on no other. *)
Theorem chunkText_segments_not_empty :
  (forall text chunkSize c,
      1 <= chunkSize -> In c text -> isWhiteSpace c = false ->
      chunkText text chunkSize <> [])
  /\ (forall text chunkSize segment,
         1 <= chunkSize -> In segment (chunkText text chunkSize) ->
         segment <> [] /\ trim segment = segment)
  /\ (forall rt env body upstream events,
         POST rt env body upstream = EventStream events ->
         forall before content isLast sources usage after,
           events = before ++ Chunk content isLast sources usage :: after ->
           (isLast = true <-> after = [Done])).
Proof.
  split; [exact chunkText_nonempty|]. split; [|exact stream_flags_last].
  intros text chunkSize segment Hn Hin. split.
  - destruct (chunkText_loop text chunkSize Hn) as [chunks [_ Htext]].
    rewrite Htext in Hin. apply filter_In in Hin. apply nonEmpty_true. tauto.
  - apply (proj1 chunkText_segment_lemma text chunkSize segment Hn Hin).
Qed.

Lemma chunkText_segments_not_empty_witness :
  chunkText (str " Hola ") 700 <> [] /\ In (str "Hola") (chunkText (str " Hola ") 700).
Proof.
  split.
  - apply (proj1 chunkText_segments_not_empty (str " Hola ") 700 72%N);
      [lia|vm_compute; tauto|reflexivity].
  - vm_compute. left. reflexivity.
Defined.

(** ** Upstream failures *)

Lemma startsWith_spec (s p : jsstring) :
  startsWith s p = true <-> exists rest, s = p ++ rest.
Proof.
  revert s. induction p as [|a p IH]; intros s.
  - split; [intros _; exists s; reflexivity|intros _; destruct s; reflexivity].
  - destruct s as [|b s]; simpl.
    + split; [discriminate|intros [rest H]; discriminate].
    + rewrite andb_true_iff, N.eqb_eq, IH. split.
      * intros [-> [rest ->]]. exists rest. reflexivity.
      * intros [rest H]. injection H as -> ->. split; [reflexivity|exists rest; reflexivity].
Qed.

Lemma includes_spec (s p : jsstring) : includes s p = true <-> substringOf p s.
Proof.
  induction s as [|c s IH]; cbn [includes].
  - rewrite orb_false_r. rewrite startsWith_spec. split.
    + intros [rest H]. exists [], rest. exact H.
    + intros [before [after H]]. destruct before; [|discriminate].
      exists after. exact H.
  - rewrite orb_true_iff, IH. rewrite startsWith_spec. split.
    + intros [[rest H]|[before [after H]]].
      * exists [], rest. exact H.
      * exists (c :: before), after. simpl. rewrite H. reflexivity.
    + intros [before [after H]]. destruct before as [|b before].
      * left. exists after. exact H.
      * right. injection H as _ H. exists before, after. exact H.
Qed.

(** The fallback text starts with a capital E and ends with a full stop. *)
Lemma mockOutput_ends (chatInput webhookUrl : jsstring) :
  exists middle, mockOutput chatInput webhookUrl = 69%N :: middle ++ [46%N].
Proof.
  assert (Hb : exists b, mockBefore = 69%N :: b) by (eexists; reflexivity).
  assert (Ha : exists a, mockAfter = a ++ [46%N])
    by (exists (removelast mockAfter); reflexivity).
  destruct Hb as [b Hb], Ha as [a Ha]. unfold mockOutput. rewrite Hb, Ha.
  exists (b ++ chatInput ++ mockBetween ++ webhookUrl ++ a).
  cbn [app]. rewrite <- !app_assoc. reflexivity.
Qed.

Lemma mockOutput_trimmed (chatInput webhookUrl : jsstring) :
  trim (mockOutput chatInput webhookUrl) = mockOutput chatInput webhookUrl.
Proof.
  destruct (mockOutput_ends chatInput webhookUrl) as [middle ->].
  apply trim_fixed; reflexivity.
Qed.

Lemma mockOutput_segments (chatInput webhookUrl : jsstring) :
  chunkText (mockOutput chatInput webhookUrl) 700 <> [].
Proof.
  apply (chunkText_nonempty _ 700 69%N); [lia| |reflexivity].
  destruct (mockOutput_ends chatInput webhookUrl) as [middle ->]. left. reflexivity.
Qed.

(** A fallback text that fits the window is sent as one chunk. *)
Lemma mockOutput_short (chatInput webhookUrl : jsstring) :
  length (mockOutput chatInput webhookUrl) <= 700 ->
  chunkText (mockOutput chatInput webhookUrl) 700 = [mockOutput chatInput webhookUrl].
Proof.
  intros Hlen.
  assert (Hpos : 0 < length (mockOutput chatInput webhookUrl)).
  { destruct (mockOutput_ends chatInput webhookUrl) as [middle ->].
    unfold length. simpl. lia. }
  rewrite chunkText_short by lia. rewrite mockOutput_trimmed. simpl.
  replace (nonEmpty (mockOutput chatInput webhookUrl)) with true; [reflexivity|].
  symmetry. unfold nonEmpty. apply Z.gtb_lt. exact Hpos.
Qed.

(** The events of a stream whose upstream answered outside 200..299. *)
Lemma start_failed (rt : Runtime) (chatInput webhookUrl : jsstring) (status : Z)
    (rawResponse : jsstring) :
  ok status = false ->
  start rt chatInput webhookUrl (FetchResponse status rawResponse)
  = Connected :: framed (chunkText (mockOutput chatInput webhookUrl) 700)
                   (Some mockSources) (Some mockUsage) ++ [Done].
Proof.
  intros H. unfold start. rewrite tryBlock_failed by exact H. reflexivity.
Qed.

(** C4, as stated, fails: for a request of 700 letters the fallback text is
    cut in three, and the last chunk does not contain the text of the
    request. *)
Lemma fallback_long_input_counterexample :
  exists first second content,
    POST runtime env longRequest (FetchResponse 500 [])
    = EventStream [Connected; first; second;
                   Chunk content true (Some mockSources) (Some mockUsage); Done]
    /\ ~ substringOf (repeat 97%N 700) content.
Proof.
  do 3 eexists. split.
  - vm_compute. reflexivity.
  - intros H. apply includes_spec in H. vm_compute in H. discriminate.
Qed.

(** C4, amended.  When the upstream answers with a status outside 200..299,
    for any backend, the stream is ordered: [Connected], the chunks of the
    fallback text, [Done].  The last chunk carries the one fallback source
    and the usage with [totalTokens = 70].  When the fallback text has at
    most 700 code units, it is sent whole as the only chunk, and so the last
    chunk contains the text of the request. *)
Theorem fallback_on_http_failure (rt : Runtime) (env : Env) (body : ChatRequest)
    (status : Z) (rawResponse : jsstring) (events : list StreamEvent) :
  ok status = false ->
  POST rt env body (FetchResponse status rawResponse) = EventStream events ->
  exists input webhookUrl segments last,
    chatInput body = Some input
    /\ chunkText (mockOutput input webhookUrl) 700 = segments ++ [last]
    /\ events
       = Connected :: map (fun segment => Chunk segment false None None) segments
         ++ [Chunk last true (Some mockSources) (Some mockUsage); Done]
    /\ ordered events
    /\ (exists source, mockSources = JArr [source])
    /\ prop mockUsage (str "totalTokens") = Some (JNum 70 0)
    /\ (length (mockOutput input webhookUrl) <= 700 ->
        segments = [] /\ last = mockOutput input webhookUrl /\ substringOf input last).
Proof.
  intros Hok H.
  destruct (POST_stream _ _ _ _ _ H) as [input [url [Hin [_ He]]]].
  assert (Hord : ordered events) by (rewrite He; apply start_ordered).
  rewrite start_failed in He by exact Hok.
  destruct (exists_last (mockOutput_segments input url)) as [segments [last Hseg]].
  exists input, url, segments, last.
  split; [exact Hin|]. split; [exact Hseg|]. split.
  { rewrite He, Hseg, framed_snoc. rewrite <- app_assoc. reflexivity. }
  split; [exact Hord|]. split; [eexists; reflexivity|]. split; [reflexivity|].
  intros Hlen. rewrite (mockOutput_short _ _ Hlen) in Hseg.
  destruct segments as [|x [|y segments]]; try discriminate.
  injection Hseg as <-. split; [reflexivity|]. split; [reflexivity|].
  exists mockBefore, (mockBetween ++ url ++ mockAfter). reflexivity.
Qed.

Lemma fallback_on_http_failure_witness :
  exists content,
    POST runtime env hola (FetchResponse 500 [])
    = EventStream [Connected; Chunk content true (Some mockSources) (Some mockUsage); Done]
    /\ substringOf (str "Hola") content.
Proof.
  destruct (fallback_on_http_failure runtime env hola 500 [] _ eq_refl eq_refl)
    as [input [url [segments [last [Hin [Hseg [Hev [_ [_ [_ Hshort]]]]]]]]]].
  exists (mockOutput (str "Hola") webhookUrl). split.
  - vm_compute. reflexivity.
  - exists mockBefore, (mockBetween ++ webhookUrl ++ mockAfter). reflexivity.
Defined.

(** C5, as stated, fails: for the primary backend, [python], a status of
    500 is answered with the fallback reply, and the stream has no [Error]
    event. *)
Lemma primary_http_failure_counterexample :
  POST runtime env holaPython (FetchResponse 500 [])
  = EventStream [Connected;
                 Chunk (mockOutput (str "Hola") webhookUrl) true
                       (Some mockSources) (Some mockUsage);
                 Done]
  /\ forall message,
       POST runtime env holaPython (FetchResponse 500 [])
       <> EventStream [Connected; Error message].
Proof.
  assert (H : POST runtime env holaPython (FetchResponse 500 [])
              = EventStream [Connected;
                             Chunk (mockOutput (str "Hola") webhookUrl) true
                                   (Some mockSources) (Some mockUsage);
                             Done])
    by (vm_compute; reflexivity).
  split; [exact H|]. intros message. rewrite H. discriminate.
Qed.

(** C5, amended.  For every backend, the primary one included: a rejected
    fetch (network failure) and a body that is not JSON are reported in the
    stream by one [Error] event after [Connected]; a status outside 200..299
    is not reported but answered with the chunks of the fallback reply and
    [Done]. *)
Theorem upstream_failure (rt : Runtime) (env : Env) (body : ChatRequest)
    (upstream : FetchOutcome) (events : list StreamEvent) :
  POST rt env body upstream = EventStream events ->
  match upstream with
  | FetchRejected message => events = [Connected; Error message]
  | FetchResponse status rawResponse =>
      if ok status then
        JSON_parse rawResponse = None ->
        events = [Connected; Error (invalidJson rawResponse)]
      else
        exists input webhookUrl,
          chatInput body = Some input
          /\ events
             = Connected :: framed (chunkText (mockOutput input webhookUrl) 700)
                              (Some mockSources) (Some mockUsage) ++ [Done]
          /\ ~ In Done (framed (chunkText (mockOutput input webhookUrl) 700)
                          (Some mockSources) (Some mockUsage))
          /\ forall message, ~ In (Error message) events
  end.
Proof.
  intros H. destruct (POST_stream _ _ _ _ _ H) as [input [url [Hin [_ He]]]].
  destruct upstream as [message|status rawResponse].
  - exact He.
  - destruct (ok status) eqn:Hok.
    + intros Hp. rewrite He. unfold start.
      rewrite tryBlock_invalid by assumption. reflexivity.
    + rewrite start_failed in He by exact Hok.
      assert (Hchunks : forall ev,
                 In ev (framed (chunkText (mockOutput input url) 700)
                          (Some mockSources) (Some mockUsage)) -> isChunk ev).
      { apply Forall_forall. apply framed_isChunk. }
      exists input, url. split; [exact Hin|]. split; [exact He|]. split.
      * intros Hd. exact (Hchunks _ Hd).
      * intros message Hm. rewrite He in Hm. destruct Hm as [Hm|Hm]; [discriminate|].
        apply in_app_or in Hm. destruct Hm as [Hm|[Hm|[]]]; [|discriminate].
        exact (Hchunks _ Hm).
Qed.

Lemma upstream_failure_witness :
  POST runtime env holaPython (FetchRejected (str "fetch failed"))
  = EventStream [Connected; Error (str "fetch failed")].
Proof.
  assert (H : exists events,
             POST runtime env holaPython (FetchRejected (str "fetch failed"))
             = EventStream events)
    by (eexists; vm_compute; reflexivity).
  destruct H as [events H].
  rewrite H. f_equal. exact (upstream_failure _ _ _ _ _ H).
Defined.

(** ** The reply without [output] *)

(** Whatever the upstream sends that has no true [output], an object, an
    array, a string, a number, is replaced, [null] apart. *)
Lemma validate_repairs (rt : Runtime) (parsed : JSON) (out : list StreamEvent) :
  parsed <> JNull -> truthyProp (prop parsed key_output) = false ->
  validate rt parsed out = (inr (repaired rt parsed), out).
Proof.
  intros Hn H. rewrite validate_cases. rewrite H.
  destruct parsed; try reflexivity. congruence.
Qed.

(** The reply [null] has no properties to read: the validation throws, and
    the stream reports it. *)
Remark null_reply_is_reported (rt : Runtime) (input url : jsstring) (status : Z)
    (rawResponse : jsstring) :
  ok status = true -> JSON_parse rawResponse = Some JNull ->
  start rt input url (FetchResponse status rawResponse)
  = [Connected; Error (nativeMessage rt NullProperty)].
Proof.
  intros Hok Hp. rewrite (start_parsed _ _ _ _ _ JNull) by assumption. reflexivity.
Qed.

(** The stream for a reply without [output]: the chunks of the text put in
    its place, the last one with the empty list of sources and the zero
    usage, and [Done]. *)
Lemma start_repaired (rt : Runtime) (input url : jsstring) (status : Z)
    (rawResponse : jsstring) (members : list (jsstring * JSON)) :
  ok status = true -> JSON_parse rawResponse = Some (JObj members) ->
  truthyProp (lookup members key_output) = false ->
  start rt input url (FetchResponse status rawResponse)
  = Connected :: framed (chunkText (missingOutput rt (JObj members)) 700)
                   (Some (JArr [])) (Some (usageOf 0 0 0)) ++ [Done].
Proof.
  intros Hok Hp H. rewrite (start_parsed _ _ _ _ _ (JObj members)) by assumption.
  cbv zeta. change (prop (JObj members) key_output) with (lookup members key_output).
  rewrite H. reflexivity.
Qed.

(** C7.  The validation misses one reply.  For every reply other than
    [null] whose [output] is missing or empty (or any other value that counts
    as false), it does not throw and puts in its place a reply whose [output]
    is a string, not empty, that ends with the first 200 code units of the
    JSON text of what was received followed by three dots, whose [sources] is
    the empty list and whose usage counters are all 0.  The reply [null],
    which is JSON and has no [output] either, makes the test itself throw:
    nothing is put in its place, and the stream ends with the error event of
    the engine's [TypeError]. *)
Theorem null_reply_is_not_repaired (rt : Runtime) (input url : jsstring) (status : Z)
    (out : list StreamEvent) :
  JSON_parse (str "null") = Some JNull
  /\ validate rt JNull out = (inl (Native NullProperty), out)
  /\ (ok status = true ->
      start rt input url (FetchResponse status (str "null"))
      = [Connected; Error (nativeMessage rt NullProperty)])
  /\ (forall parsed,
         parsed <> JNull -> truthyProp (prop parsed key_output) = false ->
         exists output,
           validate rt parsed out
           = (inr (JObj [(key_output, JStr output);
                         (key_sources, JArr []);
                         (key_usage, usageOf 0 0 0)]), out)
           /\ output <> []
           /\ output
              = missingPrefix ++ substring (JSON_stringify rt parsed) 0 200 ++ str "..."
           /\ prop (usageOf 0 0 0) (str "promptTokens") = Some (JNum 0 0)
           /\ prop (usageOf 0 0 0) (str "completionTokens") = Some (JNum 0 0)
           /\ prop (usageOf 0 0 0) (str "totalTokens") = Some (JNum 0 0)).
Proof.
  split; [vm_compute; reflexivity|]. split; [reflexivity|]. split.
  - intros Hok. apply null_reply_is_reported; [exact Hok|vm_compute; reflexivity].
  - intros parsed Hn H. exists (missingOutput rt parsed). split.
    { exact (validate_repairs rt parsed out Hn H). }
    split.
    { unfold missingOutput. intros He. apply (f_equal (@List.length N)) in He.
      rewrite !List.length_app in He. simpl in He. lia. }
    split; [reflexivity|]. repeat split.
Qed.

Lemma null_reply_is_not_repaired_witness :
  POST runtime env hola (FetchResponse 200 (str "null"))
  = EventStream [Connected; Error (str "Cannot read properties of null (reading 'output')")]
  /\ validate runtime (JObj [(key_sources, JArr [])]) []
     = (inr (JObj [(key_output,
                    JStr (missingPrefix ++ txt "{'sources':[]}" ++ str "..."));
                   (key_sources, JArr []);
                   (key_usage, usageOf 0 0 0)]), []).
Proof.
  destruct (null_reply_is_not_repaired runtime (str "Hola") webhookUrl 200 [])
    as [_ [_ [Hnull Hrest]]].
  split.
  - change (POST runtime env hola (FetchResponse 200 (str "null")))
      with (EventStream (start runtime (str "Hola") webhookUrl
                           (FetchResponse 200 (str "null")))).
    rewrite (Hnull eq_refl). reflexivity.
  - destruct (Hrest (JObj [(key_sources, JArr [])]) ltac:(discriminate) eq_refl)
      as [output [Hv [_ [Ho _]]]].
    rewrite Hv, Ho. reflexivity.
Defined.

(** ** The stream consumers *)

Lemma split_scan_last (sep : N) (a : jsstring) :
  forall cur, ~ In sep a -> split_scan a sep cur = [rev cur ++ a].
Proof.
  induction a as [|c a IH]; intros cur Hn; simpl.
  - rewrite app_nil_r. reflexivity.
  - destruct (N.eqb_spec c sep) as [->|Hne].
    + exfalso. apply Hn. left. reflexivity.
    + rewrite IH by (intros H; apply Hn; right; exact H).
      simpl. rewrite <- app_assoc. reflexivity.
Qed.

Lemma split_scan_line (sep : N) (a rest : jsstring) :
  forall cur,
    ~ In sep a ->
    split_scan (a ++ sep :: rest) sep cur = (rev cur ++ a) :: split_scan rest sep [].
Proof.
  induction a as [|c a IH]; intros cur Hn; simpl.
  - rewrite N.eqb_refl. rewrite app_nil_r. reflexivity.
  - destruct (N.eqb_spec c sep) as [->|Hne].
    + exfalso. apply Hn. left. reflexivity.
    + rewrite IH by (intros H; apply Hn; right; exact H).
      simpl. rewrite <- app_assoc. reflexivity.
Qed.

(** A read without a line feed is one line. *)
Lemma split_fragment (a : jsstring) : ~ In LF a -> split a LF = [a].
Proof. intros H. unfold split. rewrite split_scan_last by exact H. reflexivity. Qed.

(** The lines of a read that completes a line and holds one whole record
    after it. *)
Lemma split_rest_and_record (b line : jsstring) :
  ~ In LF b -> ~ In LF line ->
  split (b ++ [LF; LF] ++ line ++ [LF; LF]) LF = [b; []; line; []; []].
Proof.
  intros Hb Hl. unfold split.
  change (b ++ [LF; LF] ++ line ++ [LF; LF])
    with (b ++ LF :: ([] ++ LF :: (line ++ LF :: ([] ++ LF :: [])))).
  rewrite split_scan_line by exact Hb.
  rewrite split_scan_line by (intros []).
  rewrite split_scan_line by exact Hl.
  rewrite split_scan_line by (intros []).
  reflexivity.
Qed.

(** The lines of a read that holds one whole record. *)
Lemma split_record (line : jsstring) :
  ~ In LF line -> split (line ++ [LF; LF]) LF = [line; []; []].
Proof.
  intros Hl. unfold split.
  change (line ++ [LF; LF]) with (line ++ LF :: ([] ++ LF :: [])).
  rewrite split_scan_line by exact Hl.
  rewrite split_scan_line by (intros []).
  reflexivity.
Qed.

(** What does not start with [data:] does not start with [data: ]. *)
Lemma no_prefix (b : jsstring) :
  startsWith b SendMessage.prefix = false -> startsWith b Submit.prefix = false.
Proof.
  intros H. destruct (startsWith b Submit.prefix) eqn:E; [|reflexivity].
  apply startsWith_spec in E. destruct E as [rest ->].
  vm_compute in H. discriminate.
Qed.

(** A read that ends with whole lines and then a part of a line: the part
    is a line of its own. *)
Lemma split_scan_fragment (sep : N) (pre a : jsstring) :
  forall cur,
    ~ In sep a ->
    split_scan (pre ++ sep :: a) sep cur = split_scan pre sep cur ++ [a].
Proof.
  induction pre as [|c pre IH]; intros cur Hn; simpl.
  - rewrite N.eqb_refl. rewrite (split_scan_last sep a [] Hn). reflexivity.
  - destruct (N.eqb c sep); rewrite IH by exact Hn; reflexivity.
Qed.

(** Every line of a read is a part of it. *)
Lemma split_scan_substringOf (sep : N) (s : jsstring) :
  forall cur line,
    In line (split_scan s sep cur) -> substringOf line (rev cur ++ s).
Proof.
  induction s as [|c s IH]; intros cur line Hin; simpl in Hin.
  - destruct Hin as [<-|[]]. exists [], []. rewrite !app_nil_r. reflexivity.
  - destruct (N.eqb c sep).
    + destruct Hin as [<-|Hin].
      * exists [], (c :: s). reflexivity.
      * destruct (IH [] line Hin) as [before [after H]]. simpl in H.
        exists (rev cur ++ c :: before), after. rewrite H, <- app_assoc. reflexivity.
    + destruct (IH (c :: cur) line Hin) as [before [after H]].
      exists before, after. rewrite <- H. simpl. rewrite <- app_assoc. reflexivity.
Qed.

Lemma flat_map_nil {A B : Type} (f : A -> list B) (l : list A) :
  (forall x, In x l -> f x = []) -> flat_map f l = [].
Proof.
  induction l as [|x l IH]; intros H; simpl; [reflexivity|].
  rewrite (H x (or_introl eq_refl)). apply IH. intros y Hy. apply H. right. exact Hy.
Qed.

(** A part of a line that is cut off at the end of a read, after whole
    lines or alone, and that brings no event, changes nothing to the events
    of the read. *)
Lemma lines_with_fragment (ev : jsstring -> list JSON) (earlier a : jsstring) :
  earlier = [] \/ (exists pre, earlier = pre ++ [LF]) ->
  ~ In LF a -> ev a = [] -> ev [] = [] ->
  flat_map ev (split (earlier ++ a) LF) = flat_map ev (split earlier LF).
Proof.
  intros [->|[pre ->]] Ha Hev Hnil; unfold split.
  - simpl. rewrite (split_scan_last LF a [] Ha). simpl. rewrite Hev, Hnil. reflexivity.
  - rewrite <- app_assoc. simpl.
    rewrite (split_scan_fragment LF pre a [] Ha).
    rewrite (split_scan_fragment LF pre [] [] (fun H => H)).
    rewrite !flat_map_app. simpl. rewrite Hev, Hnil. reflexivity.
Qed.

(** The consumer of [handleSubmit] does to the messages what the delivered
    values do, one after the other. *)
Lemma Submit_onLine_handle (rt : Runtime) (msgs : list Submit.Message) (line : jsstring) :
  Submit.onLine rt msgs line
  = fold_left (Submit.handle rt) (Submit.parsedLine line) msgs.
Proof.
  unfold Submit.onLine, Submit.tryLine, Submit.handle, Submit.parsedLine.
  destruct (startsWith line Submit.prefix); [|reflexivity].
  destruct (JSON_parse (slice_from line 6)); reflexivity.
Qed.

Lemma fold_left_flat_map {A B C : Type} (f : A -> C -> A) (g : B -> list C)
    (h : A -> B -> A) :
  (forall a b, h a b = fold_left f (g b) a) ->
  forall l a, fold_left h l a = fold_left f (flat_map g l) a.
Proof.
  intros H. induction l as [|b l IH]; intros a; simpl; [reflexivity|].
  rewrite fold_left_app, <- H. apply IH.
Qed.

Lemma Submit_readLoop_delivered (rt : Runtime) (reads : list jsstring)
    (msgs : list Submit.Message) :
  Submit.readLoop rt msgs reads
  = fold_left (Submit.handle rt) (Submit.delivered reads) msgs.
Proof.
  unfold Submit.readLoop, Submit.delivered.
  apply fold_left_flat_map. intros a chunk. unfold Submit.onRead.
  apply fold_left_flat_map. intros a' line. apply Submit_onLine_handle.
Qed.

(** In [handleSendMessage] the test [chunk.includes('data:')] lets through
    every read that has a line to parse. *)
Lemma SendMessage_delivered_lines (reads : list jsstring) :
  SendMessage.delivered reads
  = flat_map (fun chunk => flat_map SendMessage.parsedLine (split chunk LF)) reads.
Proof.
  unfold SendMessage.delivered.
  induction reads as [|chunk reads IH]; simpl; [reflexivity|].
  rewrite IH. f_equal.
  destruct (includes chunk SendMessage.prefix) eqn:Hinc; [reflexivity|].
  symmetry. apply flat_map_nil. intros line Hin. unfold SendMessage.parsedLine.
  destruct (startsWith line SendMessage.prefix) eqn:Hs; [|reflexivity].
  exfalso.
  assert (Hsub : substringOf SendMessage.prefix chunk).
  { apply (substringOf_trans _ line).
    - apply startsWith_spec in Hs. destruct Hs as [rest ->]. exists [], rest. reflexivity.
    - exact (split_scan_substringOf LF chunk [] line Hin). }
  apply includes_spec in Hsub. congruence.
Qed.

Lemma sameButFlag_sym (l l' : SendMessage.Locals) : sameButFlag l l' -> sameButFlag l' l.
Proof. intros [H1 H2]. split; congruence. Qed.

Lemma sameButFlag_trans (l l' l'' : SendMessage.Locals) :
  sameButFlag l l' -> sameButFlag l' l'' -> sameButFlag l l''.
Proof. intros [H1 H2] [H3 H4]. split; congruence. Qed.

Lemma SendMessage_handle_same (rt : Runtime) (l l' : SendMessage.Locals) (data : JSON) :
  sameButFlag l l' ->
  sameButFlag (SendMessage.handle rt l data) (SendMessage.handle rt l' data).
Proof.
  intros [Hf Hm]. unfold SendMessage.handle, SendMessage.dispatch.
  destruct data; try (split; assumption);
    destruct (Submit.strictEq _ (str "chunk"));
    try (destruct (Submit.strictEq _ (str "error")));
    unfold sameButFlag; simpl; rewrite ?Hf, ?Hm; split; congruence.
Qed.

Lemma SendMessage_fold_same (rt : Runtime) (events : list JSON) :
  forall l l',
    sameButFlag l l' ->
    sameButFlag (fold_left (SendMessage.handle rt) events l)
                (fold_left (SendMessage.handle rt) events l').
Proof.
  induction events as [|e events IH]; intros l l' H; simpl; [exact H|].
  apply IH. apply SendMessage_handle_same. exact H.
Qed.

Lemma SendMessage_onLine_handle (rt : Runtime) (l : SendMessage.Locals) (line : jsstring) :
  SendMessage.onLine rt l line
  = fold_left (SendMessage.handle rt) (SendMessage.parsedLine line) l.
Proof.
  unfold SendMessage.onLine, SendMessage.tryLine, SendMessage.handle, SendMessage.parsedLine.
  destruct (startsWith line SendMessage.prefix); [|reflexivity].
  destruct (trim (substring line 5 (length line))) as [|c jsonString]; [reflexivity|].
  destruct (JSON_parse (c :: jsonString)); reflexivity.
Qed.

Lemma SendMessage_onRead_same (rt : Runtime) (l l' : SendMessage.Locals) (chunk : jsstring) :
  sameButFlag l l' ->
  sameButFlag (SendMessage.onRead rt l chunk)
              (fold_left (SendMessage.handle rt) (SendMessage.delivered [chunk]) l').
Proof.
  intros H. unfold SendMessage.onRead, SendMessage.delivered. simpl flat_map.
  rewrite app_nil_r.
  set (l1 := if includes chunk SendMessage.doneSignal then _ else l).
  assert (H1 : sameButFlag l1 l').
  { unfold l1. destruct (includes chunk SendMessage.doneSignal); exact H. }
  clearbody l1.
  destruct (includes chunk SendMessage.prefix); [|exact H1].
  rewrite (fold_left_flat_map (SendMessage.handle rt) _ (SendMessage.onLine rt)
             (SendMessage_onLine_handle rt)).
  apply SendMessage_fold_same. exact H1.
Qed.

(** The consumer of [handleSendMessage] does to its text and its messages
    what the delivered values do, one after the other. *)
Lemma SendMessage_readLoop_delivered (rt : Runtime) (reads : list jsstring) :
  forall l l',
    sameButFlag l l' ->
    sameButFlag (SendMessage.readLoop rt l reads)
                (fold_left (SendMessage.handle rt) (SendMessage.delivered reads) l').
Proof.
  induction reads as [|chunk reads IH]; intros l l' H; [exact H|].
  assert (E : SendMessage.delivered (chunk :: reads)
              = SendMessage.delivered [chunk] ++ SendMessage.delivered reads).
  { unfold SendMessage.delivered. simpl flat_map. rewrite app_nil_r. reflexivity. }
  rewrite E, fold_left_app.
  apply (IH (SendMessage.onRead rt l chunk)). apply SendMessage_onRead_same. exact H.
Qed.

(** C2, as stated, fails: the two reads [read1], [read2] carry the same
    text as the two whole records [whole1], [whole2], whose events are
    [event1] and [event2]; read 1 stops inside the first record.  Both
    consumers deliver [event2] only, and the message shown is the text of
    the second chunk alone. *)
Lemma fragmented_record_counterexample :
  read1 ++ read2 = whole1 ++ whole2
  /\ Submit.delivered [whole1; whole2] = [event1; event2]
  /\ Submit.delivered [read1; read2] = [event2]
  /\ Submit.delivered [read1; read2] <> [event1; event2]
  /\ SendMessage.delivered [whole1; whole2] = [event1; event2]
  /\ SendMessage.delivered [read1; read2] = [event2]
  /\ Submit.readLoop runtime
       [{| Submit.type := Submit.assistant; Submit.content := [];
           Submit.sources := None; Submit.usage := None |}]
       [read1; read2]
     = [{| Submit.type := Submit.assistant; Submit.content := str "!";
           Submit.sources := None; Submit.usage := None |}].
Proof.
  assert (H : Submit.delivered [read1; read2] = [event2]) by (vm_compute; reflexivity).
  split; [vm_compute; reflexivity|]. split; [vm_compute; reflexivity|].
  split; [exact H|]. split; [rewrite H; discriminate|].
  split; [vm_compute; reflexivity|]. split; vm_compute; reflexivity.
Qed.

(** C2, amended.  Each read is cut into lines on its own, and nothing of a
    line is kept for the next read.  When read 1 ends, after whole lines or
    none, inside a record, so that what it holds of the record is not JSON,
    and read 2 has the rest of that line, which does not start with [data:],
    and then a whole second record, both consumers deliver, after the events
    of the whole lines of read 1, the event of the second record only: the
    record cut in two is lost, and the messages end up as if it had never
    been sent. *)
Theorem split_record_is_dropped (earlier a b line2 : jsstring) (e2 : JSON) :
  earlier = [] \/ (exists pre, earlier = pre ++ [LF]) ->
  ~ In LF a -> ~ In LF b -> ~ In LF line2 ->
  JSON_parse (slice_from a 6) = None ->
  JSON_parse (trim (substring a 5 (length a))) = None ->
  startsWith b SendMessage.prefix = false ->
  startsWith line2 Submit.prefix = true ->
  JSON_parse (slice_from line2 6) = Some e2 ->
  JSON_parse (trim (substring line2 5 (length line2))) = Some e2 ->
  Submit.delivered [earlier ++ a; b ++ [LF; LF] ++ line2 ++ [LF; LF]]
  = Submit.delivered [earlier] ++ [e2]
  /\ SendMessage.delivered [earlier ++ a; b ++ [LF; LF] ++ line2 ++ [LF; LF]]
     = SendMessage.delivered [earlier] ++ [e2]
  /\ (forall rt msgs,
         Submit.readLoop rt msgs [earlier ++ a; b ++ [LF; LF] ++ line2 ++ [LF; LF]]
         = Submit.handle rt (Submit.readLoop rt msgs [earlier]) e2)
  /\ (forall rt l,
         sameButFlag
           (SendMessage.readLoop rt l [earlier ++ a; b ++ [LF; LF] ++ line2 ++ [LF; LF]])
           (SendMessage.handle rt (SendMessage.readLoop rt l [earlier]) e2)).
Proof.
  intros He Ha Hb Hl Hpa Hpa' Hsb Hs2 Hp2 Hp2'.
  assert (Hs2' : startsWith line2 SendMessage.prefix = true).
  { apply startsWith_spec in Hs2. destruct Hs2 as [rest ->]. reflexivity. }
  assert (H1 : Submit.delivered [earlier ++ a; b ++ [LF; LF] ++ line2 ++ [LF; LF]]
               = Submit.delivered [earlier] ++ [e2]).
  { unfold Submit.delivered. cbn [flat_map]. rewrite !app_nil_r. f_equal.
    - apply lines_with_fragment; try assumption; [|reflexivity].
      unfold Submit.parsedLine. rewrite Hpa.
      destruct (startsWith a Submit.prefix); reflexivity.
    - rewrite (split_rest_and_record b line2 Hb Hl). cbn [flat_map].
      unfold Submit.parsedLine. rewrite (no_prefix b Hsb), Hs2, Hp2. reflexivity. }
  assert (H2 : SendMessage.delivered [earlier ++ a; b ++ [LF; LF] ++ line2 ++ [LF; LF]]
               = SendMessage.delivered [earlier] ++ [e2]).
  { rewrite !SendMessage_delivered_lines. cbn [flat_map]. rewrite !app_nil_r. f_equal.
    - apply lines_with_fragment; try assumption; [|reflexivity].
      unfold SendMessage.parsedLine. rewrite Hpa'.
      destruct (startsWith a SendMessage.prefix); reflexivity.
    - rewrite (split_rest_and_record b line2 Hb Hl). cbn [flat_map].
      unfold SendMessage.parsedLine. rewrite Hsb, Hs2', Hp2'. reflexivity. }
  split; [exact H1|]. split; [exact H2|]. split.
  - intros rt msgs. rewrite !Submit_readLoop_delivered, H1, fold_left_app. reflexivity.
  - intros rt l.
    pose proof (SendMessage_readLoop_delivered rt
                  [earlier ++ a; b ++ [LF; LF] ++ line2 ++ [LF; LF]] l l
                  (conj eq_refl eq_refl)) as H.
    rewrite H2, fold_left_app in H. simpl in H.
    apply (sameButFlag_trans _ _ _ H).
    apply SendMessage_handle_same. apply sameButFlag_sym.
    apply SendMessage_readLoop_delivered. split; reflexivity.
Qed.

Lemma split_record_is_dropped_witness :
  Submit.delivered [read1; read2] = [event2]
  /\ SendMessage.delivered [read1; read2] = [event2].
Proof.
  assert (Hno : forall s : jsstring, existsb (N.eqb LF) s = false -> ~ In LF s).
  { intros s H Hin.
    assert (E : existsb (N.eqb LF) s = true)
      by (apply existsb_exists; exists LF; split; [exact Hin|apply N.eqb_refl]).
    congruence. }
  destruct (split_record_is_dropped [] read1 (txt "mundo','isLast':false}")
              (txt "data: {'type':'chunk','content':'!','isLast':true}") event2)
    as [H1 [H2 _]];
    try (apply Hno; vm_compute; reflexivity); try (vm_compute; reflexivity).
  - left. reflexivity.
  - split; [exact H1|exact H2].
Defined.

(** Records that arrive whole, in one read or in two, are delivered in
    order. *)
Lemma whole_records_are_delivered (line1 line2 : jsstring) (e1 e2 : JSON) :
  ~ In LF line1 -> ~ In LF line2 ->
  startsWith line1 Submit.prefix = true -> startsWith line2 Submit.prefix = true ->
  JSON_parse (slice_from line1 6) = Some e1 ->
  JSON_parse (slice_from line2 6) = Some e2 ->
  Submit.delivered [line1 ++ [LF; LF]; line2 ++ [LF; LF]] = [e1; e2]
  /\ Submit.delivered [line1 ++ [LF; LF] ++ line2 ++ [LF; LF]] = [e1; e2].
Proof.
  intros H1 H2 Hs1 Hs2 Hp1 Hp2. split.
  - unfold Submit.delivered. cbn [flat_map].
    rewrite !split_record by assumption. cbn [flat_map].
    unfold Submit.parsedLine. rewrite Hs1, Hs2, Hp1, Hp2. reflexivity.
  - unfold Submit.delivered. cbn [flat_map].
    rewrite (split_rest_and_record line1 line2 H1 H2). cbn [flat_map].
    unfold Submit.parsedLine. rewrite Hs1, Hs2, Hp1, Hp2. reflexivity.
Qed.

(** C6, as stated, fails: the stream [cutShort] is closed after a chunk
    event with [isLast: false], and neither [Done] nor [Error] was
    delivered; [handleSubmit] ends with no error set, and keeps the partial
    message. *)
Lemma abrupt_close_counterexample :
  Submit.delivered cutShort
  = [JObj [(str "type", JStr (str "connected"))];
     JObj [(str "type", JStr (str "chunk")); (str "content", JStr (str "Hola, "));
           (str "isLast", JBool false)]]
  /\ Submit.handleSubmit runtime typed (Submit.SendResponse true (Some (cutShort, Submit.Closed)))
     = {| Submit.messages :=
            [{| Submit.type := Submit.user; Submit.content := str "Hola";
                Submit.sources := None; Submit.usage := None |};
             {| Submit.type := Submit.assistant; Submit.content := str "Hola, ";
                Submit.sources := None; Submit.usage := None |}];
          Submit.input := [];
          Submit.isLoading := false;
          Submit.error := None |}.
Proof. split; vm_compute; reflexivity. Qed.

(** C6, amended.  When the byte stream of an accepted response ends, with
    or without a [Done] or [Error] event in it, [handleSubmit] completes
    without reporting a failure: the error stays unset, the loading flag is
    cleared, and the assistant message keeps what the chunks delivered so
    far appended to it. *)
Theorem closed_stream_is_success (rt : Runtime) (st : Submit.State) (reads : list jsstring) :
  trim (Submit.input st) <> [] -> Submit.isLoading st = false ->
  Submit.handleSubmit rt st (Submit.SendResponse true (Some (reads, Submit.Closed)))
  = {| Submit.messages :=
         fold_left (Submit.handle rt) (Submit.delivered reads)
           (Submit.messages st
            ++ [{| Submit.type := Submit.user; Submit.content := trim (Submit.input st);
                   Submit.sources := None; Submit.usage := None |}]
            ++ [{| Submit.type := Submit.assistant; Submit.content := [];
                   Submit.sources := None; Submit.usage := None |}]);
       Submit.input := [];
       Submit.isLoading := false;
       Submit.error := None |}.
Proof.
  intros Hin Hl. unfold Submit.handleSubmit. rewrite Hl.
  replace (JS.eqb (trim (Submit.input st)) []) with false.
  - simpl. rewrite Submit_readLoop_delivered. rewrite <- app_assoc. reflexivity.
  - symmetry. destruct (JS.eqb (trim (Submit.input st)) []) eqn:E; [|reflexivity].
    apply JS_eqb_eq in E. contradiction.
Qed.

Lemma closed_stream_is_success_witness :
  Submit.error
    (Submit.handleSubmit runtime typed (Submit.SendResponse true (Some (cutShort, Submit.Closed))))
  = None.
Proof.
  rewrite (closed_stream_is_success runtime typed cutShort);
    [reflexivity|vm_compute; discriminate|reflexivity].
Defined.

(** * Further properties *)

(** ** What the chunker keeps *)

Lemma blank_app (a b : jsstring) : blank a -> blank b -> blank (a ++ b).
Proof. intros Ha Hb. apply Forall_app. split; assumption. Qed.

Lemma covers_gap (gap text : jsstring) (segments : list jsstring) :
  blank gap -> covers text segments -> covers (gap ++ text) segments.
Proof.
  intros Hg H. destruct segments as [|segment rest]; simpl in *.
  - apply blank_app; assumption.
  - destruct H as [gap' [tail [-> [Hg' Hc]]]].
    exists (gap ++ gap'), tail. split; [rewrite <- app_assoc; reflexivity|].
    split; [apply blank_app; assumption|exact Hc].
Qed.

(** A slice is its trim between two runs of white space. *)
Lemma trim_split (s : jsstring) :
  exists before after, s = before ++ trim s ++ after /\ blank before /\ blank after.
Proof.
  unfold trim. destruct (trimStart_split s) as [pre [H1 Hpre]].
  destruct (trimEnd_split (trimStart s)) as [post [H2 Hpost]].
  exists pre, post. split; [|split; assumption].
  rewrite <- H2. exact H1.
Qed.

(** What is left of the text from one cut on is the slice up to the next
    cut and what is left from there. *)
Lemma skipn_slice (text : jsstring) (a b : Z) :
  0 <= a <= b ->
  skipn (Z.to_nat a) text = slice text a b ++ skipn (Z.to_nat b) text.
Proof.
  intros H. rewrite slice_nonneg by lia. pose proof (JS_length_nonneg text) as Hl.
  unfold length in *.
  destruct (Z_le_gt_dec (Z.of_nat (List.length text)) a) as [Ha|Ha].
  - rewrite !skipn_all2 by lia. rewrite firstn_nil. reflexivity.
  - rewrite (Z.min_l a) by lia.
    destruct (Z_le_gt_dec (Z.of_nat (List.length text)) b) as [Hb|Hb].
    + rewrite Z.min_r by lia. rewrite (skipn_all2 text (n := Z.to_nat b)) by lia.
      rewrite app_nil_r. rewrite firstn_all2; [reflexivity|].
      rewrite List.length_skipn. lia.
    + rewrite Z.min_l by lia.
      replace (skipn (Z.to_nat b) text)
        with (skipn (Z.to_nat b - Z.to_nat a) (skipn (Z.to_nat a) text))
        by (rewrite skipn_skipn; f_equal; lia).
      symmetry. apply firstn_skipn.
Qed.

Lemma chunkLoop_covers_text (text : jsstring) (chunkSize : Z) :
  1 <= chunkSize ->
  forall fuel currentIndex chunks,
    0 <= currentIndex ->
    chunkLoop fuel text chunkSize currentIndex [] = Some chunks ->
    covers (skipn (Z.to_nat currentIndex) text) (filter nonEmpty chunks).
Proof.
  intros Hn. induction fuel as [|fuel IH]; intros cur chunks Hc H.
  - simpl in H. destruct (cur <? length text) eqn:E; [discriminate|].
    injection H as <-. apply Z.ltb_ge in E. simpl.
    rewrite skipn_all2 by (unfold length in E; lia). constructor.
  - destruct (Z_lt_le_dec cur (length text)) as [Hlt|Hge].
    + rewrite chunkLoop_step in H by exact Hlt.
      pose proof (cutIndex_bounds text chunkSize cur Hn Hc) as Hb.
      destruct (chunkLoop fuel text chunkSize (cutIndex text chunkSize cur) []) as [r|] eqn:Hr;
        [|discriminate].
      simpl in H. injection H as <-.
      apply IH in Hr; [|lia].
      rewrite (skipn_slice text cur (cutIndex text chunkSize cur)) by lia.
      destruct (trim_split (slice text cur (cutIndex text chunkSize cur)))
        as [before [after [Hs [Hbefore Hafter]]]].
      simpl filter.
      destruct (nonEmpty (trim (slice text cur (cutIndex text chunkSize cur)))) eqn:Hne.
      * simpl. exists before, (after ++ skipn (Z.to_nat (cutIndex text chunkSize cur)) text).
        split; [rewrite Hs at 1; rewrite <- !app_assoc; reflexivity|].
        split; [exact Hbefore|]. apply covers_gap; assumption.
      * assert (Hnil : trim (slice text cur (cutIndex text chunkSize cur)) = []).
        { destruct (trim (slice text cur (cutIndex text chunkSize cur))) eqn:Et;
            [reflexivity|]. discriminate. }
        rewrite Hs, Hnil. simpl. apply covers_gap; [|exact Hr].
        apply blank_app; assumption.
    + rewrite chunkLoop_stop in H by exact Hge. injection H as <-. simpl.
      rewrite skipn_all2 by (unfold length in Hge; lia). constructor.
Qed.

(** X1.  For every chunk size of at least 1, the text is the segments of
    [chunkText] in their order with white space only before, between and
    after them: chunking loses nothing but white space at the cuts and at
    the two ends. *)
Theorem chunkText_covers (text : jsstring) (chunkSize : Z) :
  1 <= chunkSize -> covers text (chunkText text chunkSize).
Proof.
  intros Hn. destruct (chunkText_loop text chunkSize Hn) as [chunks [Hloop ->]].
  exact (chunkLoop_covers_text text chunkSize Hn _ 0 chunks ltac:(lia) Hloop).
Qed.

Lemma chunkText_covers_witness :
  covers (str "Hola. Que tal? Muy bien, gracias!")
         [str "Hola."; str "Que tal?"; str "Muy bien,"; str "gracias!"].
Proof.
  exact (chunkText_covers (str "Hola. Que tal? Muy bien, gracias!") 10 ltac:(lia)).
Defined.

Lemma lastIndexOf_absent (s : jsstring) (c : N) (pos : Z) :
  ~ In c s -> lastIndexOf s c pos = -1.
Proof.
  intros Hn. destruct (lastIndexOf_sound s c pos) as [H|[_ H]]; [exact H|].
  exfalso. apply Hn. exact (nth_error_In _ _ H).
Qed.

Lemma trim_plain (s : jsstring) :
  (forall c, In c s -> isWhiteSpace c = false) -> trim s = s.
Proof.
  intros H. destruct s as [|c s]; [reflexivity|].
  destruct (exists_last (l := c :: s) ltac:(discriminate)) as [front [d Hd]].
  destruct front as [|c' front].
  - simpl in Hd. injection Hd as -> ->. unfold trim, trimEnd. simpl.
    rewrite (H d (or_introl eq_refl)). simpl. rewrite (H d (or_introl eq_refl)). reflexivity.
  - simpl in Hd. injection Hd as -> ->.
    apply trim_fixed.
    + apply H. left. reflexivity.
    + apply H. right. apply in_or_app. right. left. reflexivity.
Qed.

(** A window taken from inside the text. *)
Lemma slice_window (text : jsstring) (a n : Z) :
  0 <= a -> 0 <= n ->
  slice text a (a + n) = firstn (Z.to_nat n) (skipn (Z.to_nat a) text).
Proof.
  intros Ha Hn. rewrite slice_nonneg by lia. pose proof (JS_length_nonneg text) as Hl.
  unfold length in *.
  destruct (Z_le_gt_dec (Z.of_nat (List.length text)) a) as [Hge|Hlt].
  - rewrite !skipn_all2 by lia. rewrite !firstn_nil. reflexivity.
  - rewrite (Z.min_l a) by lia.
    destruct (Z_le_gt_dec (a + n) (Z.of_nat (List.length text))) as [Hb|Hb].
    + rewrite Z.min_l by lia. f_equal. lia.
    + rewrite Z.min_r by lia.
      rewrite !firstn_all2; [reflexivity| |]; rewrite List.length_skipn; lia.
Qed.

Lemma cutIndex_plain (text : jsstring) (chunkSize currentIndex : Z) :
  0 <= currentIndex ->
  ~ In dot text -> ~ In question text -> ~ In exclamation text -> ~ In space text ->
  cutIndex text chunkSize currentIndex = currentIndex + chunkSize.
Proof.
  intros Hc Hd Hq He Hs. unfold cutIndex.
  rewrite !lastIndexOf_absent by assumption.
  destruct (currentIndex + chunkSize <? length text); [|reflexivity].
  change (Z.max (Z.max (-1) (-1)) (-1)) with (-1).
  replace (-1 >? currentIndex) with false by (symmetry; rewrite Z.gtb_ltb; apply Z.ltb_ge; lia).
  reflexivity.
Qed.

Lemma chunkLoop_windows (text : jsstring) (chunkSize : Z) :
  1 <= chunkSize ->
  (forall c, In c text -> isWhiteSpace c = false /\ ~ isTerminator c) ->
  forall fuel currentIndex chunks count,
    0 <= currentIndex ->
    chunkLoop fuel text chunkSize currentIndex [] = Some chunks ->
    (List.length (skipn (Z.to_nat currentIndex) text) <= count)%nat ->
    filter nonEmpty chunks
    = windowsFrom count (Z.to_nat chunkSize) (skipn (Z.to_nat currentIndex) text).
Proof.
  intros Hn Hplain.
  assert (Hd : ~ In dot text) by (intros H; apply (Hplain _ H); left; reflexivity).
  assert (Hq : ~ In question text)
    by (intros H; apply (Hplain _ H); right; left; reflexivity).
  assert (He : ~ In exclamation text)
    by (intros H; apply (Hplain _ H); right; right; reflexivity).
  assert (Hs : ~ In space text)
    by (intros H; destruct (Hplain _ H) as [Hw _]; discriminate).
  induction fuel as [|fuel IH]; intros cur chunks count Hc H Hcount.
  - simpl in H. destruct (cur <? length text) eqn:E; [discriminate|].
    injection H as <-. apply Z.ltb_ge in E.
    rewrite skipn_all2 by (unfold length in E; lia). destruct count; reflexivity.
  - destruct (Z_lt_le_dec cur (length text)) as [Hlt|Hge].
    + rewrite chunkLoop_step in H by exact Hlt.
      rewrite cutIndex_plain in H by assumption.
      destruct (chunkLoop fuel text chunkSize (cur + chunkSize) []) as [r|] eqn:Hr;
        [|discriminate].
      simpl in H. injection H as <-.
      rewrite slice_window by lia.
      assert (Hskip : skipn (Z.to_nat (cur + chunkSize)) text
                      = skipn (Z.to_nat chunkSize) (skipn (Z.to_nat cur) text))
        by (rewrite skipn_skipn; f_equal; lia).
      assert (Hlen : (List.length (skipn (Z.to_nat cur) text) > 0)%nat)
        by (rewrite List.length_skipn; unfold length in Hlt; lia).
      destruct (skipn (Z.to_nat cur) text) as [|x rest] eqn:Ek; [simpl in Hlen; lia|].
      destruct count as [|count]; [simpl in Hcount; lia|].
      assert (Hsub : forall c, In c (firstn (Z.to_nat chunkSize) (x :: rest)) ->
                               isWhiteSpace c = false).
      { intros c Hin. apply Hplain.
        assert (Hin' : In c (x :: rest))
          by (rewrite <- (firstn_skipn (Z.to_nat chunkSize) (x :: rest));
              apply in_or_app; left; exact Hin).
        clear Hin. rename Hin' into Hin. rewrite <- Ek in Hin.
        rewrite <- (firstn_skipn (Z.to_nat cur) text). apply in_or_app. right. exact Hin. }
      rewrite (trim_plain _ Hsub). simpl filter.
      replace (nonEmpty (firstn (Z.to_nat chunkSize) (x :: rest))) with true.
      * simpl windowsFrom. f_equal.
        assert (Hc' : 0 <= cur + chunkSize) by (clear IH; lia).
        rewrite (IH (cur + chunkSize) r count Hc' Hr); rewrite Hskip; [reflexivity|].
        rewrite List.length_skipn. clear IH.
        change (List.length (x :: rest)) with (S (List.length rest)) in *. lia.
      * symmetry. apply nonEmpty_true.
        replace (Z.to_nat chunkSize) with (S (Z.to_nat chunkSize - 1)) by lia.
        discriminate.
    + rewrite chunkLoop_stop in H by exact Hge. injection H as <-.
      rewrite skipn_all2 by (unfold length in Hge; lia). destruct count; reflexivity.
Qed.

(** X2.  A text without white space and without sentence terminators, a
    single long token, is cut into its raw windows of [chunkSize] code
    units, for every chunk size of at least 1. *)
Theorem chunkText_long_token (text : jsstring) (chunkSize : Z) :
  1 <= chunkSize ->
  (forall c, In c text -> isWhiteSpace c = false /\ ~ isTerminator c) ->
  chunkText text chunkSize = windows (Z.to_nat chunkSize) text.
Proof.
  intros Hn Hplain. destruct (chunkText_loop text chunkSize Hn) as [chunks [Hloop ->]].
  exact (chunkLoop_windows text chunkSize Hn Hplain _ 0 chunks (List.length text)
           ltac:(lia) Hloop (Nat.le_refl _)).
Qed.

Lemma chunkText_long_token_witness :
  chunkText (str "abcdefgh") 3 = [str "abc"; str "def"; str "gh"].
Proof.
  rewrite (chunkText_long_token (str "abcdefgh") 3 ltac:(lia)); [reflexivity|].
  intros c Hin. simpl in Hin.
  repeat (destruct Hin as [<-|Hin];
          [split; [reflexivity|intros [H|[H|H]]; discriminate]|]).
  destruct Hin.
Defined.

(** The first cut of a text that is longer than the window, when the
    window has no sentence terminator after the first code unit but has a
    space there: the last space of the window. *)
Lemma cutIndex_space (text : jsstring) (chunkSize q : Z) :
  chunkSize < length text -> 0 < q <= chunkSize ->
  nth_error text (Z.to_nat q) = Some space ->
  (forall k, q < k <= chunkSize -> nth_error text (Z.to_nat k) <> Some space) ->
  (forall k d, 0 < k <= chunkSize -> nth_error text (Z.to_nat k) = Some d ->
               ~ isTerminator d) ->
  cutIndex text chunkSize 0 = q.
Proof.
  intros Hlen Hq Hs Hlast Hno. unfold cutIndex. simpl.
  replace (chunkSize <? length text) with true by (symmetry; apply Z.ltb_lt; lia).
  assert (Hle : forall d, isTerminator d -> lastIndexOf text d chunkSize <= 0).
  { intros d Hd. destruct (lastIndexOf_sound text d chunkSize) as [H|[H1 H2]]; [lia|].
    destruct (Z_le_gt_dec (lastIndexOf text d chunkSize) 0) as [Hok|Hgt]; [exact Hok|].
    exfalso. apply (Hno (lastIndexOf text d chunkSize) d); [lia|exact H2|exact Hd]. }
  pose proof (Hle dot (or_introl eq_refl)) as Hd.
  pose proof (Hle question (or_intror (or_introl eq_refl))) as Hq'.
  pose proof (Hle exclamation (or_intror (or_intror eq_refl))) as He.
  replace (Z.max (Z.max (lastIndexOf text dot chunkSize) (lastIndexOf text question chunkSize))
                 (lastIndexOf text exclamation chunkSize) >? 0) with false
    by (symmetry; rewrite Z.gtb_ltb; apply Z.ltb_ge; lia).
  assert (Hsp : lastIndexOf text space chunkSize = q).
  { pose proof (lastIndexOf_complete text space chunkSize q ltac:(lia) Hs) as Hge.
    destruct (lastIndexOf_sound text space chunkSize) as [H|[H1 H2]]; [lia|].
    destruct (Z.eq_dec (lastIndexOf text space chunkSize) q) as [E|E]; [exact E|].
    exfalso. apply (Hlast (lastIndexOf text space chunkSize)); [lia|exact H2]. }
  rewrite Hsp.
  replace (q >? 0) with true by (symmetry; apply Z.gtb_lt; lia).
  reflexivity.
Qed.

(** X3.  When the text is longer than the window, the window has no
    sentence terminator after the first code unit, and its last space is at
    offset [q > 0], the first cut is at [q]: the first segment is the trim
    of the text before that space, and the space goes to the next slice. *)
Theorem chunkText_word_boundary (text : jsstring) (chunkSize q : Z) (c : N) :
  1 <= chunkSize -> chunkSize < length text -> 0 < q <= chunkSize ->
  nth_error text (Z.to_nat q) = Some space ->
  (forall k, q < k <= chunkSize -> nth_error text (Z.to_nat k) <> Some space) ->
  (forall k d, 0 < k <= chunkSize -> nth_error text (Z.to_nat k) = Some d ->
               ~ isTerminator d) ->
  In c (slice text 0 q) -> isWhiteSpace c = false ->
  cutIndex text chunkSize 0 = q
  /\ hd_error (chunkText text chunkSize) = Some (trim (slice text 0 q)).
Proof.
  intros Hn Hlen Hq Hs Hlast Hno Hin Hws.
  pose proof (cutIndex_space text chunkSize q Hlen Hq Hs Hlast Hno) as Hcut.
  split; [exact Hcut|]. rewrite <- Hcut.
  apply (chunkText_first text chunkSize c); [lia|lia| |exact Hws].
  rewrite Hcut. exact Hin.
Qed.

Lemma chunkText_word_boundary_witness :
  hd_error (chunkText (str "uno dos tres cuatro") 10) = Some (str "uno dos").
Proof.
  refine (proj2 (chunkText_word_boundary (str "uno dos tres cuatro") 10 7 117%N
                   _ _ _ _ _ _ _ _)).
  - lia.
  - vm_compute. reflexivity.
  - lia.
  - reflexivity.
  - intros k Hk. assert (E : k = 8 \/ k = 9 \/ k = 10) by lia.
    destruct E as [-> | [-> | ->]]; discriminate.
  - intros k d Hk Hd Ht.
    assert (E : k = 1 \/ k = 2 \/ k = 3 \/ k = 4 \/ k = 5 \/ k = 6 \/ k = 7 \/ k = 8
                \/ k = 9 \/ k = 10) by lia.
    repeat (destruct E as [-> | E];
            [injection Hd as <-; destruct Ht as [Ht | [Ht | Ht]]; discriminate|]).
    subst k. injection Hd as <-. destruct Ht as [Ht | [Ht | Ht]]; discriminate.
  - vm_compute. tauto.
  - reflexivity.
Defined.

Lemma trim_blank (s : jsstring) : blank s -> trim s = [].
Proof.
  intros Hall. destruct (trim s) as [|c r] eqn:E; [reflexivity|].
  exfalso. unfold trim in E.
  destruct (trimEnd_split (trimStart s)) as [post [H2 _]].
  destruct (trimStart_split s) as [pre [H1 _]].
  assert (Hin : In c s).
  { rewrite H1. apply in_or_app. right. rewrite H2, E. left. reflexivity. }
  assert (Hc : isWhiteSpace c = false).
  { destruct (trimStart s) as [|x xs] eqn:Es.
    - unfold trimEnd in E. simpl in E. discriminate.
    - pose proof (trimStart_head _ _ _ Es) as Hx.
      destruct (trimEnd_head x xs Hx) as [r' Hr']. rewrite Hr' in E.
      injection E as <- _. exact Hx. }
  unfold blank in Hall. rewrite Forall_forall in Hall.
  rewrite (Hall c Hin) in Hc. discriminate.
Qed.

Lemma blank_trim (s : jsstring) : trim s = [] -> blank s.
Proof.
  intros Ht. destruct (trim_split s) as [before [after [Hs [H1 H2]]]].
  rewrite Hs, Ht. apply blank_app; assumption.
Qed.

Lemma blank_substringOf (s t : jsstring) : substringOf s t -> blank t -> blank s.
Proof.
  intros [before [after ->]] H. unfold blank in *.
  apply Forall_app in H. destruct H as [_ H].
  apply Forall_app in H. exact (proj1 H).
Qed.

Lemma chunkText_blank (text : jsstring) (chunkSize : Z) :
  1 <= chunkSize -> blank text -> chunkText text chunkSize = [].
Proof.
  intros Hn Hb. destruct (chunkText text chunkSize) as [|segment rest] eqn:E;
    [reflexivity|].
  exfalso.
  assert (Hin : In segment (chunkText text chunkSize)) by (rewrite E; left; reflexivity).
  destruct chunkText_segment_lemma as [_ Hpushed].
  destruct (Hpushed text chunkSize segment Hn Hin) as [a [b [_ [_ Hseg]]]].
  assert (Hne : nonEmpty segment = true).
  { destruct (chunkText_loop text chunkSize Hn) as [chunks [_ Hf]].
    rewrite Hf in Hin. exact (proj2 (proj1 (filter_In _ _ _) Hin)). }
  apply nonEmpty_true in Hne. apply Hne. rewrite Hseg.
  apply trim_blank. apply (blank_substringOf _ text); [apply slice_substringOf|exact Hb].
Qed.

(** X4.  A text that fits the window comes back whole: trimmed, as the
    only segment, or as no segment at all when it is white space only. *)
Theorem chunkText_fits (text : jsstring) (chunkSize : Z) :
  1 <= chunkSize -> length text <= chunkSize ->
  (blank text -> chunkText text chunkSize = [])
  /\ (~ blank text -> chunkText text chunkSize = [trim text]).
Proof.
  intros Hn Hlen.
  assert (H : chunkText text chunkSize = filter nonEmpty [trim text]).
  { destruct text as [|c text]; [reflexivity|].
    apply chunkText_short; [exact Hn|]. split; [|exact Hlen].
    unfold length. simpl. lia. }
  split.
  - intros Hall. rewrite H, (trim_blank _ Hall). reflexivity.
  - intros Hnb. rewrite H. simpl.
    destruct (nonEmpty (trim text)) eqn:E; [reflexivity|].
    exfalso. apply Hnb.
    apply blank_trim. destruct (trim text); [reflexivity|discriminate].
Qed.

Lemma chunkText_fits_witness :
  chunkText (str "  Hola, mundo ") 700 = [str "Hola, mundo"].
Proof.
  rewrite (proj2 (chunkText_fits (str "  Hola, mundo ") 700 ltac:(lia)
                                 ltac:(vm_compute; discriminate))); [reflexivity|].
  intros H. unfold blank in H. rewrite Forall_forall in H.
  specialize (H 72%N ltac:(vm_compute; tauto)). discriminate.
Defined.

Lemma chunkText_empty_iff_aux (text : jsstring) :
  chunkText text 700 = [] -> blank text.
Proof.
  intros He. unfold blank. apply Forall_forall. intros c Hin.
  destruct (isWhiteSpace c) eqn:Hc; [reflexivity|].
  exfalso. exact (chunkText_nonempty text 700 c ltac:(lia) Hin Hc He).
Qed.

(** X5.  For every chunk size of at least 1, [chunkText] returns no
    segment exactly when the text is empty or white space only. *)
Theorem chunkText_empty_iff (text : jsstring) (chunkSize : Z) :
  1 <= chunkSize -> (chunkText text chunkSize = [] <-> blank text).
Proof.
  intros Hn. split; [|apply chunkText_blank; exact Hn].
  intros He. unfold blank. apply Forall_forall. intros c Hin.
  destruct (isWhiteSpace c) eqn:Hc; [reflexivity|].
  exfalso. exact (chunkText_nonempty text chunkSize c Hn Hin Hc He).
Qed.

Lemma chunkText_empty_iff_witness : chunkText [space; LF; space] 5 = [].
Proof.
  apply (proj2 (chunkText_empty_iff [space; LF; space] 5 ltac:(lia))).
  repeat constructor.
Defined.

(** ** The stream of an answer *)

(** The stream for a reply that is an object with a non-empty string as
    [output]. *)
Lemma start_output (rt : Runtime) (input url : jsstring) (status : Z)
    (rawResponse : jsstring) (members : list (jsstring * JSON)) (text : jsstring) :
  ok status = true -> JSON_parse rawResponse = Some (JObj members) ->
  lookup members key_output = Some (JStr text) -> text <> [] ->
  start rt input url (FetchResponse status rawResponse)
  = Connected :: framed (chunkText text 700)
                   (whenTruthy (lookup members key_sources))
                   (whenTruthy (lookup members key_usage)) ++ [Done].
Proof.
  intros Hok Hp Ho Ht. rewrite (start_parsed rt input url status rawResponse _ Hok Hp).
  cbv beta iota zeta.
  change (prop (JObj members) key_output) with (lookup members key_output).
  rewrite Ho.
  assert (Htruthy : truthyProp (Some (JStr text)) = true).
  { simpl. destruct (JS.eqb text []) eqn:E; [|reflexivity].
    apply JS_eqb_eq in E. contradiction. }
  rewrite Htruthy. change (negb true) with false. cbv iota.
  unfold prop. rewrite Ho. reflexivity.
Qed.

(** X6.  A reply of the upstream with status 2xx that is an object whose
    [output] is a non-empty string is streamed as [Connected], the segments
    of that string for the chunk size 700, the last of them with the
    reply's [sources] and [usage] when they are truthy, and [Done]; the
    string is those segments with white space only around them. *)
Theorem reply_is_streamed (rt : Runtime) (env : Env) (body : ChatRequest) (status : Z)
    (rawResponse : jsstring) (members : list (jsstring * JSON)) (text : jsstring)
    (events : list StreamEvent) :
  POST rt env body (FetchResponse status rawResponse) = EventStream events ->
  ok status = true -> JSON_parse rawResponse = Some (JObj members) ->
  lookup members key_output = Some (JStr text) -> text <> [] ->
  events = Connected :: framed (chunkText text 700)
                          (whenTruthy (lookup members key_sources))
                          (whenTruthy (lookup members key_usage)) ++ [Done]
  /\ covers text (chunkText text 700).
Proof.
  intros HP Hok Hp Ho Ht.
  destruct (POST_stream _ _ _ _ _ HP) as [input [url [_ [_ ->]]]].
  split; [exact (start_output rt input url status rawResponse members text Hok Hp Ho Ht)|].
  destruct (chunkText_loop text 700 ltac:(lia)) as [chunks [Hloop ->]].
  exact (chunkLoop_covers_text text 700 ltac:(lia) _ 0 chunks ltac:(lia) Hloop).
Qed.

Lemma reply_is_streamed_witness :
  start runtime (str "Hola") webhookUrl
        (FetchResponse 200 (txt "{'output': 'Hola. Que tal?', 'usage': 0, 'sources': []}"))
  = [Connected; Chunk (str "Hola. Que tal?") true (Some (JArr [])) None; Done].
Proof.
  refine (eq_trans
            (proj1 (reply_is_streamed runtime env hola 200
                      (txt "{'output': 'Hola. Que tal?', 'usage': 0, 'sources': []}")
                      [(str "output", JStr (str "Hola. Que tal?"));
                       (str "usage", JNum 0 0); (str "sources", JArr [])]
                      (str "Hola. Que tal?") _ _ _ _ _ _)) _).
  - reflexivity.
  - reflexivity.
  - vm_compute. reflexivity.
  - reflexivity.
  - discriminate.
  - vm_compute. reflexivity.
Defined.

(** X7.  A reply with status 2xx whose [output] is a string of white space
    only is streamed as [Connected] and [Done] with no chunk in between: the
    [sources] and the [usage] of the reply are sent with no event. *)
Theorem blank_reply_is_silent (rt : Runtime) (env : Env) (body : ChatRequest) (status : Z)
    (rawResponse : jsstring) (members : list (jsstring * JSON)) (text : jsstring)
    (events : list StreamEvent) :
  POST rt env body (FetchResponse status rawResponse) = EventStream events ->
  ok status = true -> JSON_parse rawResponse = Some (JObj members) ->
  lookup members key_output = Some (JStr text) -> text <> [] -> blank text ->
  events = [Connected; Done].
Proof.
  intros HP Hok Hp Ho Ht Hb.
  destruct (POST_stream _ _ _ _ _ HP) as [input [url [_ [_ ->]]]].
  rewrite (start_output rt input url status rawResponse members text Hok Hp Ho Ht).
  rewrite (chunkText_blank text 700 ltac:(lia) Hb). reflexivity.
Qed.

Lemma blank_reply_is_silent_witness :
  start runtime (str "Hola") webhookUrl
        (FetchResponse 200 (txt "{'output': '   ', 'sources': [{'title': 'a'}]}"))
  = [Connected; Done].
Proof.
  refine (blank_reply_is_silent runtime env hola 200
            (txt "{'output': '   ', 'sources': [{'title': 'a'}]}")
            [(str "output", JStr (str "   "));
             (str "sources", JArr [JObj [(str "title", JStr (str "a"))]])]
            (str "   ") _ _ _ _ _ _ _).
  - reflexivity.
  - reflexivity.
  - vm_compute. reflexivity.
  - reflexivity.
  - discriminate.
  - repeat constructor.
Defined.







(** ** The records on the wire *)

Lemma notIn_forallb (c : N) (s : jsstring) :
  forallb (fun x => negb (N.eqb x c)) s = true -> ~ In c s.
Proof.
  intros H Hin. rewrite forallb_forall in H. specialize (H c Hin).
  rewrite N.eqb_refl in H. discriminate.
Qed.

Lemma readable_connected (rt : Runtime) : Wire.readable rt Connected.
Proof.
  split; [vm_compute; reflexivity|]. split; [|vm_compute; reflexivity].
  apply notIn_forallb. vm_compute. reflexivity.
Qed.

Lemma readable_done (rt : Runtime) : Wire.readable rt Done.
Proof.
  split; [vm_compute; reflexivity|]. split; [|vm_compute; reflexivity].
  apply notIn_forallb. vm_compute. reflexivity.
Qed.

Lemma slice_from_prefix (p s : jsstring) :
  slice_from (p ++ s) (length p) = s.
Proof.
  unfold slice_from. rewrite slice_nonneg by apply JS_length_nonneg.
  rewrite JS_length_app. pose proof (JS_length_nonneg p). pose proof (JS_length_nonneg s).
  rewrite Z.min_id, Z.min_l by lia. unfold length.
  rewrite Nat2Z.id. rewrite skipn_app, skipn_all, Nat.sub_diag. simpl.
  apply firstn_all2. lia.
Qed.

Lemma substring_tail (p s : jsstring) (k : Z) :
  0 <= k <= length p ->
  substring (p ++ s) k (length (p ++ s)) = skipn (Z.to_nat k) p ++ s.
Proof.
  intros Hk. unfold substring. rewrite JS_length_app.
  pose proof (JS_length_nonneg p). pose proof (JS_length_nonneg s).
  rewrite (Z.max_l k 0) by lia. rewrite (Z.max_l (length p + length s) 0) by lia.
  rewrite Z.min_id. rewrite (Z.min_l k) by lia.
  rewrite Z.max_r, Z.min_l by lia.
  unfold length in *. rewrite skipn_app.
  replace (Z.to_nat k - List.length p)%nat with 0%nat by lia. simpl skipn at 2.
  apply firstn_all2. rewrite List.length_app, List.length_skipn. lia.
Qed.

Lemma trim_after_space (s : jsstring) : trim (space :: s) = trim s.
Proof. reflexivity. Qed.

(** The lines of a text that starts with a record. *)
Lemma split_record_then (rt : Runtime) (ev : StreamEvent) (rest : jsstring) :
  ~ In LF (Wire.payload rt ev) ->
  split (Wire.record rt ev ++ rest) LF
  = (str "data: " ++ Wire.payload rt ev) :: [] :: split rest LF.
Proof.
  intros Hn. unfold Wire.record, split.
  replace ((str "data: " ++ Wire.payload rt ev ++ [LF; LF]) ++ rest)
    with ((str "data: " ++ Wire.payload rt ev) ++ LF :: LF :: rest)
    by (rewrite <- !app_assoc; reflexivity).
  rewrite split_scan_line.
  - reflexivity.
  - intros Hin. apply in_app_or in Hin. destruct Hin as [Hin|Hin]; [|contradiction].
    revert Hin. apply notIn_forallb. vm_compute. reflexivity.
Qed.

Lemma Submit_parsedLine_record (rt : Runtime) (ev : StreamEvent) :
  Wire.readable rt ev ->
  Submit.parsedLine (str "data: " ++ Wire.payload rt ev) = [Wire.object ev].
Proof.
  intros [Hp _]. unfold Submit.parsedLine.
  replace (startsWith (str "data: " ++ Wire.payload rt ev) Submit.prefix) with true
    by (symmetry; apply startsWith_spec; eexists; reflexivity).
  change 6 with (length (str "data: ")). rewrite slice_from_prefix, Hp. reflexivity.
Qed.

Lemma SendMessage_parsedLine_record (rt : Runtime) (ev : StreamEvent) :
  Wire.readable rt ev ->
  SendMessage.parsedLine (str "data: " ++ Wire.payload rt ev) = [Wire.object ev].
Proof.
  intros [Hp [_ Ht]]. unfold SendMessage.parsedLine.
  replace (startsWith (str "data: " ++ Wire.payload rt ev) SendMessage.prefix) with true
    by (symmetry; apply startsWith_spec; exists (space :: Wire.payload rt ev); reflexivity).
  rewrite (substring_tail (str "data: ") (Wire.payload rt ev) 5)
    by (vm_compute; split; discriminate).
  change (skipn (Z.to_nat 5) (str "data: ") ++ Wire.payload rt ev)
    with (space :: Wire.payload rt ev).
  rewrite trim_after_space, Ht, Hp. reflexivity.
Qed.

(** The values that the lines of whole records bring to a consumer. *)
Lemma lines_of_records (rt : Runtime) (parsedLine : jsstring -> list JSON)
    (group : list StreamEvent) :
  parsedLine [] = [] ->
  (forall ev, In ev group ->
              parsedLine (str "data: " ++ Wire.payload rt ev) = [Wire.object ev]) ->
  Forall (Wire.readable rt) group ->
  flat_map parsedLine (split (Wire.records rt group) LF) = map Wire.object group.
Proof.
  intros Hnil. induction group as [|ev group IH]; intros Hline Hr.
  - simpl. rewrite Hnil. reflexivity.
  - inversion Hr as [|? ? [_ [Hlf _]] Hr']; subst.
    change (Wire.records rt (ev :: group))
      with (Wire.record rt ev ++ Wire.records rt group).
    rewrite (split_record_then rt ev _ Hlf). cbn [flat_map].
    rewrite (Hline ev (or_introl eq_refl)), Hnil. cbn [app map].
    f_equal. apply IH; [|exact Hr'].
    intros ev' Hin. apply Hline. right. exact Hin.
Qed.

Lemma Submit_delivered_records (rt : Runtime) (groups : list (list StreamEvent)) :
  Forall (Wire.readable rt) (List.concat groups) ->
  Submit.delivered (map (Wire.records rt) groups) = map Wire.object (List.concat groups).
Proof.
  unfold Submit.delivered. induction groups as [|group groups IH]; intros Hr;
    [reflexivity|].
  simpl in Hr. apply Forall_app in Hr. destruct Hr as [Hg Hr].
  simpl. rewrite map_app. f_equal; [|exact (IH Hr)].
  apply lines_of_records; [reflexivity| |exact Hg].
  intros ev Hin. apply Submit_parsedLine_record.
  rewrite Forall_forall in Hg. exact (Hg ev Hin).
Qed.

Lemma SendMessage_delivered_records (rt : Runtime) (groups : list (list StreamEvent)) :
  Forall (Wire.readable rt) (List.concat groups) ->
  SendMessage.delivered (map (Wire.records rt) groups) = map Wire.object (List.concat groups).
Proof.
  rewrite SendMessage_delivered_lines.
  induction groups as [|group groups IH]; intros Hr; [reflexivity|].
  simpl in Hr. apply Forall_app in Hr. destruct Hr as [Hg Hr].
  simpl. rewrite map_app. f_equal; [|exact (IH Hr)].
  apply lines_of_records; [reflexivity| |exact Hg].
  intros ev Hin. apply SendMessage_parsedLine_record.
  rewrite Forall_forall in Hg. exact (Hg ev Hin).
Qed.

(** X9.  When every read of the body is made of whole records, however
    the records are grouped into reads, both consumers are brought exactly
    the values of the events that were sent, in their order, for every
    runtime whose [JSON.stringify] writes text that [JSON.parse] reads back,
    with no line feed in it and no white space around it. *)
Theorem records_are_delivered (rt : Runtime) (groups : list (list StreamEvent)) :
  Forall (Wire.readable rt) (List.concat groups) ->
  Submit.delivered (map (Wire.records rt) groups) = map Wire.object (List.concat groups)
  /\ SendMessage.delivered (map (Wire.records rt) groups)
     = map Wire.object (List.concat groups).
Proof.
  intros Hr. split.
  - exact (Submit_delivered_records rt groups Hr).
  - exact (SendMessage_delivered_records rt groups Hr).
Qed.

Lemma records_are_delivered_witness :
  Submit.delivered
    [txt "data: {'type': 'connected'}" ++ [LF; LF]
     ++ txt "data: {'type':'chunk','content':'Hola.','isLast':false}" ++ [LF; LF];
     [];
     txt "data: {'type':'chunk','content':'Que tal?','isLast':true,'usage':7}" ++ [LF; LF]
     ++ txt "data: {'type': 'done'}" ++ [LF; LF]]
  = map Wire.object
        [Connected; Chunk (str "Hola.") false None None;
         Chunk (str "Que tal?") true None (Some (JNum 7 0)); Done].
Proof.
  refine (eq_trans _
            (proj1 (records_are_delivered runtime
                      [[Connected; Chunk (str "Hola.") false None None];
                       [];
                       [Chunk (str "Que tal?") true None (Some (JNum 7 0)); Done]] _))).
  - vm_compute. reflexivity.
  - repeat constructor; try (vm_compute; reflexivity);
      apply notIn_forallb; vm_compute; reflexivity.
Defined.

(** ** What the events do to the messages of [ChatInterface] *)

Lemma Submit_handle_connected (rt : Runtime) (msgs : list Submit.Message) :
  Submit.handle rt msgs (Wire.object Connected) = msgs.
Proof. reflexivity. Qed.

Lemma Submit_handle_done (rt : Runtime) (msgs : list Submit.Message) :
  Submit.handle rt msgs (Wire.object Done) = msgs.
Proof. reflexivity. Qed.


Lemma Submit_onChunk_last (rt : Runtime) (data : JSON) (msgs : list Submit.Message)
    (content : jsstring) (sources usage : option JSON) :
  Submit.onChunk rt data
    (msgs ++ [{| Submit.type := Submit.assistant; Submit.content := content;
                 Submit.sources := sources; Submit.usage := usage |}])
  = msgs ++ [{| Submit.type := Submit.assistant;
                Submit.content :=
                  Submit.appendValue rt content (prop data Submit.key_content);
                Submit.sources := Submit.overwrite sources (prop data Submit.key_sources);
                Submit.usage := Submit.overwrite usage (prop data Submit.key_usage) |}].
Proof.
  unfold Submit.onChunk. rewrite rev_unit. cbn [Submit.type Submit.content
    Submit.sources Submit.usage]. rewrite rev_involutive. reflexivity.
Qed.

Lemma Submit_handle_chunk (rt : Runtime) (msgs : list Submit.Message)
    (content : jsstring) (sources usage : option JSON)
    (segment : jsstring) (isLast : bool) (sources' usage' : option JSON) :
  Submit.handle rt
    (msgs ++ [{| Submit.type := Submit.assistant; Submit.content := content;
                 Submit.sources := sources; Submit.usage := usage |}])
    (Wire.object (Chunk segment isLast sources' usage'))
  = msgs ++ [{| Submit.type := Submit.assistant; Submit.content := content ++ segment;
                Submit.sources := Submit.overwrite sources sources';
                Submit.usage := Submit.overwrite usage usage' |}].
Proof.
  unfold Submit.handle, Submit.dispatch.
  assert (Ht : prop (Wire.object (Chunk segment isLast sources' usage')) Submit.key_type
               = Some (JStr (str "chunk")))
    by (destruct sources', usage'; reflexivity).
  assert (Hc : prop (Wire.object (Chunk segment isLast sources' usage')) Submit.key_content
               = Some (JStr segment))
    by (destruct sources', usage'; reflexivity).
  assert (Hs : prop (Wire.object (Chunk segment isLast sources' usage')) Submit.key_sources
               = sources')
    by (destruct sources', usage'; reflexivity).
  assert (Hu : prop (Wire.object (Chunk segment isLast sources' usage')) Submit.key_usage
               = usage')
    by (destruct sources', usage'; reflexivity).
  change (Wire.object (Chunk segment isLast sources' usage'))
    with (JObj ([(Submit.key_type, JStr (str "chunk"));
                 (Submit.key_content, JStr segment);
                 (Wire.key_isLast, JBool isLast)]
                ++ Wire.spread Submit.key_sources sources'
                ++ Wire.spread Submit.key_usage usage')) in *.
  cbv iota. rewrite Ht.
  change (Submit.strictEq (Some (JStr (str "chunk"))) (str "chunk")) with true. cbv iota.
  rewrite Submit_onChunk_last, Hc, Hs, Hu. reflexivity.
Qed.

(** The chunk events of an answer, met by a trailing assistant message. *)
Lemma Submit_fold_framed (rt : Runtime) (msgs : list Submit.Message)
    (sources' usage' : option JSON) (segments : list jsstring) :
  forall content,
    segments <> [] ->
    fold_left (Submit.handle rt) (map Wire.object (framed segments sources' usage'))
      (msgs ++ [{| Submit.type := Submit.assistant; Submit.content := content;
                   Submit.sources := None; Submit.usage := None |}])
    = msgs ++ [{| Submit.type := Submit.assistant;
                  Submit.content := content ++ List.concat segments;
                  Submit.sources := whenTruthy sources';
                  Submit.usage := whenTruthy usage' |}].
Proof.
  induction segments as [|segment rest IH]; intros content Hne; [contradiction|].
  destruct rest as [|next rest].
  - cbn [framed map fold_left]. rewrite Submit_handle_chunk.
    cbn [List.concat]. rewrite app_nil_r. reflexivity.
  - change (framed (segment :: next :: rest) sources' usage')
      with (Chunk segment false None None :: framed (next :: rest) sources' usage').
    cbn [map fold_left]. rewrite Submit_handle_chunk.
    change (Submit.overwrite None None) with (@None JSON).
    rewrite IH by discriminate.
    cbn [List.concat]. rewrite <- app_assoc. reflexivity.
Qed.

(** What [handleSubmit] leaves when the body is read to its end. *)
Lemma handleSubmit_closed (rt : Runtime) (st : Submit.State) (reads : list jsstring) :
  trim (Submit.input st) <> [] -> Submit.isLoading st = false ->
  Submit.handleSubmit rt st (Submit.SendResponse true (Some (reads, Submit.Closed)))
  = {| Submit.messages :=
         fold_left (Submit.handle rt) (Submit.delivered reads)
           ((Submit.messages st
             ++ [{| Submit.type := Submit.user; Submit.content := trim (Submit.input st);
                    Submit.sources := None; Submit.usage := None |}])
            ++ [{| Submit.type := Submit.assistant; Submit.content := [];
                   Submit.sources := None; Submit.usage := None |}]);
       Submit.input := [];
       Submit.isLoading := false;
       Submit.error := None |}.
Proof.
  intros Ht Hl. unfold Submit.handleSubmit.
  replace (JS.eqb (trim (Submit.input st)) []) with false
    by (symmetry; destruct (JS.eqb (trim (Submit.input st)) []) eqn:E;
        [apply JS_eqb_eq in E; contradiction|reflexivity]).
  rewrite Hl. cbn [orb Submit.tryBlock]. rewrite Submit_readLoop_delivered. reflexivity.
Qed.

(** The turn when [JSON.parse] reads back exactly the values that
    [JSON.stringify] was given. *)
Lemma turn_is_displayed_exact (rt : Runtime) (env : Env) (st : Submit.State) (status : Z)
    (rawResponse : jsstring) (members : list (jsstring * JSON)) (text : jsstring)
    (events : list StreamEvent) (groups : list (list StreamEvent)) :
  trim (Submit.input st) <> [] -> Submit.isLoading st = false ->
  POST rt env (Interface.requestBody st) (FetchResponse status rawResponse)
  = EventStream events ->
  ok status = true -> JSON_parse rawResponse = Some (JObj members) ->
  lookup members key_output = Some (JStr text) -> ~ blank text ->
  List.concat groups = events -> Forall (Wire.readable rt) events ->
  Submit.handleSubmit rt st
    (Submit.SendResponse true (Some (map (Wire.records rt) groups, Submit.Closed)))
  = {| Submit.messages :=
         Submit.messages st
         ++ [{| Submit.type := Submit.user; Submit.content := trim (Submit.input st);
                Submit.sources := None; Submit.usage := None |};
             {| Submit.type := Submit.assistant;
                Submit.content := List.concat (chunkText text 700);
                Submit.sources := whenTruthy (lookup members key_sources);
                Submit.usage := whenTruthy (lookup members key_usage) |}];
       Submit.input := [];
       Submit.isLoading := false;
       Submit.error := None |}.
Proof.
  intros Ht Hl HP Hok Hp Ho Hnb Hg Hr.
  assert (Hne : text <> []) by (intros ->; apply Hnb; constructor).
  destruct (POST_stream _ _ _ _ _ HP) as [input [url [_ [_ He]]]].
  rewrite (start_output rt input url status rawResponse members text Hok Hp Ho Hne) in He.
  assert (Hseg : chunkText text 700 <> []).
  { intros E. apply Hnb. apply (chunkText_empty_iff_aux text E). }
  rewrite (handleSubmit_closed rt st _ Ht Hl).
  rewrite Submit_delivered_records by (rewrite Hg; exact Hr).
  rewrite Hg, He. cbn [map app fold_left]. rewrite Submit_handle_connected.
  rewrite map_app, fold_left_app. rewrite Submit_fold_framed by exact Hseg.
  cbn [map fold_left]. rewrite Submit_handle_done.
  unfold whenTruthy at 1 3.
  assert (Hidem : forall v : option JSON,
             (if truthyProp (if truthyProp v then v else None)
              then (if truthyProp v then v else None) else None)
             = whenTruthy v).
  { intros v. unfold whenTruthy. destruct (truthyProp v) eqn:E; [rewrite E|]; reflexivity. }
  rewrite <- app_assoc. cbn [app].
  unfold whenTruthy. rewrite !Hidem. reflexivity.
Qed.

(** *** Records read for what the consumers use of them *)

Lemma readable_legible (rt : Runtime) (ev : StreamEvent) :
  Wire.readable rt ev -> Wire.legible rt ev.
Proof.
  intros [Hp [Hlf Ht]]. unfold Wire.legible, Wire.parsed. rewrite Hp.
  split; [exact Hlf|]. split; [exact Ht|]. split; [discriminate|].
  split; [destruct ev; discriminate|]. repeat split; auto.
Qed.

Lemma legible_parsed (rt : Runtime) (ev : StreamEvent) :
  Wire.legible rt ev -> JSON_parse (Wire.payload rt ev) = Some (Wire.parsed rt ev).
Proof.
  intros [_ [_ [Hp _]]]. unfold Wire.parsed.
  destruct (JSON_parse (Wire.payload rt ev)); [reflexivity|contradiction].
Qed.

Lemma Submit_parsedLine_legible (rt : Runtime) (ev : StreamEvent) :
  Wire.legible rt ev ->
  Submit.parsedLine (str "data: " ++ Wire.payload rt ev) = [Wire.parsed rt ev].
Proof.
  intros Hl. unfold Submit.parsedLine.
  replace (startsWith (str "data: " ++ Wire.payload rt ev) Submit.prefix) with true
    by (symmetry; apply startsWith_spec; eexists; reflexivity).
  change 6 with (length (str "data: ")).
  rewrite slice_from_prefix, (legible_parsed rt ev Hl). reflexivity.
Qed.

Lemma SendMessage_parsedLine_legible (rt : Runtime) (ev : StreamEvent) :
  Wire.legible rt ev ->
  SendMessage.parsedLine (str "data: " ++ Wire.payload rt ev) = [Wire.parsed rt ev].
Proof.
  intros Hl. pose proof (legible_parsed rt ev Hl) as Hp. destruct Hl as [_ [Ht _]].
  unfold SendMessage.parsedLine.
  replace (startsWith (str "data: " ++ Wire.payload rt ev) SendMessage.prefix) with true
    by (symmetry; apply startsWith_spec; exists (space :: Wire.payload rt ev); reflexivity).
  rewrite (substring_tail (str "data: ") (Wire.payload rt ev) 5)
    by (vm_compute; split; discriminate).
  change (skipn (Z.to_nat 5) (str "data: ") ++ Wire.payload rt ev)
    with (space :: Wire.payload rt ev).
  rewrite trim_after_space, Ht, Hp. reflexivity.
Qed.

(** The values that the lines of whole records bring, as [JSON.parse]
    makes them. *)
Lemma lines_of_legible (rt : Runtime) (parsedLine : jsstring -> list JSON)
    (group : list StreamEvent) :
  parsedLine [] = [] ->
  (forall ev, In ev group ->
              parsedLine (str "data: " ++ Wire.payload rt ev) = [Wire.parsed rt ev]) ->
  Forall (Wire.legible rt) group ->
  flat_map parsedLine (split (Wire.records rt group) LF) = map (Wire.parsed rt) group.
Proof.
  intros Hnil. induction group as [|ev group IH]; intros Hline Hr.
  - simpl. rewrite Hnil. reflexivity.
  - pose proof (Forall_inv Hr) as [Hlf _]. pose proof (Forall_inv_tail Hr) as Hr'.
    change (Wire.records rt (ev :: group))
      with (Wire.record rt ev ++ Wire.records rt group).
    rewrite (split_record_then rt ev _ Hlf). cbn [flat_map].
    rewrite (Hline ev (or_introl eq_refl)), Hnil. cbn [app map].
    f_equal. apply IH; [|exact Hr'].
    intros ev' Hin. apply Hline. right. exact Hin.
Qed.

Lemma Submit_delivered_legible (rt : Runtime) (groups : list (list StreamEvent)) :
  Forall (Wire.legible rt) (List.concat groups) ->
  Submit.delivered (map (Wire.records rt) groups)
  = map (Wire.parsed rt) (List.concat groups).
Proof.
  unfold Submit.delivered. induction groups as [|group groups IH]; intros Hr;
    [reflexivity|].
  simpl in Hr. apply Forall_app in Hr. destruct Hr as [Hg Hr].
  simpl. rewrite map_app. f_equal; [|exact (IH Hr)].
  apply lines_of_legible; [reflexivity| |exact Hg].
  intros ev Hin. apply Submit_parsedLine_legible.
  rewrite Forall_forall in Hg. exact (Hg ev Hin).
Qed.

Lemma SendMessage_delivered_legible (rt : Runtime) (groups : list (list StreamEvent)) :
  Forall (Wire.legible rt) (List.concat groups) ->
  SendMessage.delivered (map (Wire.records rt) groups)
  = map (Wire.parsed rt) (List.concat groups).
Proof.
  rewrite SendMessage_delivered_lines.
  induction groups as [|group groups IH]; intros Hr; [reflexivity|].
  simpl in Hr. apply Forall_app in Hr. destruct Hr as [Hg Hr].
  simpl. rewrite map_app. f_equal; [|exact (IH Hr)].
  apply lines_of_legible; [reflexivity| |exact Hg].
  intros ev Hin. apply SendMessage_parsedLine_legible.
  rewrite Forall_forall in Hg. exact (Hg ev Hin).
Qed.

Lemma Submit_dispatch_value (rt : Runtime) (data : JSON) (msgs : list Submit.Message) :
  data <> JNull ->
  Submit.dispatch rt data msgs
  = if Submit.strictEq (prop data Submit.key_type) (str "chunk")
    then inr (Submit.onChunk rt data msgs)
    else if Submit.strictEq (prop data Submit.key_type) (str "error")
         then inl (Submit.ServerError (prop data Submit.key_error))
         else inr msgs.
Proof. intros Hn. destruct data; try reflexivity. contradiction. Qed.

Lemma chunk_object_props (segment : jsstring) (isLast : bool) (sources usage : option JSON) :
  prop (Wire.object (Chunk segment isLast sources usage)) Submit.key_type
  = Some (JStr (str "chunk"))
  /\ prop (Wire.object (Chunk segment isLast sources usage)) Submit.key_content
     = Some (JStr segment)
  /\ prop (Wire.object (Chunk segment isLast sources usage)) Submit.key_sources = sources
  /\ prop (Wire.object (Chunk segment isLast sources usage)) Submit.key_usage = usage.
Proof. destruct sources, usage; repeat split. Qed.

(** A value read from the record of a chunk, met by a trailing assistant
    message. *)
Lemma Submit_handle_read_chunk (rt : Runtime) (msgs : list Submit.Message)
    (content : jsstring) (sources usage : option JSON) (data : JSON)
    (segment : jsstring) (isLast : bool) (sources' usage' : option JSON) :
  Wire.reads data (Chunk segment isLast sources' usage') ->
  Submit.handle rt
    (msgs ++ [{| Submit.type := Submit.assistant; Submit.content := content;
                 Submit.sources := sources; Submit.usage := usage |}]) data
  = msgs ++ [{| Submit.type := Submit.assistant; Submit.content := content ++ segment;
                Submit.sources := Submit.overwrite sources (prop data Submit.key_sources);
                Submit.usage := Submit.overwrite usage (prop data Submit.key_usage) |}].
Proof.
  intros [Hn [Ht [Hc _]]].
  destruct (chunk_object_props segment isLast sources' usage') as [Ht' [Hc' _]].
  rewrite Ht' in Ht. rewrite Hc' in Hc.
  unfold Submit.handle. rewrite (Submit_dispatch_value rt data _ Hn), Ht.
  change (Submit.strictEq (Some (JStr (str "chunk"))) (str "chunk")) with true. cbv iota.
  rewrite Submit_onChunk_last, Hc. reflexivity.
Qed.

Lemma Submit_handle_read_plain (rt : Runtime) (msgs : list Submit.Message) (data : JSON)
    (ev : StreamEvent) :
  ev = Connected \/ ev = Done -> Wire.reads data ev -> Submit.handle rt msgs data = msgs.
Proof.
  intros Hev [Hn [Ht _]]. unfold Submit.handle.
  rewrite (Submit_dispatch_value rt data _ Hn), Ht.
  destruct Hev as [-> | ->]; reflexivity.
Qed.

(** The values read from the chunk events of an answer, met by a trailing
    assistant message: its content gets the segments, whatever the values
    of [sources] and [usage] are read as. *)
Lemma Submit_fold_framed_read (rt : Runtime) (msgs : list Submit.Message)
    (sources' usage' : option JSON) (segments : list jsstring) :
  forall content,
    segments <> [] ->
    Forall (fun ev => Wire.reads (Wire.parsed rt ev) ev) (framed segments sources' usage') ->
    exists sources usage,
      fold_left (Submit.handle rt)
        (map (Wire.parsed rt) (framed segments sources' usage'))
        (msgs ++ [{| Submit.type := Submit.assistant; Submit.content := content;
                     Submit.sources := None; Submit.usage := None |}])
      = msgs ++ [{| Submit.type := Submit.assistant;
                    Submit.content := content ++ List.concat segments;
                    Submit.sources := sources; Submit.usage := usage |}].
Proof.
  induction segments as [|segment rest IH]; intros content Hne Hall; [contradiction|].
  destruct rest as [|next rest].
  - cbn [framed map fold_left] in *.
    rewrite (Submit_handle_read_chunk rt msgs content None None _ segment true
               sources' usage' (Forall_inv Hall)).
    cbn [List.concat]. rewrite app_nil_r. eexists _, _. reflexivity.
  - change (framed (segment :: next :: rest) sources' usage')
      with (Chunk segment false None None :: framed (next :: rest) sources' usage') in *.
    cbn [map fold_left].
    pose proof (Forall_inv Hall) as Hread.
    rewrite (Submit_handle_read_chunk rt msgs content None None _ segment false
               None None Hread).
    destruct Hread as [_ [_ [_ [Hs Hu]]]].
    rewrite (Hs eq_refl), (Hu eq_refl).
    change (Submit.overwrite None None) with (@None JSON).
    destruct (IH (content ++ segment) ltac:(discriminate) (Forall_inv_tail Hall))
      as [sources [usage H]].
    exists sources, usage. rewrite H. cbn [List.concat]. rewrite <- app_assoc. reflexivity.
Qed.

(** X10.  A whole turn of [ChatInterface], from the route to the screen.
    The upstream answers 2xx with an object whose [output] is a string that
    is not blank, and every read of the body is made of whole records.  When
    the text that the runtime's [JSON.stringify] writes for each event has no
    line feed and no white space around it and is read by [JSON.parse] as a
    value with the [type] and the [content] of the event, which asks nothing
    of how numbers and nested values are written, the turn ends with no error
    and two new messages: the trimmed text of the user, and an assistant
    message whose content is the segments of the output one after the other,
    with nothing between them.  When moreover [JSON.parse] reads back exactly
    the values given to [JSON.stringify], the [sources] and the [usage] of
    that message are those of the reply when they are truthy. *)
Theorem turn_is_displayed (rt : Runtime) (env : Env) (st : Submit.State) (status : Z)
    (rawResponse : jsstring) (members : list (jsstring * JSON)) (text : jsstring)
    (events : list StreamEvent) (groups : list (list StreamEvent)) :
  trim (Submit.input st) <> [] -> Submit.isLoading st = false ->
  POST rt env (Interface.requestBody st) (FetchResponse status rawResponse)
  = EventStream events ->
  ok status = true -> JSON_parse rawResponse = Some (JObj members) ->
  lookup members key_output = Some (JStr text) -> ~ blank text ->
  List.concat groups = events ->
  (Forall (Wire.legible rt) events ->
   exists sources usage,
     Submit.handleSubmit rt st
       (Submit.SendResponse true (Some (map (Wire.records rt) groups, Submit.Closed)))
     = {| Submit.messages :=
            Submit.messages st
            ++ [{| Submit.type := Submit.user; Submit.content := trim (Submit.input st);
                   Submit.sources := None; Submit.usage := None |};
                {| Submit.type := Submit.assistant;
                   Submit.content := List.concat (chunkText text 700);
                   Submit.sources := sources;
                   Submit.usage := usage |}];
          Submit.input := [];
          Submit.isLoading := false;
          Submit.error := None |})
  /\ (Forall (Wire.readable rt) events ->
      Submit.handleSubmit rt st
        (Submit.SendResponse true (Some (map (Wire.records rt) groups, Submit.Closed)))
      = {| Submit.messages :=
             Submit.messages st
             ++ [{| Submit.type := Submit.user; Submit.content := trim (Submit.input st);
                    Submit.sources := None; Submit.usage := None |};
                 {| Submit.type := Submit.assistant;
                    Submit.content := List.concat (chunkText text 700);
                    Submit.sources := whenTruthy (lookup members key_sources);
                    Submit.usage := whenTruthy (lookup members key_usage) |}];
           Submit.input := [];
           Submit.isLoading := false;
           Submit.error := None |}).
Proof.
  intros Ht Hl HP Hok Hp Ho Hnb Hg. split.
  - intros Hr.
    assert (Hne : text <> []) by (intros ->; apply Hnb; constructor).
    destruct (POST_stream _ _ _ _ _ HP) as [input [url [_ [_ He]]]].
    rewrite (start_output rt input url status rawResponse members text Hok Hp Ho Hne) in He.
    assert (Hseg : chunkText text 700 <> []).
    { intros E. apply Hnb. apply (chunkText_empty_iff_aux text E). }
    assert (Hreads : Forall (fun ev => Wire.reads (Wire.parsed rt ev) ev) events).
    { revert Hr. apply Forall_impl. intros ev [_ [_ [_ H]]]. exact H. }
    rewrite (handleSubmit_closed rt st _ Ht Hl).
    rewrite Submit_delivered_legible by (rewrite Hg; exact Hr).
    rewrite Hg. rewrite He in Hreads |- *.
    pose proof (Forall_inv Hreads) as Hfirst.
    apply Forall_inv_tail in Hreads. apply Forall_app in Hreads.
    destruct Hreads as [Hchunks Hlast].
    cbn [map app fold_left].
    rewrite (Submit_handle_read_plain rt _ _ Connected (or_introl eq_refl) Hfirst).
    rewrite map_app, fold_left_app.
    destruct (Submit_fold_framed_read rt
                (Submit.messages st
                 ++ [{| Submit.type := Submit.user;
                        Submit.content := trim (Submit.input st);
                        Submit.sources := None; Submit.usage := None |}])
                (whenTruthy (lookup members key_sources))
                (whenTruthy (lookup members key_usage))
                (chunkText text 700) [] Hseg Hchunks) as [sources [usage Hfold]].
    rewrite Hfold. cbn [map fold_left].
    rewrite (Submit_handle_read_plain rt _ _ Done (or_intror eq_refl) (Forall_inv Hlast)).
    exists sources, usage. rewrite <- app_assoc. reflexivity.
  - intros Hr.
    exact (turn_is_displayed_exact rt env st status rawResponse members text events groups
             Ht Hl HP Hok Hp Ho Hnb Hg Hr).
Qed.

Lemma turn_is_displayed_witness :
  (exists sources usage,
      Submit.handleSubmit Engines.pointed typed
        (Submit.SendResponse true
           (Some (map (Wire.records Engines.pointed)
                      [[Connected; Chunk (repeat 97%N 699 ++ [dot]) false None None];
                       [Chunk (str "Fin.") true None (Some (JNum 7 0)); Done]],
                  Submit.Closed)))
      = {| Submit.messages :=
             [{| Submit.type := Submit.user; Submit.content := str "Hola";
                 Submit.sources := None; Submit.usage := None |};
              {| Submit.type := Submit.assistant;
                 Submit.content := repeat 97%N 699 ++ str ".Fin.";
                 Submit.sources := sources; Submit.usage := usage |}];
           Submit.input := [];
           Submit.isLoading := false;
           Submit.error := None |})
  /\ Submit.handleSubmit runtime typed
       (Submit.SendResponse true
          (Some (map (Wire.records runtime)
                     [[Connected; Chunk (repeat 97%N 699 ++ [dot]) false None None];
                      [Chunk (str "Fin.") true None (Some (JNum 7 0)); Done]],
                 Submit.Closed)))
     = {| Submit.messages :=
            [{| Submit.type := Submit.user; Submit.content := str "Hola";
                Submit.sources := None; Submit.usage := None |};
             {| Submit.type := Submit.assistant;
                Submit.content := repeat 97%N 699 ++ str ".Fin.";
                Submit.sources := None; Submit.usage := Some (JNum 7 0) |}];
          Submit.input := [];
          Submit.isLoading := false;
          Submit.error := None |}
  /\ ~ Wire.readable Engines.pointed (Chunk (str "Fin.") true None (Some (JNum 7 0))).
Proof.
  assert (Hnb : ~ blank (repeat 97%N 699 ++ str ". Fin.")).
  { intros H. unfold blank in H. rewrite Forall_forall in H.
    specialize (H 97%N (or_introl eq_refl)). discriminate. }
  split; [|split; [|intros [H _]; vm_compute in H; discriminate]].
  - destruct (proj1
                (turn_is_displayed Engines.pointed env typed 200
                   (txt "{'usage': 7, 'output': '" ++ repeat 97%N 699 ++ txt ". Fin.'}")
                   [(str "usage", JNum 7 0);
                    (str "output", JStr (repeat 97%N 699 ++ str ". Fin."))]
                   (repeat 97%N 699 ++ str ". Fin.")
                   [Connected; Chunk (repeat 97%N 699 ++ [dot]) false None None;
                    Chunk (str "Fin.") true None (Some (JNum 7 0)); Done]
                   [[Connected; Chunk (repeat 97%N 699 ++ [dot]) false None None];
                    [Chunk (str "Fin.") true None (Some (JNum 7 0)); Done]]
                   ltac:(vm_compute; discriminate) eq_refl
                   ltac:(vm_compute; reflexivity) eq_refl
                   ltac:(vm_compute; reflexivity) ltac:(vm_compute; reflexivity)
                   Hnb eq_refl))
      as [sources [usage H]].
    + repeat (apply Forall_cons;
              [split; [apply notIn_forallb; vm_compute; reflexivity|];
               split; [vm_compute; reflexivity|];
               split; [vm_compute; discriminate|];
               split; [vm_compute; discriminate|];
               split; [vm_compute; reflexivity|];
               split; [vm_compute; reflexivity|];
               split; intros H;
               first [vm_compute; reflexivity|vm_compute in H; discriminate]|]).
      apply Forall_nil.
    + exists sources, usage. refine (eq_trans H _).
      replace (List.concat (chunkText (repeat 97%N 699 ++ str ". Fin.") 700))
        with (repeat 97%N 699 ++ str ".Fin.") by (vm_compute; reflexivity).
      reflexivity.
  - refine (eq_trans
              (proj2
                 (turn_is_displayed runtime env typed 200
                    (txt "{'usage': 7, 'output': '" ++ repeat 97%N 699 ++ txt ". Fin.'}")
                    [(str "usage", JNum 7 0);
                     (str "output", JStr (repeat 97%N 699 ++ str ". Fin."))]
                    (repeat 97%N 699 ++ str ". Fin.")
                    [Connected; Chunk (repeat 97%N 699 ++ [dot]) false None None;
                     Chunk (str "Fin.") true None (Some (JNum 7 0)); Done]
                    [[Connected; Chunk (repeat 97%N 699 ++ [dot]) false None None];
                     [Chunk (str "Fin.") true None (Some (JNum 7 0)); Done]]
                    ltac:(vm_compute; discriminate) eq_refl
                    ltac:(vm_compute; reflexivity) eq_refl
                    ltac:(vm_compute; reflexivity) ltac:(vm_compute; reflexivity)
                    Hnb eq_refl) _) _).
    + repeat constructor; try (vm_compute; reflexivity);
        apply notIn_forallb; vm_compute; reflexivity.
    + vm_compute. reflexivity.
Defined.




(** One value of [data], met by a trailing assistant message: the message
    stays the last one and its content grows at the end. *)
Lemma Submit_handle_last (rt : Runtime) (msgs : list Submit.Message) (data : JSON)
    (content : jsstring) (sources usage : option JSON) :
  exists more sources' usage',
    Submit.handle rt
      (msgs ++ [{| Submit.type := Submit.assistant; Submit.content := content;
                   Submit.sources := sources; Submit.usage := usage |}]) data
    = msgs ++ [{| Submit.type := Submit.assistant; Submit.content := content ++ more;
                  Submit.sources := sources'; Submit.usage := usage' |}].
Proof.
  assert (Hsame : exists more sources' usage',
             msgs ++ [{| Submit.type := Submit.assistant; Submit.content := content;
                         Submit.sources := sources; Submit.usage := usage |}]
             = msgs ++ [{| Submit.type := Submit.assistant;
                           Submit.content := content ++ more;
                           Submit.sources := sources'; Submit.usage := usage' |}])
    by (exists [], sources, usage; rewrite app_nil_r; reflexivity).
  unfold Submit.handle, Submit.dispatch.
  destruct data; try exact Hsame;
    (destruct (Submit.strictEq _ (str "chunk"));
     [|destruct (Submit.strictEq _ (str "error")); exact Hsame]);
    rewrite Submit_onChunk_last; unfold Submit.appendValue;
    eexists _, _, _; reflexivity.
Qed.

Lemma Submit_fold_last (rt : Runtime) (msgs : list Submit.Message) (events : list JSON) :
  forall content sources usage,
  exists more sources' usage',
    fold_left (Submit.handle rt) events
      (msgs ++ [{| Submit.type := Submit.assistant; Submit.content := content;
                   Submit.sources := sources; Submit.usage := usage |}])
    = msgs ++ [{| Submit.type := Submit.assistant; Submit.content := content ++ more;
                  Submit.sources := sources'; Submit.usage := usage' |}].
Proof.
  induction events as [|data events IH]; intros content sources usage.
  - exists [], sources, usage. rewrite app_nil_r. reflexivity.
  - destruct (Submit_handle_last rt msgs data content sources usage)
      as [more [s' [u' H]]].
    cbn [fold_left]. rewrite H.
    destruct (IH (content ++ more) s' u') as [more' [s'' [u'' H']]].
    exists (more ++ more'), s'', u''. rewrite H', <- app_assoc. reflexivity.
Qed.

Lemma Submit_handle_user (rt : Runtime) (msgs : list Submit.Message) (data : JSON)
    (last : Submit.Message) :
  Submit.type last = Submit.user ->
  Submit.handle rt (msgs ++ [last]) data = msgs ++ [last].
Proof.
  intros Hu. unfold Submit.handle, Submit.dispatch.
  destruct data; try reflexivity;
    (destruct (Submit.strictEq _ (str "chunk"));
     [|destruct (Submit.strictEq _ (str "error")); reflexivity]);
    unfold Submit.onChunk; rewrite rev_unit, Hu; reflexivity.
Qed.

(** X12.  Whatever the reads bring, the loop of [handleSubmit] changes no
    message but a trailing assistant message, which stays the last one and
    whose content can only grow at its end; when the last message is one of
    the user, the loop changes nothing. *)
Theorem readLoop_keeps_history (rt : Runtime) (reads : list jsstring)
    (msgs : list Submit.Message) (last : Submit.Message) :
  (Submit.type last = Submit.assistant ->
   exists more sources usage,
     Submit.readLoop rt (msgs ++ [last]) reads
     = msgs ++ [{| Submit.type := Submit.assistant;
                   Submit.content := Submit.content last ++ more;
                   Submit.sources := sources; Submit.usage := usage |}])
  /\ (Submit.type last = Submit.user ->
      Submit.readLoop rt (msgs ++ [last]) reads = msgs ++ [last]).
Proof.
  rewrite Submit_readLoop_delivered. split; intros Ht.
  - destruct last as [t c s u]. simpl in Ht. subst t.
    exact (Submit_fold_last rt msgs (Submit.delivered reads) c s u).
  - induction (Submit.delivered reads) as [|data events IH]; [reflexivity|].
    cbn [fold_left]. rewrite Submit_handle_user by exact Ht. exact IH.
Qed.

Lemma readLoop_keeps_history_witness :
  exists more sources usage,
    Submit.readLoop runtime
      [{| Submit.type := Submit.user; Submit.content := str "Hola";
          Submit.sources := None; Submit.usage := None |};
       {| Submit.type := Submit.assistant; Submit.content := str "Que";
          Submit.sources := None; Submit.usage := None |}]
      [read1; read2]
    = [{| Submit.type := Submit.user; Submit.content := str "Hola";
          Submit.sources := None; Submit.usage := None |};
       {| Submit.type := Submit.assistant; Submit.content := str "Que" ++ more;
          Submit.sources := sources; Submit.usage := usage |}].
Proof.
  exact (proj1 (readLoop_keeps_history runtime [read1; read2]
                  [{| Submit.type := Submit.user; Submit.content := str "Hola";
                      Submit.sources := None; Submit.usage := None |}]
                  {| Submit.type := Submit.assistant; Submit.content := str "Que";
                     Submit.sources := None; Submit.usage := None |}) eq_refl).
Defined.

(** ** Retry and clear *)

Lemma handleRetry_last_user (msgs tail : list Submit.Message) (text input : jsstring)
    (isLoading : bool) (error : option jsstring) :
  Forall (fun m => Submit.type m = Submit.assistant) tail ->
  Submit.input
    (Interface.handleRetry
       {| Submit.messages :=
            (msgs ++ [{| Submit.type := Submit.user; Submit.content := text;
                         Submit.sources := None; Submit.usage := None |}]) ++ tail;
          Submit.input := input; Submit.isLoading := isLoading; Submit.error := error |})
  = text.
Proof.
  intros Htail. unfold Interface.handleRetry. cbn [Submit.messages].
  assert (Hf : filter Interface.isUser tail = []).
  { induction Htail as [|m tail Hm _ IH]; [reflexivity|].
    simpl. unfold Interface.isUser at 1. rewrite Hm. exact IH. }
  rewrite !filter_app, Hf, app_nil_r. cbn [filter].
  change (Interface.isUser
            {| Submit.type := Submit.user; Submit.content := text;
               Submit.sources := None; Submit.usage := None |}) with true.
  cbv iota. rewrite rev_unit.
  destruct ((msgs ++ [{| Submit.type := Submit.user; Submit.content := text;
                         Submit.sources := None; Submit.usage := None |}]) ++ tail)
    as [|m rest] eqn:E.
  - exfalso. apply app_eq_nil in E. destruct E as [E _].
    apply app_eq_nil in E. destruct E as [_ E]. discriminate.
  - reflexivity.
Qed.

Lemma dropEmptyAssistant_user (msgs : list Submit.Message) (last : Submit.Message) :
  Submit.type last = Submit.user -> Submit.dropEmptyAssistant (msgs ++ [last]) = msgs ++ [last].
Proof.
  intros Hu. unfold Submit.dropEmptyAssistant. rewrite rev_unit, Hu. reflexivity.
Qed.

Lemma dropEmptyAssistant_assistant (msgs : list Submit.Message) (content : jsstring)
    (sources usage : option JSON) :
  exists tail,
    Submit.dropEmptyAssistant
      (msgs ++ [{| Submit.type := Submit.assistant; Submit.content := content;
                   Submit.sources := sources; Submit.usage := usage |}])
    = msgs ++ tail
    /\ Forall (fun m => Submit.type m = Submit.assistant) tail.
Proof.
  unfold Submit.dropEmptyAssistant. rewrite rev_unit.
  cbn [Submit.type Submit.content]. destruct content as [|c content].
  - exists []. rewrite rev_involutive, app_nil_r. split; [reflexivity|constructor].
  - eexists. split; [reflexivity|]. repeat constructor.
Qed.

(** X13.  However a turn of [ChatInterface] ends, with or without an
    error, a click on retry right after it puts the trimmed text of that
    turn back into the input: the message of the user stays in the list, and
    no later message of the user can be there. *)
Theorem retry_restores_text (rt : Runtime) (st : Submit.State)
    (response : Submit.SendOutcome) :
  trim (Submit.input st) <> [] -> Submit.isLoading st = false ->
  Submit.input (Interface.handleRetry (Submit.handleSubmit rt st response))
  = trim (Submit.input st).
Proof.
  intros Ht Hl. unfold Submit.handleSubmit.
  replace (JS.eqb (trim (Submit.input st)) []) with false
    by (symmetry; destruct (JS.eqb (trim (Submit.input st)) []) eqn:E;
        [apply JS_eqb_eq in E; contradiction|reflexivity]).
  rewrite Hl. cbn [orb].
  set (userMessage := {| Submit.type := Submit.user; Submit.content := trim (Submit.input st);
                         Submit.sources := None; Submit.usage := None |}).
  assert (Hplain : forall message,
             Submit.input
               (Interface.handleRetry
                  {| Submit.messages :=
                       Submit.dropEmptyAssistant (Submit.messages st ++ [userMessage]);
                     Submit.input := []; Submit.isLoading := false;
                     Submit.error := Some message |})
             = trim (Submit.input st)).
  { intros message. rewrite dropEmptyAssistant_user by reflexivity.
    rewrite <- (app_nil_r (Submit.messages st ++ [userMessage])).
    apply handleRetry_last_user. constructor. }
  destruct response as [message|[|] [[reads ending]|]]; cbn [Submit.tryBlock];
    try apply Hplain.
  rewrite Submit_readLoop_delivered.
  destruct (Submit_fold_last rt (Submit.messages st ++ [userMessage])
              (Submit.delivered reads) [] None None) as [more [s [u Hloop]]].
  rewrite Hloop. cbn [app].
  destruct ending as [|message].
  - apply handleRetry_last_user. repeat constructor.
  - destruct (dropEmptyAssistant_assistant (Submit.messages st ++ [userMessage]) more s u)
      as [tail [Hdrop Htail]].
    rewrite Hdrop. apply handleRetry_last_user. exact Htail.
Qed.

Lemma retry_restores_text_witness :
  Submit.input
    (Interface.handleRetry
       (Submit.handleSubmit runtime
          {| Submit.messages := []; Submit.input := str "  Hola ";
             Submit.isLoading := false; Submit.error := None |}
          (Submit.SendResponse false None)))
  = str "Hola".
Proof.
  refine (retry_restores_text runtime
            {| Submit.messages := []; Submit.input := str "  Hola ";
               Submit.isLoading := false; Submit.error := None |}
            (Submit.SendResponse false None) _ _).
  - vm_compute. discriminate.
  - reflexivity.
Defined.

(** ** The loop of the chat page, chat by chat *)

Lemma withMessages_same (chat : Page.Chat) :
  Page.withMessages chat (Page.messages chat) = chat.
Proof. destruct chat. reflexivity. Qed.

Lemma updateCurrent_same (chatId : jsstring) (prev : list Page.Chat) :
  Page.updateCurrent chatId (fun chat => Page.withMessages chat (Page.messages chat)) prev
  = prev.
Proof.
  unfold Page.updateCurrent. rewrite <- (map_id prev) at 2. apply map_ext.
  intros chat. rewrite withMessages_same. destruct (JS.eqb _ _); reflexivity.
Qed.

Lemma local_eta (l' : SendMessage.Locals) (l : Page.Locals) :
  SendMessage.fullResponse l' = Page.fullResponse l ->
  SendMessage.lastChunk l' = Page.lastChunk l ->
  l' = Page.local l (SendMessage.messages l').
Proof. destruct l'. simpl. intros -> ->. reflexivity. Qed.

Lemma tracks_id (chatId : jsstring) (l : Page.Locals) :
  Page.tracks chatId (fun l => l) (fun l' => l') l.
Proof.
  split; [intros msgs; split; reflexivity|].
  cbn [Page.local SendMessage.messages]. rewrite updateCurrent_same. reflexivity.
Qed.

Lemma tracks_comp (chatId : jsstring) (f g : Page.Locals -> Page.Locals)
    (f' g' : SendMessage.Locals -> SendMessage.Locals) (l : Page.Locals) :
  Page.tracks chatId f f' l -> Page.tracks chatId g g' (f l) ->
  Page.tracks chatId (fun l => g (f l)) (fun l' => g' (f' l')) l.
Proof.
  intros [Hf1 Hf2] [Hg1 Hg2].
  assert (Heta : forall msgs,
             f' (Page.local l msgs)
             = Page.local (f l) (SendMessage.messages (f' (Page.local l msgs)))).
  { intros msgs. apply local_eta; apply (Hf1 msgs). }
  split.
  - intros msgs. rewrite (Heta msgs). apply Hg1.
  - rewrite Hg2, Hf2. unfold Page.updateCurrent. rewrite map_map. apply map_ext.
    intros chat. destruct (JS.eqb (Page.id chat) chatId) eqn:E.
    + cbn [Page.withMessages Page.id Page.messages]. rewrite E.
      rewrite <- Heta. reflexivity.
    + rewrite E. reflexivity.
Qed.

Lemma tracks_fold {A : Type} (chatId : jsstring) (f : Page.Locals -> A -> Page.Locals)
    (f' : SendMessage.Locals -> A -> SendMessage.Locals) (items : list A) :
  (forall item l, Page.tracks chatId (fun l => f l item) (fun l' => f' l' item) l) ->
  forall l, Page.tracks chatId (fun l => fold_left f items l)
                        (fun l' => fold_left f' items l') l.
Proof.
  intros Hstep. induction items as [|item items IH]; intros l.
  - apply tracks_id.
  - cbn [fold_left].
    exact (tracks_comp chatId (fun l => f l item) (fun l => fold_left f items l)
             (fun l' => f' l' item) (fun l' => fold_left f' items l') l
             (Hstep item l) (IH (f l item))).
Qed.

Lemma tracks_onLine (rt : Runtime) (chatId line : jsstring) (l : Page.Locals) :
  Page.tracks chatId (fun l => Page.onLine rt chatId l line)
              (fun l' => SendMessage.onLine rt l' line) l.
Proof.
  unfold Page.onLine, SendMessage.onLine, Page.tryLine, SendMessage.tryLine.
  destruct (startsWith line SendMessage.prefix); [|apply tracks_id].
  cbv zeta. destruct (trim (substring line 5 (length line))) as [|c jsonString];
    [apply tracks_id|].
  destruct (JSON_parse (c :: jsonString)) as [eventData|]; [|apply tracks_id].
  unfold Page.dispatch, SendMessage.dispatch.
  destruct eventData; try apply tracks_id;
    (destruct (Submit.strictEq _ (str "chunk"));
     [|destruct (Submit.strictEq _ (str "error")); apply tracks_id]);
    (split; [intros msgs; split; reflexivity|reflexivity]).
Qed.

Lemma tracks_onRead (rt : Runtime) (chatId chunk : jsstring) (l : Page.Locals) :
  Page.tracks chatId (fun l => Page.onRead rt chatId l chunk)
              (fun l' => SendMessage.onRead rt l' chunk) l.
Proof.
  unfold Page.onRead, SendMessage.onRead. cbv zeta.
  set (flag := fun l : Page.Locals =>
                 if includes chunk SendMessage.doneSignal
                 then {| Page.fullResponse := Page.fullResponse l; Page.lastChunk := true;
                         Page.shown := Page.shown l |}
                 else l).
  set (flag' := fun l' : SendMessage.Locals =>
                  if includes chunk SendMessage.doneSignal
                  then {| SendMessage.fullResponse := SendMessage.fullResponse l';
                          SendMessage.lastChunk := true;
                          SendMessage.messages := SendMessage.messages l' |}
                  else l').
  assert (Hflag : forall l, Page.tracks chatId flag flag' l).
  { intros l0. unfold flag, flag'.
    destruct (includes chunk SendMessage.doneSignal); [|apply tracks_id].
    split; [intros msgs; split; reflexivity|].
    cbn [Page.shown Page.local SendMessage.messages]. rewrite updateCurrent_same.
    reflexivity. }
  destruct (includes chunk SendMessage.prefix).
  - exact (tracks_comp chatId flag
             (fun l => fold_left (Page.onLine rt chatId) (split chunk LF) l)
             flag' (fun l' => fold_left (SendMessage.onLine rt) (split chunk LF) l') l
             (Hflag l)
             (tracks_fold chatId (Page.onLine rt chatId) (SendMessage.onLine rt) _
                (fun line l0 => tracks_onLine rt chatId line l0) (flag l))).
  - apply Hflag.
Qed.

(** The chats that the loop of [handleSendMessage] leaves: in every chat
    with the current id, the messages that the loop of [SendMessage] leaves
    when it is run on that chat's messages; the other chats as they were. *)
Lemma Page_readLoop_shown (rt : Runtime) (chatId : jsstring) (prev : list Page.Chat)
    (reads : list jsstring) :
  Page.shown
    (Page.readLoop rt chatId
       {| Page.fullResponse := []; Page.lastChunk := false; Page.shown := prev |} reads)
  = Page.updateCurrent chatId
      (fun chat =>
         Page.withMessages chat
           (SendMessage.messages
              (SendMessage.readLoop rt
                 {| SendMessage.fullResponse := []; SendMessage.lastChunk := false;
                    SendMessage.messages := Page.messages chat |} reads)))
      prev.
Proof.
  exact (proj2 (tracks_fold chatId (Page.onRead rt chatId) (SendMessage.onRead rt) reads
                  (fun chunk l => tracks_onRead rt chatId chunk l)
                  {| Page.fullResponse := []; Page.lastChunk := false;
                     Page.shown := prev |})).
Qed.

(** ** What the events do to the messages of a chat of the page *)

Lemma sameButFlag_refl (l : SendMessage.Locals) : sameButFlag l l.
Proof. split; reflexivity. Qed.

Lemma SendMessage_readLoop_messages (rt : Runtime) (l : SendMessage.Locals)
    (reads : list jsstring) :
  SendMessage.messages (SendMessage.readLoop rt l reads)
  = SendMessage.messages
      (fold_left (SendMessage.handle rt) (SendMessage.delivered reads) l).
Proof.
  exact (proj2 (SendMessage_readLoop_delivered rt reads l l (sameButFlag_refl l))).
Qed.

Lemma showPartial_after_user (full : jsstring) (msgs : list SendMessage.Message)
    (text : jsstring) :
  SendMessage.showPartial full
    (msgs ++ [{| SendMessage.role := SendMessage.user; SendMessage.content := text |}])
  = (msgs ++ [{| SendMessage.role := SendMessage.user; SendMessage.content := text |}])
    ++ [{| SendMessage.role := SendMessage.assistant; SendMessage.content := full |}].
Proof. unfold SendMessage.showPartial. rewrite rev_unit. reflexivity. Qed.

Lemma showPartial_after_assistant (full : jsstring) (msgs : list SendMessage.Message)
    (text : jsstring) :
  SendMessage.showPartial full
    (msgs ++ [{| SendMessage.role := SendMessage.assistant; SendMessage.content := text |}])
  = msgs ++ [{| SendMessage.role := SendMessage.assistant; SendMessage.content := full |}].
Proof.
  unfold SendMessage.showPartial. rewrite rev_unit.
  cbn [SendMessage.role]. rewrite rev_involutive. reflexivity.
Qed.

Lemma SendMessage_handle_connected (rt : Runtime) (l : SendMessage.Locals) :
  SendMessage.handle rt l (Wire.object Connected) = l.
Proof. reflexivity. Qed.

Lemma SendMessage_handle_done (rt : Runtime) (l : SendMessage.Locals) :
  SendMessage.handle rt l (Wire.object Done) = l.
Proof. reflexivity. Qed.


Lemma SendMessage_handle_chunk (rt : Runtime) (l : SendMessage.Locals)
    (segment : jsstring) (isLast : bool) (sources usage : option JSON) :
  SendMessage.handle rt l (Wire.object (Chunk segment isLast sources usage))
  = {| SendMessage.fullResponse := SendMessage.fullResponse l ++ segment;
       SendMessage.lastChunk := SendMessage.lastChunk l;
       SendMessage.messages :=
         SendMessage.showPartial (SendMessage.fullResponse l ++ segment)
           (SendMessage.messages l) |}.
Proof. destruct sources, usage; reflexivity. Qed.

(** The chunk events of an answer, once the partial answer is shown. *)
Lemma SendMessage_fold_chunks (rt : Runtime) (msgs : list SendMessage.Message)
    (flag : bool) (chunks : list StreamEvent) :
  Forall isChunk chunks ->
  forall full,
    fold_left (SendMessage.handle rt) (map Wire.object chunks)
      {| SendMessage.fullResponse := full; SendMessage.lastChunk := flag;
         SendMessage.messages :=
           msgs ++ [{| SendMessage.role := SendMessage.assistant;
                       SendMessage.content := full |}] |}
    = let full' :=
        full ++ List.concat
                  (map (fun ev => match ev with Chunk content _ _ _ => content | _ => [] end)
                       chunks) in
      {| SendMessage.fullResponse := full'; SendMessage.lastChunk := flag;
         SendMessage.messages :=
           msgs ++ [{| SendMessage.role := SendMessage.assistant;
                       SendMessage.content := full' |}] |}.
Proof.
  induction 1 as [|ev chunks Hev _ IH]; intros full.
  - cbn. rewrite app_nil_r. reflexivity.
  - destruct ev as [|content isLast sources usage| |]; try contradiction.
    cbn [map fold_left]. rewrite SendMessage_handle_chunk.
    cbn [SendMessage.fullResponse SendMessage.lastChunk SendMessage.messages].
    rewrite showPartial_after_assistant, IH. cbn [map List.concat].
    cbv zeta. rewrite <- app_assoc. reflexivity.
Qed.

Lemma framed_contents (segments : list jsstring) (sources usage : option JSON) :
  map (fun ev => match ev with Chunk content _ _ _ => content | _ => [] end)
      (framed segments sources usage)
  = segments.
Proof.
  induction segments as [|segment rest IH]; [reflexivity|].
  destruct rest as [|next rest]; [reflexivity|].
  change (framed (segment :: next :: rest) sources usage)
    with (Chunk segment false None None :: framed (next :: rest) sources usage).
  cbn [map]. rewrite IH. reflexivity.
Qed.

(** The events of an answer, met by the messages of a chat that end with
    the one of the user. *)
Lemma SendMessage_fold_answer (rt : Runtime) (msgs : list SendMessage.Message)
    (text : jsstring) (segments : list jsstring) (sources usage : option JSON) :
  segments <> [] ->
  SendMessage.messages
    (fold_left (SendMessage.handle rt)
       (map Wire.object (Connected :: framed segments sources usage ++ [Done]))
       {| SendMessage.fullResponse := []; SendMessage.lastChunk := false;
          SendMessage.messages :=
            msgs ++ [{| SendMessage.role := SendMessage.user;
                        SendMessage.content := text |}] |})
  = (msgs ++ [{| SendMessage.role := SendMessage.user; SendMessage.content := text |}])
    ++ [{| SendMessage.role := SendMessage.assistant;
           SendMessage.content := List.concat segments |}].
Proof.
  intros Hne. cbn [map fold_left]. rewrite SendMessage_handle_connected.
  rewrite map_app, fold_left_app. cbn [map fold_left]. rewrite SendMessage_handle_done.
  pose proof (framed_contents segments sources usage) as Hc.
  pose proof (framed_isChunk segments sources usage) as Hall.
  destruct (framed segments sources usage) as [|ev chunks] eqn:E.
  - destruct segments as [|s [|s' r]]; [contradiction|discriminate|discriminate].
  - pose proof (Forall_inv Hall) as Hev. pose proof (Forall_inv_tail Hall) as Hrest.
    destruct ev as [|content isLast s u| |]; try contradiction.
    cbn [map fold_left]. rewrite SendMessage_handle_chunk.
    cbn [SendMessage.fullResponse SendMessage.lastChunk SendMessage.messages app].
    rewrite showPartial_after_user.
    rewrite (SendMessage_fold_chunks rt _ false chunks Hrest content).
    cbv zeta. cbn [SendMessage.messages]. rewrite <- Hc. reflexivity.
Qed.

(** Whatever the events, the messages of a chat that end with the one of
    the user get at most one more, of the assistant, after it. *)
Lemma SendMessage_fold_history (rt : Runtime) (msgs : list SendMessage.Message)
    (text : jsstring) (events : list JSON) :
  forall l,
    (SendMessage.messages l
     = msgs ++ [{| SendMessage.role := SendMessage.user; SendMessage.content := text |}]
     \/ exists answer,
         SendMessage.messages l
         = (msgs ++ [{| SendMessage.role := SendMessage.user;
                        SendMessage.content := text |}])
           ++ [{| SendMessage.role := SendMessage.assistant;
                  SendMessage.content := answer |}]) ->
    exists tail,
      SendMessage.messages (fold_left (SendMessage.handle rt) events l)
      = (msgs ++ [{| SendMessage.role := SendMessage.user; SendMessage.content := text |}])
        ++ tail.
Proof.
  induction events as [|data events IH]; intros l Hl.
  - cbn [fold_left]. destruct Hl as [H|[answer H]]; rewrite H.
    + exists []. rewrite app_nil_r. reflexivity.
    + eexists. reflexivity.
  - cbn [fold_left]. apply IH.
    unfold SendMessage.handle, SendMessage.dispatch.
    destruct data; try exact Hl;
      (destruct (Submit.strictEq _ (str "chunk"));
       [|destruct (Submit.strictEq _ (str "error")); exact Hl]);
      right; cbn [SendMessage.messages];
      (destruct Hl as [H|[answer H]]; rewrite H;
       [rewrite showPartial_after_user|rewrite showPartial_after_assistant];
       eexists; reflexivity).
Qed.

(** ** A turn of the chat page *)

Lemma updateCurrent_comp (chatId : jsstring) (f g : Page.Chat -> Page.Chat)
    (prev : list Page.Chat) :
  (forall chat, Page.id (g chat) = Page.id chat) ->
  Page.updateCurrent chatId f (Page.updateCurrent chatId g prev)
  = Page.updateCurrent chatId (fun chat => f (g chat)) prev.
Proof.
  intros Hid. unfold Page.updateCurrent. rewrite map_map. apply map_ext.
  intros chat. destruct (JS.eqb (Page.id chat) chatId) eqn:E.
  - rewrite Hid, E. reflexivity.
  - rewrite E. reflexivity.
Qed.

Lemma updateCurrent_ext (chatId : jsstring) (f g : Page.Chat -> Page.Chat)
    (prev : list Page.Chat) :
  (forall chat, f chat = g chat) ->
  Page.updateCurrent chatId f prev = Page.updateCurrent chatId g prev.
Proof.
  intros H. unfold Page.updateCurrent. apply map_ext. intros chat. rewrite H. reflexivity.
Qed.

(** [handleSendMessage] past its two early returns. *)
Lemma handleSendMessage_sent (rt : Runtime) (error : jsstring) (st : Page.State)
    (response : Submit.SendOutcome) (chatId : jsstring) :
  Page.currentChatId st = Some chatId -> chatId <> [] ->
  trim (Page.input st) <> [] -> Page.isLoading st = false ->
  Page.lacksDocument (Page.currentChat st) = false ->
  Page.handleSendMessage rt error st response
  = {| Page.chats :=
         match Page.tryBlock rt chatId
                 (Page.updateCurrent chatId (Page.withUserMessage (Page.input st))
                    (Page.chats st)) response with
         | (after, false) => after
         | (after, true) =>
             Page.updateCurrent chatId (Page.withAssistantMessage error) after
         end;
       Page.currentChatId := Page.currentChatId st;
       Page.input := [];
       Page.isLoading := false;
       Page.showDeleteConfirm := Page.showDeleteConfirm st;
       Page.isAuthenticated := Page.isAuthenticated st;
       Page.username := Page.username st;
       Page.password := Page.password st |}.
Proof.
  intros Hc Hne Ht Hl Hd. unfold Page.handleSendMessage. rewrite Hc.
  destruct chatId as [|c rest]; [contradiction|].
  replace (JS.eqb (trim (Page.input st)) []) with false
    by (symmetry; destruct (JS.eqb (trim (Page.input st)) []) eqn:E;
        [apply JS_eqb_eq in E; contradiction|reflexivity]).
  rewrite Hl, Hd. reflexivity.
Qed.

(** The chats after a body that was read to its end. *)
Lemma tryBlock_closed (rt : Runtime) (chatId text : jsstring) (prev : list Page.Chat)
    (ok : bool) (reads : list jsstring) :
  Page.tryBlock rt chatId (Page.updateCurrent chatId (Page.withUserMessage text) prev)
    (Submit.SendResponse ok (Some (reads, Submit.Closed)))
  = (Page.updateCurrent chatId
       (fun chat =>
          Page.withMessages (Page.withUserMessage text chat)
            (SendMessage.messages
               (fold_left (SendMessage.handle rt) (SendMessage.delivered reads)
                  {| SendMessage.fullResponse := []; SendMessage.lastChunk := false;
                     SendMessage.messages :=
                       Page.messages chat
                       ++ [{| SendMessage.role := SendMessage.user;
                              SendMessage.content := text |}] |})))
       prev, false).
Proof.
  cbn [Page.tryBlock]. rewrite Page_readLoop_shown. f_equal.
  rewrite updateCurrent_comp by reflexivity.
  apply updateCurrent_ext. intros chat. rewrite SendMessage_readLoop_messages. reflexivity.
Qed.

Lemma SendMessage_dispatch_value (rt : Runtime) (data : JSON) (l : SendMessage.Locals) :
  data <> JNull ->
  SendMessage.dispatch rt data l
  = if Submit.strictEq (prop data Submit.key_type) (str "chunk") then
      inr {| SendMessage.fullResponse :=
               Submit.appendValue rt (SendMessage.fullResponse l)
                 (prop data Submit.key_content);
             SendMessage.lastChunk := SendMessage.lastChunk l;
             SendMessage.messages :=
               SendMessage.showPartial
                 (Submit.appendValue rt (SendMessage.fullResponse l)
                    (prop data Submit.key_content))
                 (SendMessage.messages l) |}
    else if Submit.strictEq (prop data Submit.key_type) (str "error")
         then inl (Submit.ServerError (prop data Submit.key_error))
         else inr l.
Proof. intros Hn. destruct data; try reflexivity. contradiction. Qed.

(** The chat page uses of a value its [type] and its [content] only: one
    that serves as an event does to it what the event's own value does. *)
Lemma SendMessage_handle_reads (rt : Runtime) (l : SendMessage.Locals) (data : JSON)
    (ev : StreamEvent) :
  Wire.reads data ev ->
  SendMessage.handle rt l data = SendMessage.handle rt l (Wire.object ev).
Proof.
  intros [Hn [Ht [Hc _]]]. unfold SendMessage.handle.
  rewrite (SendMessage_dispatch_value rt data l Hn).
  rewrite (SendMessage_dispatch_value rt (Wire.object ev) l)
    by (destruct ev; discriminate).
  rewrite Ht, Hc.
  destruct (Submit.strictEq (prop (Wire.object ev) Submit.key_type) (str "chunk"));
    [reflexivity|].
  destruct (Submit.strictEq (prop (Wire.object ev) Submit.key_type) (str "error"));
    reflexivity.
Qed.

Lemma SendMessage_fold_reads (rt : Runtime) (events : list StreamEvent) :
  Forall (fun ev => Wire.reads (Wire.parsed rt ev) ev) events ->
  forall l,
    fold_left (SendMessage.handle rt) (map (Wire.parsed rt) events) l
    = fold_left (SendMessage.handle rt) (map Wire.object events) l.
Proof.
  induction 1 as [|ev events Hev _ IH]; intros l; [reflexivity|].
  cbn [map fold_left]. rewrite (SendMessage_handle_reads rt l _ ev Hev). apply IH.
Qed.

(** X14.  A whole turn of the chat page, from the route to the screen.
    The upstream answers 2xx with an object whose [output] is a string that
    is not blank, and every read of the body is made of whole records.  When
    the text that the runtime's [JSON.stringify] writes for each event has no
    line feed and no white space around it and is read by [JSON.parse] as a
    value with the [type] and the [content] of the event, which asks nothing
    of how the [sources] and the [usage] are written, every chat with the
    current id gets the input as typed as a message of the user and, after
    it, one message of the assistant whose content is the segments of the
    output one after the other with nothing between them; the other chats
    stay as they were. *)
Theorem page_turn_is_displayed (rt : Runtime) (env : Env) (error : jsstring)
    (st : Page.State) (chatId : jsstring) (status : Z) (rawResponse : jsstring)
    (members : list (jsstring * JSON)) (text : jsstring) (events : list StreamEvent)
    (groups : list (list StreamEvent)) (ok' : bool) :
  Page.currentChatId st = Some chatId -> chatId <> [] ->
  trim (Page.input st) <> [] -> Page.isLoading st = false ->
  Page.lacksDocument (Page.currentChat st) = false ->
  POST rt env (Page.requestBody st) (FetchResponse status rawResponse)
  = EventStream events ->
  ok status = true -> JSON_parse rawResponse = Some (JObj members) ->
  lookup members key_output = Some (JStr text) -> ~ blank text ->
  List.concat groups = events -> Forall (Wire.legible rt) events ->
  Page.chats
    (Page.handleSendMessage rt error st
       (Submit.SendResponse ok' (Some (map (Wire.records rt) groups, Submit.Closed))))
  = Page.updateCurrent chatId
      (fun chat =>
         Page.withAssistantMessage (List.concat (chunkText text 700))
           (Page.withUserMessage (Page.input st) chat))
      (Page.chats st).
Proof.
  intros Hc Hid Ht Hl Hd HP Hok Hp Ho Hnb Hg Hr.
  assert (Hne : text <> []) by (intros ->; apply Hnb; constructor).
  destruct (POST_stream _ _ _ _ _ HP) as [input [url [_ [_ He]]]].
  rewrite (start_output rt input url status rawResponse members text Hok Hp Ho Hne) in He.
  assert (Hseg : chunkText text 700 <> []).
  { intros E. apply Hnb. apply (chunkText_empty_iff_aux text E). }
  assert (Hreads : Forall (fun ev => Wire.reads (Wire.parsed rt ev) ev) events).
  { revert Hr. apply Forall_impl. intros ev [_ [_ [_ H]]]. exact H. }
  rewrite (handleSendMessage_sent rt error st _ chatId Hc Hid Ht Hl Hd).
  cbn [Page.chats]. rewrite tryBlock_closed.
  apply updateCurrent_ext. intros chat.
  rewrite SendMessage_delivered_legible by (rewrite Hg; exact Hr).
  rewrite Hg. rewrite (SendMessage_fold_reads rt events Hreads).
  rewrite He. rewrite SendMessage_fold_answer by exact Hseg. reflexivity.
Qed.


Lemma Page_onRead_plain (rt : Runtime) (chatId chunk : jsstring) (l : Page.Locals) :
  includes chunk SendMessage.prefix = false ->
  Page.shown (Page.onRead rt chatId l chunk) = Page.shown l.
Proof.
  intros H. unfold Page.onRead. cbv zeta. rewrite H.
  destruct (includes chunk SendMessage.doneSignal); reflexivity.
Qed.

Lemma Page_readLoop_plain (rt : Runtime) (chatId : jsstring) (reads : list jsstring) :
  Forall (fun chunk => includes chunk SendMessage.prefix = false) reads ->
  forall l, Page.shown (Page.readLoop rt chatId l reads) = Page.shown l.
Proof.
  unfold Page.readLoop. induction 1 as [|chunk reads Hc _ IH]; intros l; [reflexivity|].
  cbn [fold_left]. rewrite IH. apply Page_onRead_plain. exact Hc.
Qed.

(** X16.  The chat page does not look at the status of the response: a
    body that is not an event stream, none of whose reads has the text
    [data:] in it, as the body of an answer 400 or 500 of the route, ends the
    turn with the message of the user as the only new message and nothing
    that tells of a failure. *)
Theorem page_ignores_status (rt : Runtime) (error : jsstring) (st : Page.State)
    (chatId : jsstring) (ok' : bool) (reads : list jsstring) :
  Page.currentChatId st = Some chatId -> chatId <> [] ->
  trim (Page.input st) <> [] -> Page.isLoading st = false ->
  Page.lacksDocument (Page.currentChat st) = false ->
  Forall (fun chunk => includes chunk SendMessage.prefix = false) reads ->
  Page.chats
    (Page.handleSendMessage rt error st
       (Submit.SendResponse ok' (Some (reads, Submit.Closed))))
  = Page.updateCurrent chatId (Page.withUserMessage (Page.input st)) (Page.chats st)
  /\ Page.isLoading
       (Page.handleSendMessage rt error st
          (Submit.SendResponse ok' (Some (reads, Submit.Closed))))
     = false.
Proof.
  intros Hc Hid Ht Hl Hd Hplain.
  rewrite (handleSendMessage_sent rt error st _ chatId Hc Hid Ht Hl Hd).
  cbn [Page.chats Page.isLoading Page.tryBlock].
  rewrite (Page_readLoop_plain rt chatId reads Hplain). split; reflexivity.
Qed.

Lemma page_turn_is_displayed_witness :
  Page.chats
    (Page.handleSendMessage Engines.pointed (str "Error") PageSamples.page
       (Submit.SendResponse true
          (Some (map (Wire.records Engines.pointed)
                     [[Connected; Chunk (repeat 97%N 699 ++ [dot]) false None None];
                      [Chunk (str "Fin.") true None (Some (JNum 7 0)); Done]],
                 Submit.Closed))))
  = [{| Page.id := str "1700000000000"; Page.title := str "Hola";
        Page.messages :=
          [{| SendMessage.role := SendMessage.user; SendMessage.content := str "Hola" |};
           {| SendMessage.role := SendMessage.assistant;
              SendMessage.content := repeat 97%N 699 ++ str ".Fin." |}];
        Page.backend := gemini; Page.chatbotId := None |};
     PageSamples.olderChat].
Proof.
  refine (eq_trans
            (page_turn_is_displayed Engines.pointed env (str "Error") PageSamples.page
               (str "1700000000000") 200
               (txt "{'usage': 7, 'output': '" ++ repeat 97%N 699 ++ txt ". Fin.'}")
               [(str "usage", JNum 7 0);
                (str "output", JStr (repeat 97%N 699 ++ str ". Fin."))]
               (repeat 97%N 699 ++ str ". Fin.")
               [Connected; Chunk (repeat 97%N 699 ++ [dot]) false None None;
                Chunk (str "Fin.") true None (Some (JNum 7 0)); Done]
               [[Connected; Chunk (repeat 97%N 699 ++ [dot]) false None None];
                [Chunk (str "Fin.") true None (Some (JNum 7 0)); Done]]
               true _ _ _ _ _ _ _ _ _ _ _ _) _).
  - reflexivity.
  - discriminate.
  - vm_compute. discriminate.
  - reflexivity.
  - reflexivity.
  - vm_compute. reflexivity.
  - reflexivity.
  - vm_compute. reflexivity.
  - vm_compute. reflexivity.
  - intros H. unfold blank in H. rewrite Forall_forall in H.
    specialize (H 97%N (or_introl eq_refl)). discriminate.
  - reflexivity.
  - repeat (apply Forall_cons;
            [split; [apply notIn_forallb; vm_compute; reflexivity|];
             split; [vm_compute; reflexivity|];
             split; [vm_compute; discriminate|];
             split; [vm_compute; discriminate|];
             split; [vm_compute; reflexivity|];
             split; [vm_compute; reflexivity|];
             split; intros H;
             first [vm_compute; reflexivity|vm_compute in H; discriminate]|]).
    apply Forall_nil.
  - vm_compute. reflexivity.
Defined.


Lemma page_ignores_status_witness :
  Page.chats
    (Page.handleSendMessage runtime (str "Error") PageSamples.page
       (Submit.SendResponse false
          (Some ([txt "{'error':'N8N configuration missing'}"], Submit.Closed))))
  = [{| Page.id := str "1700000000000"; Page.title := str "Hola";
        Page.messages :=
          [{| SendMessage.role := SendMessage.user; SendMessage.content := str "Hola" |}];
        Page.backend := gemini; Page.chatbotId := None |};
     PageSamples.olderChat].
Proof.
  refine (eq_trans
            (proj1 (page_ignores_status runtime (str "Error") PageSamples.page
                      (str "1700000000000") false
                      [txt "{'error':'N8N configuration missing'}"] _ _ _ _ _ _)) _).
  - reflexivity.
  - discriminate.
  - vm_compute. discriminate.
  - reflexivity.
  - reflexivity.
  - repeat constructor.
  - vm_compute. reflexivity.
Defined.

(** ** What the handlers of the page keep *)

Lemma grows_refl (current : option jsstring) (chat : Page.Chat) :
  Page.grows current chat chat.
Proof.
  repeat split; try reflexivity. exists []. rewrite app_nil_r. reflexivity.
Qed.

Lemma grows_updateCurrent (chatId : jsstring) (change : Page.Chat -> Page.Chat)
    (prev : list Page.Chat) :
  (forall chat,
      Page.id (change chat) = Page.id chat
      /\ Page.backend (change chat) = Page.backend chat
      /\ Page.chatbotId (change chat) = Page.chatbotId chat
      /\ exists more, Page.messages (change chat) = Page.messages chat ++ more) ->
  Forall2 (Page.grows (Some chatId)) prev (Page.updateCurrent chatId change prev).
Proof.
  intros H. induction prev as [|chat prev IH]; [constructor|].
  cbn [Page.updateCurrent map]. constructor; [|exact IH].
  destruct (JS.eqb (Page.id chat) chatId) eqn:E; [|apply grows_refl].
  destruct (H chat) as [H1 [H2 [H3 H4]]].
  repeat split; try assumption.
  intros Hne. exfalso. apply Hne. apply JS_eqb_eq in E. rewrite E. reflexivity.
Qed.

Lemma Forall2_refl {A : Type} (R : A -> A -> Prop) (l : list A) :
  (forall x, R x x) -> Forall2 R l l.
Proof. intros H. induction l; constructor; auto. Qed.

(** The chats that the [try] block of [handleSendMessage] leaves, and those
    after its [catch]. *)
Lemma tryBlock_shape (rt : Runtime) (chatId text error : jsstring) (prev : list Page.Chat)
    (response : Submit.SendOutcome) :
  exists change thrown,
    Page.tryBlock rt chatId (Page.updateCurrent chatId (Page.withUserMessage text) prev)
      response
    = (Page.updateCurrent chatId change prev, thrown)
    /\ forall chat,
         Page.id (change chat) = Page.id chat
         /\ Page.backend (change chat) = Page.backend chat
         /\ Page.chatbotId (change chat) = Page.chatbotId chat
         /\ exists more, Page.messages (change chat) = Page.messages chat ++ more.
Proof.
  assert (Hplain : forall chat,
             Page.id (Page.withUserMessage text chat) = Page.id chat
             /\ Page.backend (Page.withUserMessage text chat) = Page.backend chat
             /\ Page.chatbotId (Page.withUserMessage text chat) = Page.chatbotId chat
             /\ exists more,
                  Page.messages (Page.withUserMessage text chat)
                  = Page.messages chat ++ more)
    by (intros chat; repeat split; eexists; reflexivity).
  destruct response as [message|ok' [[reads ending]|]].
  - exists (Page.withUserMessage text), true. split; [reflexivity|exact Hplain].
  - exists (fun chat =>
              Page.withMessages (Page.withUserMessage text chat)
                (SendMessage.messages
                   (fold_left (SendMessage.handle rt) (SendMessage.delivered reads)
                      {| SendMessage.fullResponse := []; SendMessage.lastChunk := false;
                         SendMessage.messages :=
                           Page.messages chat
                           ++ [{| SendMessage.role := SendMessage.user;
                                  SendMessage.content := text |}] |}))),
           (match ending with Submit.Closed => false | Submit.ReadFailed _ => true end).
    split.
    + pose proof (tryBlock_closed rt chatId text prev ok' reads) as H.
      cbn [Page.tryBlock] in H |- *. injection H as H.
      destruct ending; rewrite H; reflexivity.
    + intros chat. repeat split.
      destruct (SendMessage_fold_history rt (Page.messages chat) text
                  (SendMessage.delivered reads)
                  {| SendMessage.fullResponse := []; SendMessage.lastChunk := false;
                     SendMessage.messages :=
                       Page.messages chat
                       ++ [{| SendMessage.role := SendMessage.user;
                              SendMessage.content := text |}] |}
                  (or_introl eq_refl)) as [tail Htail].
      cbn [Page.withMessages Page.messages]. rewrite Htail, <- app_assoc.
      eexists. reflexivity.
  - exists (Page.withUserMessage text), true. split; [reflexivity|exact Hplain].
Qed.

(** X17.  Whatever the answer, and whether it is sent or not,
    [handleSendMessage] does nothing to the chats but add messages at the end
    of those with the current id: it keeps the number and the order of the
    chats, the id, the backend and the document of each, every message that
    was there, every chat with another id as a whole, and the current id. *)
Theorem handleSendMessage_keeps_history (rt : Runtime) (error : jsstring)
    (st : Page.State) (response : Submit.SendOutcome) :
  Forall2 (Page.grows (Page.currentChatId st)) (Page.chats st)
          (Page.chats (Page.handleSendMessage rt error st response))
  /\ Page.currentChatId (Page.handleSendMessage rt error st response)
     = Page.currentChatId st.
Proof.
  assert (Hrefl : forall current,
             Forall2 (Page.grows current) (Page.chats st) (Page.chats st))
    by (intros current; apply Forall2_refl; intros; apply grows_refl).
  unfold Page.handleSendMessage.
  destruct (Page.currentChatId st) as [[|c rest]|] eqn:Hc;
    try (split; [apply Hrefl|exact Hc]).
  destruct (JS.eqb (trim (Page.input st)) [] || Page.isLoading st);
    [split; [apply Hrefl|exact Hc]|].
  destruct (Page.lacksDocument (Page.currentChat st)).
  - cbn [Page.chats Page.currentChatId]. split; [|first [exact Hc|reflexivity]].
    apply grows_updateCurrent. intros chat. repeat split. eexists. reflexivity.
  - cbv zeta. cbn [Page.chats Page.currentChatId]. split; [|first [exact Hc|reflexivity]].
    destruct (tryBlock_shape rt (c :: rest) (Page.input st) error (Page.chats st) response)
      as [change [thrown [Htry Hchange]]].
    rewrite Htry. destruct thrown.
    + rewrite updateCurrent_comp by (intros chat; apply (Hchange chat)).
      apply grows_updateCurrent. intros chat.
      destruct (Hchange chat) as [H1 [H2 [H3 [more H4]]]].
      repeat split; try assumption.
      exists (more ++ [{| SendMessage.role := SendMessage.assistant;
                          SendMessage.content := error |}]).
      cbn [Page.withAssistantMessage Page.withMessages Page.messages].
      rewrite H4, <- app_assoc. reflexivity.
    + apply grows_updateCurrent. exact Hchange.
Qed.

Lemma In_updateCurrent (chatId : jsstring) (change : Page.Chat -> Page.Chat)
    (prev : list Page.Chat) (chat : Page.Chat) :
  (forall chat, Page.id (change chat) = Page.id chat) ->
  In chat prev ->
  exists chat', In chat' (Page.updateCurrent chatId change prev)
                /\ Page.id chat' = Page.id chat.
Proof.
  intros Hid Hin.
  exists (if JS.eqb (Page.id chat) chatId then change chat else chat). split.
  - unfold Page.updateCurrent.
    exact (in_map (fun chat => if JS.eqb (Page.id chat) chatId then change chat else chat)
             prev chat Hin).
  - destruct (JS.eqb (Page.id chat) chatId); [apply Hid|reflexivity].
Qed.

Lemma tryBlock_titles (rt : Runtime) (chatId text : jsstring) (prev : list Page.Chat)
    (response : Submit.SendOutcome) :
  exists change thrown,
    Page.tryBlock rt chatId (Page.updateCurrent chatId (Page.withUserMessage text) prev)
      response
    = (Page.updateCurrent chatId change prev, thrown)
    /\ forall chat,
         Page.id (change chat) = Page.id chat
         /\ Page.title (change chat) = Page.title (Page.withUserMessage text chat).
Proof.
  destruct response as [message|ok' [[reads ending]|]].
  - exists (Page.withUserMessage text), true. split; [reflexivity|].
    intros chat. split; reflexivity.
  - eexists _, (match ending with Submit.Closed => false | Submit.ReadFailed _ => true end).
    split.
    + pose proof (tryBlock_closed rt chatId text prev ok' reads) as H.
      cbn [Page.tryBlock] in H |- *. injection H as H.
      destruct ending; rewrite H; reflexivity.
    + intros chat. split; reflexivity.
  - exists (Page.withUserMessage text), true. split; [reflexivity|].
    intros chat. split; reflexivity.
Qed.

Lemma updateCurrent_ids (chatId : jsstring) (change : Page.Chat -> Page.Chat)
    (prev : list Page.Chat) :
  (forall chat, Page.id (change chat) = Page.id chat) ->
  map Page.id (Page.updateCurrent chatId change prev) = map Page.id prev.
Proof.
  intros Hid. unfold Page.updateCurrent. rewrite map_map. apply map_ext.
  intros chat. destruct (JS.eqb (Page.id chat) chatId); [apply Hid|reflexivity].
Qed.

(** [handleSendMessage] keeps the ids of the chats and the current id. *)
Lemma handleSendMessage_ids (rt : Runtime) (error : jsstring) (st : Page.State)
    (response : Submit.SendOutcome) :
  map Page.id (Page.chats (Page.handleSendMessage rt error st response))
  = map Page.id (Page.chats st)
  /\ Page.currentChatId (Page.handleSendMessage rt error st response)
     = Page.currentChatId st.
Proof.
  unfold Page.handleSendMessage.
  destruct (Page.currentChatId st) as [[|c rest]|] eqn:Hc;
    try (split; [reflexivity|exact Hc]).
  destruct (JS.eqb (trim (Page.input st)) [] || Page.isLoading st);
    [split; [reflexivity|exact Hc]|].
  destruct (Page.lacksDocument (Page.currentChat st)).
  - cbn [Page.chats Page.currentChatId]. split; [|reflexivity].
    apply updateCurrent_ids. reflexivity.
  - cbv zeta. cbn [Page.chats Page.currentChatId]. split; [|reflexivity].
    destruct (tryBlock_titles rt (c :: rest) (Page.input st) (Page.chats st) response)
      as [change [thrown [Htry Hchange]]].
    rewrite Htry. destruct thrown.
    + rewrite !updateCurrent_ids; [reflexivity|apply Hchange|reflexivity].
    + apply updateCurrent_ids. apply Hchange.
Qed.

(** X18.  The current chat id of the page is [null] or the id of a chat
    of the list, and stays so whatever the user does: a new chat, a switch
    to a chat of the list, a deletion, a change of backend, a clearing, a
    message with any answer, a login or a logout. *)
Theorem page_stays_consistent (rt : Runtime) (action : Page.Action) (st : Page.State) :
  Page.consistent st -> Page.offered action st ->
  Page.consistent (Page.perform rt action st).
Proof.
  intros Hc Ho. destruct action as [now newChat|chatId|now newChat chatId|b| |error response| |];
    cbn [Page.perform].
  - unfold Page.consistent. cbn. eexists. split; [left; reflexivity|reflexivity].
  - exact Ho.
  - unfold Page.handleDeleteChat. cbv zeta.
    destruct (Page.isCurrent st chatId) eqn:Hcur.
    + destruct (filter _ (Page.chats st)) as [|first remaining] eqn:Hf.
      * unfold Page.consistent. cbn. eexists. split; [left; reflexivity|reflexivity].
      * unfold Page.consistent. cbn [Page.currentChatId Page.chats].
        exists first. split; [left; reflexivity|reflexivity].
    + unfold Page.consistent in *. cbn [Page.currentChatId Page.chats].
      unfold Page.isCurrent in Hcur.
      destruct (Page.currentChatId st) as [current|]; [|exact I].
      destruct Hc as [chat [Hin Hid]]. exists chat. split; [|exact Hid].
      apply filter_In. split; [exact Hin|]. rewrite Hid, Hcur. reflexivity.
  - unfold Page.handleSetBackend, Page.consistent in *.
    destruct (Page.currentChatId st) as [[|c rest]|] eqn:E; try (rewrite E; exact Hc).
    cbn [Page.withChats Page.currentChatId Page.chats]. rewrite E.
    destruct Hc as [chat [Hin Hid]].
    destruct (In_updateCurrent (c :: rest) (fun chat => Page.withBackend chat b)
                (Page.chats st) chat (fun _ => eq_refl) Hin) as [chat' [H1 H2]].
    exists chat'. split; [exact H1|]. rewrite H2. exact Hid.
  - unfold Page.handleClearChat, Page.consistent in *.
    destruct (Page.currentChatId st) as [[|c rest]|] eqn:E; try (rewrite E; exact Hc).
    cbn [Page.withChats Page.currentChatId Page.chats]. rewrite E.
    destruct Hc as [chat [Hin Hid]].
    destruct (In_updateCurrent (c :: rest) (fun chat => Page.withMessages chat [])
                (Page.chats st) chat (fun _ => eq_refl) Hin) as [chat' [H1 H2]].
    exists chat'. split; [exact H1|]. rewrite H2. exact Hid.
  - destruct (handleSendMessage_ids rt error st response) as [Hids Hsame].
    unfold Page.consistent in *. rewrite Hsame.
    destruct (Page.currentChatId st) as [current|]; [|exact I].
    destruct Hc as [chat [Hin Hid]].
    assert (Hmem : In current (map Page.id (Page.chats st)))
      by (rewrite <- Hid; exact (in_map Page.id _ chat Hin)).
    rewrite <- Hids in Hmem. apply in_map_iff in Hmem.
    destruct Hmem as [chat' [H1 H2]]. exists chat'. split; assumption.
  - unfold Page.handleLogin.
    destruct (negb _ && negb _); exact Hc.
  - exact I.
Qed.

Lemma page_stays_consistent_witness :
  Page.consistent
    (Page.perform runtime (Page.DeleteChat (str "1800000000000") (str "Nuevo chat")
                             (str "1700000000000"))
       PageSamples.page).
Proof.
  apply page_stays_consistent.
  - exists PageSamples.geminiChat. split; [left; reflexivity|reflexivity].
  - exact I.
Defined.

(** X19.  A chat asks for a document as long as it is as [handleNewChat]
    made it.  Right after [handleNewChat], with nothing but typing in
    between, a message is not sent: the new chat has the backend [python] and
    no document, so whatever is typed, and whatever the network would answer,
    the turn ends with that text as a message of the user and the request for
    a document as the answer, with the title of the chat unchanged.  This
    holds for that state only: once [handleSetBackend] has given the new chat
    the backend [gemini], the same message is sent, the chat gets its title,
    and a fetch that is rejected shows as the text for errors. *)
Theorem new_chat_asks_for_document (rt : Runtime) (now newChat error text : jsstring)
    (st : Page.State) (response : Submit.SendOutcome) (message : jsstring) :
  now <> [] -> trim text <> [] -> Page.isLoading st = false ->
  let typed := Page.setInput text (Page.handleNewChat now newChat st) in
  let chosen :=
    Page.setInput text (Page.handleSetBackend gemini (Page.handleNewChat now newChat st)) in
  hd_error (Page.chats (Page.handleSendMessage rt error typed response))
  = Some {| Page.id := now; Page.title := newChat;
            Page.messages :=
              [{| SendMessage.role := SendMessage.user; SendMessage.content := text |};
               {| SendMessage.role := SendMessage.assistant;
                  SendMessage.content := Page.needsDocument |}];
            Page.backend := python; Page.chatbotId := None |}
  /\ Page.input (Page.handleSendMessage rt error typed response) = []
  /\ Page.isLoading (Page.handleSendMessage rt error typed response) = false
  /\ Page.requestBody chosen = {| chatInput := Some text; backend := Some gemini |}
  /\ hd_error
       (Page.chats (Page.handleSendMessage rt error chosen (Submit.SendRejected message)))
     = Some {| Page.id := now; Page.title := Page.titleOf text;
               Page.messages :=
                 [{| SendMessage.role := SendMessage.user; SendMessage.content := text |};
                  {| SendMessage.role := SendMessage.assistant;
                     SendMessage.content := error |}];
               Page.backend := gemini; Page.chatbotId := None |}.
Proof.
  intros Hnow Ht Hl typed chosen.
  assert (Hguard : JS.eqb (trim text) [] = false).
  { destruct (JS.eqb (trim text) []) eqn:E; [|reflexivity].
    apply JS_eqb_eq in E. contradiction. }
  destruct now as [|c rest]; [contradiction|].
  assert (Hchosen : chosen
                    = {| Page.chats :=
                           {| Page.id := c :: rest; Page.title := newChat;
                              Page.messages := []; Page.backend := gemini;
                              Page.chatbotId := None |}
                           :: Page.updateCurrent (c :: rest)
                                (fun chat => Page.withBackend chat gemini) (Page.chats st);
                         Page.currentChatId := Some (c :: rest);
                         Page.input := text;
                         Page.isLoading := Page.isLoading st;
                         Page.showDeleteConfirm := Page.showDeleteConfirm st;
                         Page.isAuthenticated := Page.isAuthenticated st;
                         Page.username := Page.username st;
                         Page.password := Page.password st |}).
  { unfold chosen, Page.setInput, Page.handleSetBackend, Page.handleNewChat,
      Page.withChats.
    cbn [Page.currentChatId Page.chats Page.input Page.isLoading Page.showDeleteConfirm
         Page.isAuthenticated Page.username Page.password Page.updateCurrent map Page.id].
    rewrite JS_eqb_refl. reflexivity. }
  split; [|split; [|split; [|split]]].
  - unfold Page.handleSendMessage.
    change (Page.currentChatId typed) with (Some (c :: rest)).
    change (Page.input typed) with text.
    change (Page.isLoading typed) with (Page.isLoading st).
    rewrite Hguard, Hl. cbn [orb].
    assert (Hcur : Page.lacksDocument (Page.currentChat typed) = true).
    { unfold Page.currentChat. change (Page.currentChatId typed) with (Some (c :: rest)).
      cbn [Page.chats typed Page.setInput Page.handleNewChat find Page.id].
      rewrite JS_eqb_refl. reflexivity. }
    rewrite Hcur. cbn [Page.chats].
    cbn [typed Page.setInput Page.handleNewChat Page.chats Page.updateCurrent map Page.id].
    rewrite JS_eqb_refl. reflexivity.
  - unfold Page.handleSendMessage.
    change (Page.currentChatId typed) with (Some (c :: rest)).
    change (Page.input typed) with text.
    change (Page.isLoading typed) with (Page.isLoading st).
    rewrite Hguard, Hl. cbn [orb].
    destruct (Page.lacksDocument (Page.currentChat typed)); reflexivity.
  - unfold Page.handleSendMessage.
    change (Page.currentChatId typed) with (Some (c :: rest)).
    change (Page.input typed) with text.
    change (Page.isLoading typed) with (Page.isLoading st).
    rewrite Hguard, Hl. cbn [orb].
    destruct (Page.lacksDocument (Page.currentChat typed)); reflexivity.
  - rewrite Hchosen. unfold Page.requestBody, Page.currentChat.
    cbn [Page.currentChatId Page.chats Page.input find Page.id].
    rewrite JS_eqb_refl. reflexivity.
  - rewrite Hchosen. unfold Page.handleSendMessage.
    cbn [Page.currentChatId Page.input Page.isLoading].
    rewrite Hguard, Hl. cbn [orb].
    unfold Page.currentChat. cbn [Page.currentChatId Page.chats find Page.id].
    rewrite JS_eqb_refl. cbn [Page.lacksDocument Page.backend].
    cbv zeta. cbn [Page.tryBlock Page.chats Page.updateCurrent map Page.id].
    rewrite JS_eqb_refl. cbn [map Page.id]. rewrite JS_eqb_refl. reflexivity.
Qed.

Lemma new_chat_asks_for_document_witness :
  hd_error
    (Page.chats
       (Page.handleSendMessage runtime (str "Error")
          (Page.setInput (str "Hola")
             (Page.handleNewChat (str "1800000000000") (str "Nuevo chat") PageSamples.page))
          (Submit.SendResponse true (Some ([whole1; whole2], Submit.Closed)))))
  = Some {| Page.id := str "1800000000000"; Page.title := str "Nuevo chat";
            Page.messages :=
              [{| SendMessage.role := SendMessage.user; SendMessage.content := str "Hola" |};
               {| SendMessage.role := SendMessage.assistant;
                  SendMessage.content := Page.needsDocument |}];
            Page.backend := python; Page.chatbotId := None |}.
Proof.
  refine (proj1 (new_chat_asks_for_document runtime (str "1800000000000") (str "Nuevo chat")
                   (str "Error") (str "Hola") PageSamples.page
                   (Submit.SendResponse true (Some ([whole1; whole2], Submit.Closed)))
                   (str "fetch failed") _ _ _)).
  - discriminate.
  - vm_compute. discriminate.
  - reflexivity.
Defined.

Lemma find_id (chatId : jsstring) (prev : list Page.Chat) (chat : Page.Chat) :
  In chat prev -> Page.id chat = chatId ->
  find (fun chat => JS.eqb (Page.id chat) chatId) prev <> None.
Proof.
  intros Hin Hid. induction prev as [|x prev IH]; [destruct Hin|].
  cbn [find]. destruct (JS.eqb (Page.id x) chatId) eqn:E; [discriminate|].
  destruct Hin as [->|Hin]; [|exact (IH Hin)].
  rewrite Hid, JS_eqb_refl in E. discriminate.
Qed.

(** X20.  A deletion never leaves the page without a current chat: when
    the chat deleted is the current one, the first of the chats that remain
    becomes current, or a new chat when none remains; when it is another one,
    the current chat stays. *)
Theorem delete_keeps_a_current_chat (now newChat chatId : jsstring) (st : Page.State) :
  Page.consistent st -> Page.currentChatId st <> None ->
  Page.currentChat (Page.handleDeleteChat now newChat chatId st) <> None
  /\ Forall (fun chat => Page.id chat <> chatId \/ Page.id chat = now)
            (Page.chats (Page.handleDeleteChat now newChat chatId st)).
Proof.
  intros Hc Hsome.
  assert (Hrem : Forall (fun chat => Page.id chat <> chatId \/ Page.id chat = now)
                        (filter (fun chat => negb (JS.eqb (Page.id chat) chatId))
                                (Page.chats st))).
  { apply Forall_forall. intros chat Hin. apply filter_In in Hin. destruct Hin as [_ H].
    left. intros E. rewrite E, JS_eqb_refl in H. discriminate. }
  unfold Page.handleDeleteChat. cbv zeta.
  destruct (Page.isCurrent st chatId) eqn:Hcur.
  - destruct (filter _ (Page.chats st)) as [|first remaining] eqn:Hf.
    + split.
      * unfold Page.currentChat. cbn. rewrite JS_eqb_refl. discriminate.
      * cbn. constructor; [right; reflexivity|constructor].
    + split; [|exact Hrem].
      unfold Page.currentChat. cbn [Page.currentChatId Page.chats find].
      rewrite JS_eqb_refl. discriminate.
  - split; [|exact Hrem].
    unfold Page.currentChat, Page.consistent, Page.isCurrent in *.
    cbn [Page.currentChatId Page.chats].
    destruct (Page.currentChatId st) as [current|]; [|contradiction].
    destruct Hc as [chat [Hin Hid]].
    apply (find_id current _ chat); [|exact Hid].
    apply filter_In. split; [exact Hin|]. rewrite Hid, Hcur. reflexivity.
Qed.

Lemma delete_keeps_a_current_chat_witness :
  Page.currentChat
    (Page.handleDeleteChat (str "1800000000000") (str "Nuevo chat") (str "1700000000000")
       PageSamples.page)
  <> None.
Proof.
  refine (proj1 (delete_keeps_a_current_chat (str "1800000000000") (str "Nuevo chat")
                   (str "1700000000000") PageSamples.page _ _)).
  - exists PageSamples.geminiChat. split; [left; reflexivity|reflexivity].
  - discriminate.
Defined.

(** ** The account service *)

Lemma get_set_same {V : Type} (m : Auth.JsMap V) (key : jsstring) (v : V) :
  Auth.get (Auth.set m key v) key = Some v.
Proof.
  induction m as [|[k v'] m IH]; simpl.
  - rewrite JS_eqb_refl. reflexivity.
  - destruct (JS.eqb k key) eqn:E; simpl; rewrite E; [reflexivity|exact IH].
Qed.

Lemma get_set_other {V : Type} (m : Auth.JsMap V) (key other : jsstring) (v : V) :
  other <> key -> Auth.get (Auth.set m key v) other = Auth.get m other.
Proof.
  intros Hne. induction m as [|[k v'] m IH]; simpl.
  - destruct (JS.eqb key other) eqn:E; [|reflexivity].
    apply JS_eqb_eq in E. congruence.
  - destruct (JS.eqb k key) eqn:E; simpl.
    + apply JS_eqb_eq in E. subst k.
      destruct (JS.eqb key other) eqn:E'; [|reflexivity].
      apply JS_eqb_eq in E'. congruence.
    + rewrite IH. reflexivity.
Qed.

Lemma get_none_keys {V : Type} (m : Auth.JsMap V) (key : jsstring) :
  Auth.get m key = None <-> ~ In key (map fst m).
Proof.
  induction m as [|[k v] m IH]; simpl.
  - split; [intros _ []|reflexivity].
  - destruct (JS.eqb k key) eqn:E.
    + apply JS_eqb_eq in E. split; [discriminate|]. intros H. exfalso. apply H. left. exact E.
    + rewrite IH. split.
      * intros H [Hk|Hin]; [|exact (H Hin)].
        rewrite Hk, JS_eqb_refl in E. discriminate.
      * intros H Hin. apply H. right. exact Hin.
Qed.

Lemma set_fresh {V : Type} (m : Auth.JsMap V) (key : jsstring) (v : V) :
  Auth.get m key = None -> Auth.set m key v = m ++ [(key, v)].
Proof.
  induction m as [|[k v'] m IH]; simpl; [reflexivity|].
  destruct (JS.eqb k key); [discriminate|]. intros H. rewrite (IH H). reflexivity.
Qed.

Lemma set_keys {V : Type} (m : Auth.JsMap V) (key : jsstring) (v : V) :
  map fst (Auth.set m key v)
  = match Auth.get m key with
    | Some _ => map fst m
    | None => map fst m ++ [key]
    end.
Proof.
  induction m as [|[k v'] m IH]; simpl; [reflexivity|].
  destruct (JS.eqb k key) eqn:E; simpl; [reflexivity|].
  rewrite IH. destruct (Auth.get m key); reflexivity.
Qed.

Lemma set_keyed {V : Type} (name : V -> jsstring) (m : Auth.JsMap V) (key : jsstring)
    (v : V) :
  name v = key ->
  Forall (fun entry => fst entry = name (snd entry)) m ->
  NoDup (map fst m) ->
  Forall (fun entry => fst entry = name (snd entry)) (Auth.set m key v)
  /\ NoDup (map fst (Auth.set m key v)).
Proof.
  intros Hv Hall Hnd. split.
  - clear Hnd. induction Hall as [|[k v'] m Hk Htail IH]; simpl.
    + constructor; [simpl; congruence|constructor].
    + destruct (JS.eqb k key) eqn:E.
      * apply JS_eqb_eq in E. constructor; [simpl; congruence|exact Htail].
      * constructor; [exact Hk|exact IH].
  - rewrite set_keys. destruct (Auth.get m key) eqn:E; [exact Hnd|].
    apply get_none_keys in E.
    apply NoDup_app; [exact Hnd|repeat constructor; intros []|].
    intros k Hin [<-|[]]. exact (E Hin).
Qed.

Lemma verifyPassword_hash (password wrong : jsstring) :
  Auth.verifyPassword wrong (Auth.hashPassword password) = true <-> wrong = password.
Proof.
  unfold Auth.verifyPassword, Auth.hashPassword. rewrite JS_eqb_eq. split.
  - intros H. apply app_inv_head in H. congruence.
  - intros ->. reflexivity.
Qed.

(** Under its name, a user is found by the scan of [registerUser] exactly
    when [get] finds one. *)
Lemma scan_is_get (m : Auth.JsMap Auth.User) (name : jsstring) :
  Forall (fun entry => fst entry = Auth.username (snd entry)) m ->
  existsb (fun user => JS.eqb (Auth.username user) name) (Auth.values m)
  = match Auth.get m name with
    | Some _ => true
    | None => false
    end.
Proof.
  induction 1 as [|[k user] m Hk _ IH]; simpl; [reflexivity|].
  simpl in Hk. subst k. destruct (JS.eqb (Auth.username user) name); [reflexivity|].
  exact IH.
Qed.

(** X21.  After a registration that succeeds, the same name and password
    authenticate, with a session for the id of the new user, and no other
    password does: the attempt is answered like one for an unknown name and
    leaves the store as it was. *)
Theorem register_then_authenticate (now name password generated : jsstring)
    (s : Auth.Store) :
  Auth.success (snd (Auth.registerUser now name password s)) = true ->
  let s1 := fst (Auth.registerUser now name password s) in
  Auth.authenticateUser generated name password s1
  = ({| Auth.users := Auth.users s1;
        Auth.sessions :=
          Auth.set (Auth.sessions s1) generated
            {| Auth.sessionId := generated; Auth.userId := now |} |},
     {| Auth.success := true; Auth.message := str "Authentication successful";
        Auth.issued := Some generated |})
  /\ (forall wrong,
         wrong <> password ->
         Auth.authenticateUser generated name wrong s1
         = (s1, {| Auth.success := false; Auth.message := str "Invalid credentials";
                   Auth.issued := None |}))
  /\ (forall unknown,
         Auth.get (Auth.users s1) unknown = None ->
         Auth.authenticateUser generated unknown password s1
         = (s1, {| Auth.success := false; Auth.message := str "Invalid credentials";
                   Auth.issued := None |})).
Proof.
  unfold Auth.registerUser.
  destruct (existsb _ (Auth.values (Auth.users s))); [discriminate|].
  cbv zeta. cbn [fst snd Auth.success]. intros _.
  unfold Auth.authenticateUser. cbn [Auth.users Auth.sessions].
  rewrite get_set_same. cbn [Auth.passwordHash Auth.id]. split; [|split].
  - replace (Auth.verifyPassword password (Auth.hashPassword password)) with true
      by (symmetry; apply verifyPassword_hash; reflexivity).
    reflexivity.
  - intros wrong Hw.
    destruct (Auth.verifyPassword wrong (Auth.hashPassword password)) eqn:E; [|reflexivity].
    apply verifyPassword_hash in E. contradiction.
  - intros unknown Hu. rewrite Hu. reflexivity.
Qed.

Lemma register_then_authenticate_witness :
  Auth.authenticateUser (str "k3j2h1") (str "ana") (str "secreto")
    (fst (Auth.registerUser (str "1700000000000") (str "ana") (str "secreto") Auth.empty))
  = ({| Auth.users :=
          [(str "ana", {| Auth.id := str "1700000000000"; Auth.username := str "ana";
                          Auth.passwordHash := str "hashed_secreto" |})];
        Auth.sessions :=
          [(str "k3j2h1", {| Auth.sessionId := str "k3j2h1";
                             Auth.userId := str "1700000000000" |})] |},
     {| Auth.success := true; Auth.message := str "Authentication successful";
        Auth.issued := Some (str "k3j2h1") |}).
Proof.
  exact (proj1 (register_then_authenticate (str "1700000000000") (str "ana")
                  (str "secreto") (str "k3j2h1") Auth.empty eq_refl)).
Defined.

Lemma registerUser_cases (now name password : jsstring) (s : Auth.Store) :
  Forall (fun entry => fst entry = Auth.username (snd entry)) (Auth.users s) ->
  Auth.registerUser now name password s
  = match Auth.get (Auth.users s) name with
    | Some _ =>
        (s, {| Auth.success := false; Auth.message := str "Username already exists";
               Auth.issued := None |})
    | None =>
        ({| Auth.users :=
              Auth.users s
              ++ [(name, {| Auth.id := now; Auth.username := name;
                            Auth.passwordHash := Auth.hashPassword password |})];
            Auth.sessions := Auth.sessions s |},
         {| Auth.success := true; Auth.message := str "User registered successfully";
            Auth.issued := Some now |})
    end.
Proof.
  intros Hk. unfold Auth.registerUser. rewrite (scan_is_get _ name Hk).
  destruct (Auth.get (Auth.users s) name) eqn:E; [reflexivity|].
  cbv zeta. rewrite (set_fresh _ _ _ E). reflexivity.
Qed.

Lemma get_app_other {V : Type} (m : Auth.JsMap V) (key other : jsstring) (v : V) :
  other <> key -> Auth.get (m ++ [(key, v)]) other = Auth.get m other.
Proof.
  intros Hne. induction m as [|[k v'] m IH]; simpl.
  - destruct (JS.eqb key other) eqn:E; [|reflexivity].
    apply JS_eqb_eq in E. congruence.
  - rewrite IH. reflexivity.
Qed.

Lemma call_keyed (c : Auth.Call) (s : Auth.Store) :
  Auth.keyed s -> Auth.keyed (fst (Auth.call c s)).
Proof.
  intros [Hu [Hun [Hs Hsn]]]. destruct c as [now name password|generated name password|session];
    cbn [Auth.call].
  - unfold Auth.registerUser.
    destruct (existsb _ (Auth.values (Auth.users s))); [repeat split; assumption|].
    cbv zeta. cbn [fst].
    destruct (set_keyed Auth.username (Auth.users s) name
                {| Auth.id := now; Auth.username := name;
                   Auth.passwordHash := Auth.hashPassword password |}
                eq_refl Hu Hun) as [H1 H2].
    repeat split; assumption.
  - unfold Auth.authenticateUser.
    destruct (Auth.get (Auth.users s) name) as [user|]; [|repeat split; assumption].
    destruct (Auth.verifyPassword password (Auth.passwordHash user));
      [|repeat split; assumption].
    cbn [fst].
    destruct (set_keyed Auth.sessionId (Auth.sessions s) generated
                {| Auth.sessionId := generated; Auth.userId := Auth.id user |}
                eq_refl Hs Hsn) as [H1 H2].
    repeat split; assumption.
  - unfold Auth.logoutUser, Auth.delete. cbn [fst Auth.users Auth.sessions].
    repeat split; try assumption.
    + apply Forall_forall. intros entry Hin. apply filter_In in Hin.
      rewrite Forall_forall in Hs. apply Hs. apply Hin.
    + clear Hs. induction (Auth.sessions s) as [|[k v] m IH]; [constructor|].
      simpl in Hsn |- *. inversion Hsn as [|? ? Hnot Hrest]; subst.
      destruct (JS.eqb k session); simpl; [exact (IH Hrest)|].
      constructor; [|exact (IH Hrest)].
      intros Hin. apply Hnot. apply in_map_iff in Hin. destruct Hin as [entry [He Hin]].
      apply filter_In in Hin. apply in_map_iff. exists entry. split; [exact He|apply Hin].
Qed.

(** X22.  The users are kept under their names and the sessions under
    their ids, with no key twice, in the empty store and after every call of
    the service; and then a registration succeeds exactly when the name is
    free, it adds the new user after the others and changes none of them,
    and one that fails changes nothing. *)
Theorem registration_keeps_accounts (c : Auth.Call) (now name password : jsstring)
    (s : Auth.Store) :
  Auth.keyed s ->
  Auth.keyed (fst (Auth.call c s))
  /\ (Auth.success (snd (Auth.registerUser now name password s)) = true
      <-> Auth.get (Auth.users s) name = None)
  /\ (forall other,
         other <> name ->
         Auth.get (Auth.users (fst (Auth.registerUser now name password s))) other
         = Auth.get (Auth.users s) other)
  /\ (Auth.success (snd (Auth.registerUser now name password s)) = false ->
      fst (Auth.registerUser now name password s) = s)
  /\ exists added,
       Auth.getAllUsers (fst (Auth.registerUser now name password s))
       = Auth.getAllUsers s ++ added.
Proof.
  intros Hk. split; [exact (call_keyed c s Hk)|].
  rewrite (registerUser_cases now name password s (proj1 Hk)).
  destruct (Auth.get (Auth.users s) name) as [user|] eqn:E; cbn [fst snd Auth.success Auth.users].
  - split; [split; discriminate|]. split; [reflexivity|]. split; [reflexivity|].
    exists []. rewrite app_nil_r. reflexivity.
  - split; [split; reflexivity|]. split; [|split; [discriminate|]].
    + intros other Hne. apply get_app_other. exact Hne.
    + eexists. unfold Auth.getAllUsers, Auth.values. cbn [Auth.users].
      rewrite map_app. reflexivity.
Qed.

Lemma registration_keeps_accounts_witness :
  Auth.success
    (snd (Auth.registerUser (str "1700000000001") (str "ana") (str "otra")
            (fst (Auth.registerUser (str "1700000000000") (str "ana") (str "secreto")
                    Auth.empty))))
  = false.
Proof.
  destruct (registration_keeps_accounts (Auth.Logout []) (str "1700000000001") (str "ana")
              (str "otra")
              (fst (Auth.registerUser (str "1700000000000") (str "ana") (str "secreto")
                      Auth.empty)))
    as [_ [H _]].
  - repeat split; repeat constructor; simpl; tauto.
  - destruct H as [H _]. destruct (Auth.success _) eqn:E; [|reflexivity].
    specialize (H eq_refl). discriminate.
Defined.

Lemma get_in {V : Type} (m : Auth.JsMap V) (key : jsstring) (v : V) :
  Auth.get m key = Some v -> In (key, v) m.
Proof.
  induction m as [|[k v'] m IH]; simpl; [discriminate|].
  destruct (JS.eqb k key) eqn:E.
  - intros H. injection H as ->. apply JS_eqb_eq in E. subst k. left. reflexivity.
  - intros H. right. exact (IH H).
Qed.

Lemma find_unique (l : list Auth.User) (user : Auth.User) :
  NoDup (map Auth.id l) -> In user l ->
  find (fun other => JS.eqb (Auth.id other) (Auth.id user)) l = Some user.
Proof.
  induction l as [|x l IH]; intros Hnd Hin; [destruct Hin|].
  simpl in Hnd. inversion Hnd as [|? ? Hnot Hrest]; subst.
  cbn [find]. destruct Hin as [->|Hin].
  - rewrite JS_eqb_refl. reflexivity.
  - destruct (JS.eqb (Auth.id x) (Auth.id user)) eqn:E; [|exact (IH Hrest Hin)].
    exfalso. apply JS_eqb_eq in E. apply Hnot. rewrite E.
    exact (in_map Auth.id l user Hin).
Qed.

(** X23.  When no two users have the same id, the session of an
    authentication that succeeds is valid right after it, and stands for the
    user who authenticated: [validateSession] answers with that user's id
    and with the name that was given. *)
Theorem session_validates (generated name password : jsstring) (s : Auth.Store) :
  Auth.keyed s -> NoDup (map Auth.id (Auth.getAllUsers s)) ->
  Auth.success (snd (Auth.authenticateUser generated name password s)) = true ->
  exists user,
    Auth.get (Auth.users s) name = Some user
    /\ Auth.validateSession generated (fst (Auth.authenticateUser generated name password s))
       = Some (Auth.id user, name).
Proof.
  intros [Hu _] Hnd. unfold Auth.authenticateUser.
  destruct (Auth.get (Auth.users s) name) as [user|] eqn:E; [|discriminate].
  destruct (Auth.verifyPassword password (Auth.passwordHash user)); [|discriminate].
  intros _. exists user. split; [reflexivity|].
  cbn [fst]. unfold Auth.validateSession. cbn [Auth.sessions Auth.users].
  rewrite get_set_same. cbn [Auth.userId].
  pose proof (get_in _ _ _ E) as Hin.
  assert (Hname : name = Auth.username user).
  { rewrite Forall_forall in Hu. exact (Hu _ Hin). }
  rewrite (find_unique (Auth.values (Auth.users s)) user Hnd
             (in_map snd _ _ Hin)).
  rewrite Hname. reflexivity.
Qed.

Lemma session_validates_witness :
  Auth.validateSession (str "k3j2h1")
    (fst (Auth.authenticateUser (str "k3j2h1") (str "ana") (str "secreto")
            (fst (Auth.registerUser (str "1700000000000") (str "ana") (str "secreto")
                    Auth.empty))))
  = Some (str "1700000000000", str "ana").
Proof.
  destruct (session_validates (str "k3j2h1") (str "ana") (str "secreto")
              (fst (Auth.registerUser (str "1700000000000") (str "ana") (str "secreto")
                      Auth.empty)))
    as [user [Hget Hvalid]].
  - repeat split; repeat constructor; simpl; tauto.
  - repeat constructor. simpl. tauto.
  - reflexivity.
  - injection Hget as <-. exact Hvalid.
Defined.

Lemma get_app_last {V : Type} (m : Auth.JsMap V) (key : jsstring) (v : V) :
  Auth.get m key = None -> Auth.get (m ++ [(key, v)]) key = Some v.
Proof.
  induction m as [|[k v'] m IH]; simpl.
  - rewrite JS_eqb_refl. reflexivity.
  - destruct (JS.eqb k key); [discriminate|]. exact IH.
Qed.

Lemma find_app_none {A : Type} (f : A -> bool) (l l' : list A) :
  (forall x, In x l -> f x = false) -> find f (l ++ l') = find f l'.
Proof.
  induction l as [|x l IH]; intros H; [reflexivity|].
  cbn [app find]. rewrite (H x (or_introl eq_refl)). apply IH.
  intros y Hy. apply H. right. exact Hy.
Qed.

(** X24.  The id of a user is the time of the registration, and a session
    is resolved by that id: when two users register within the same
    millisecond, the session of the second one, who authenticated with the
    own name and password, is answered by [validateSession] with the name of
    the first. *)
Theorem same_millisecond_sessions (now name1 password1 name2 password2 generated : jsstring)
    (s : Auth.Store) :
  Auth.keyed s -> name1 <> name2 ->
  Auth.get (Auth.users s) name1 = None -> Auth.get (Auth.users s) name2 = None ->
  (forall user, In user (Auth.getAllUsers s) -> Auth.id user <> now) ->
  let s1 := fst (Auth.registerUser now name1 password1 s) in
  let s2 := fst (Auth.registerUser now name2 password2 s1) in
  Auth.success (snd (Auth.authenticateUser generated name2 password2 s2)) = true
  /\ Auth.validateSession generated
       (fst (Auth.authenticateUser generated name2 password2 s2))
     = Some (now, name1).
Proof.
  intros Hk Hne H1 H2 Hids s1 s2.
  assert (Hs1 : s1 = {| Auth.users :=
                          Auth.users s
                          ++ [(name1, {| Auth.id := now; Auth.username := name1;
                                         Auth.passwordHash := Auth.hashPassword password1 |})];
                        Auth.sessions := Auth.sessions s |}).
  { unfold s1. rewrite (registerUser_cases now name1 password1 s (proj1 Hk)), H1.
    reflexivity. }
  pose proof (call_keyed (Auth.Register now name1 password1) s Hk) as Hk1.
  change (fst (Auth.call (Auth.Register now name1 password1) s)) with s1 in Hk1.
  assert (Hfree : Auth.get (Auth.users s1) name2 = None).
  { rewrite Hs1. cbn [Auth.users]. rewrite get_app_other by congruence. exact H2. }
  assert (Hs2 : s2 = {| Auth.users :=
                          Auth.users s1
                          ++ [(name2, {| Auth.id := now; Auth.username := name2;
                                         Auth.passwordHash := Auth.hashPassword password2 |})];
                        Auth.sessions := Auth.sessions s1 |}).
  { unfold s2. rewrite (registerUser_cases now name2 password2 s1 (proj1 Hk1)), Hfree.
    reflexivity. }
  unfold Auth.authenticateUser. rewrite Hs2. cbn [Auth.users Auth.sessions].
  rewrite (get_app_last _ _ _ Hfree). cbn [Auth.passwordHash Auth.id].
  replace (Auth.verifyPassword password2 (Auth.hashPassword password2)) with true
    by (symmetry; apply verifyPassword_hash; reflexivity).
  cbn [fst snd Auth.success]. split; [reflexivity|].
  unfold Auth.validateSession. cbn [Auth.sessions Auth.users].
  rewrite get_set_same. cbn [Auth.userId].
  rewrite Hs1. cbn [Auth.users]. unfold Auth.values. rewrite !map_app, <- app_assoc.
  rewrite find_app_none.
  - cbn [map snd app find Auth.id]. rewrite JS_eqb_refl. reflexivity.
  - intros user Hin. destruct (JS.eqb (Auth.id user) now) eqn:E; [|reflexivity].
    exfalso. apply JS_eqb_eq in E. exact (Hids user Hin E).
Qed.

Lemma same_millisecond_sessions_witness :
  Auth.validateSession (str "k3j2h1")
    (fst (Auth.authenticateUser (str "k3j2h1") (str "bea") (str "clave")
            (fst (Auth.registerUser (str "1700000000000") (str "bea") (str "clave")
                    (fst (Auth.registerUser (str "1700000000000") (str "ana")
                            (str "secreto") Auth.empty))))))
  = Some (str "1700000000000", str "ana").
Proof.
  refine (proj2 (same_millisecond_sessions (str "1700000000000") (str "ana") (str "secreto")
                   (str "bea") (str "clave") (str "k3j2h1") Auth.empty _ _ _ _ _)).
  - repeat split; constructor.
  - discriminate.
  - reflexivity.
  - reflexivity.
  - intros user [].
Defined.

Lemma get_filter_out {V : Type} (m : Auth.JsMap V) (key : jsstring) :
  Auth.get (filter (fun entry => negb (JS.eqb (fst entry) key)) m) key = None.
Proof.
  induction m as [|[k v] m IH]; [reflexivity|].
  cbn [filter fst]. destruct (JS.eqb k key) eqn:E; cbn [negb]; [exact IH|].
  cbn [Auth.get]. rewrite E. exact IH.
Qed.

Lemma existsb_filter_out {V : Type} (m : Auth.JsMap V) (key : jsstring) :
  existsb (fun entry => JS.eqb (fst entry) key)
          (filter (fun entry => negb (JS.eqb (fst entry) key)) m)
  = false.
Proof.
  induction m as [|[k v] m IH]; [reflexivity|].
  cbn [filter fst]. destruct (JS.eqb k key) eqn:E; cbn [negb]; [exact IH|].
  cbn [existsb fst]. rewrite E. exact IH.
Qed.

Lemma existsb_get {V : Type} (m : Auth.JsMap V) (key : jsstring) (v : V) :
  Auth.get m key = Some v -> existsb (fun entry => JS.eqb (fst entry) key) m = true.
Proof.
  induction m as [|[k v'] m IH]; simpl; [discriminate|].
  destruct (JS.eqb k key); [reflexivity|]. exact IH.
Qed.

(** X25.  A logout ends the session: after an authentication that
    succeeds, the logout of its session succeeds and keeps the users, the
    session is no longer valid, and a second logout of it is answered that
    the session was not found. *)
Theorem logout_ends_session (generated name password : jsstring) (s : Auth.Store) :
  Auth.success (snd (Auth.authenticateUser generated name password s)) = true ->
  let s1 := fst (Auth.authenticateUser generated name password s) in
  let s2 := fst (Auth.logoutUser generated s1) in
  snd (Auth.logoutUser generated s1)
  = {| Auth.success := true; Auth.message := str "Logged out successfully";
       Auth.issued := None |}
  /\ Auth.users s2 = Auth.users s
  /\ Auth.validateSession generated s2 = None
  /\ Auth.logoutUser generated s2
     = (s2, {| Auth.success := false; Auth.message := str "Session not found";
               Auth.issued := None |}).
Proof.
  unfold Auth.authenticateUser.
  destruct (Auth.get (Auth.users s) name) as [user|]; [|discriminate].
  destruct (Auth.verifyPassword password (Auth.passwordHash user)); [|discriminate].
  intros _. cbn [fst]. unfold Auth.logoutUser, Auth.delete.
  cbn [Auth.sessions Auth.users fst snd].
  rewrite (existsb_get _ generated _ (get_set_same (Auth.sessions s) generated _)).
  split; [reflexivity|]. split; [reflexivity|]. split.
  - unfold Auth.validateSession. cbn [Auth.sessions]. rewrite get_filter_out. reflexivity.
  - rewrite existsb_filter_out. f_equal. f_equal.
    set (m := Auth.set (Auth.sessions s) generated _). clearbody m.
    induction m as [|[k v] m IH]; [reflexivity|].
    cbn [filter fst]. destruct (JS.eqb k generated) eqn:E; cbn [negb]; [exact IH|].
    cbn [filter fst]. rewrite E. cbn [negb]. rewrite IH. reflexivity.
Qed.

Lemma logout_ends_session_witness :
  Auth.validateSession (str "k3j2h1")
    (fst (Auth.logoutUser (str "k3j2h1")
            (fst (Auth.authenticateUser (str "k3j2h1") (str "ana") (str "secreto")
                    (fst (Auth.registerUser (str "1700000000000") (str "ana")
                            (str "secreto") Auth.empty))))))
  = None.
Proof.
  refine (proj1 (proj2 (proj2 (logout_ends_session (str "k3j2h1") (str "ana") (str "secreto")
                                 (fst (Auth.registerUser (str "1700000000000") (str "ana")
                                         (str "secreto") Auth.empty)) _)))).
  reflexivity.
Defined.

(** X26.  The login of the chat page does not ask the account service:
    after a registration through the page, a password that the service
    refuses for that name, as any other that is not blank, logs the user
    in. *)
Theorem login_ignores_accounts (now wrong : jsstring) (st : Page.State) (s : Auth.Store) :
  Auth.keyed s ->
  trim (Page.username st) <> [] -> trim (Page.password st) <> [] ->
  trim wrong <> [] -> wrong <> Page.password st ->
  Auth.get (Auth.users s) (Page.username st) = None ->
  let s1 := fst (Auth.handleRegister now st s) in
  snd (Auth.handleRegister now st s)
  = str "User registered successfully! You can now log in."
  /\ (forall generated,
         Auth.success (snd (Auth.authenticateUser generated (Page.username st) wrong s1))
         = false)
  /\ snd (Page.handleLogin (Page.setPassword wrong st)) = true
  /\ Page.isAuthenticated (fst (Page.handleLogin (Page.setPassword wrong st))) = true.
Proof.
  intros Hk Hu Hp Hw Hne Hfree.
  assert (Hnb : forall text, trim text <> [] -> JS.eqb (trim text) [] = false).
  { intros text H. destruct (JS.eqb (trim text) []) eqn:E; [|reflexivity].
    apply JS_eqb_eq in E. contradiction. }
  unfold Auth.handleRegister. rewrite (Hnb _ Hu), (Hnb _ Hp). cbn [orb].
  rewrite (registerUser_cases now _ _ s (proj1 Hk)), Hfree. cbn [Auth.success fst snd].
  split; [reflexivity|]. split; [|split].
  - intros generated. unfold Auth.authenticateUser. cbn [Auth.users].
    rewrite (get_app_last _ _ _ Hfree). cbn [Auth.passwordHash].
    destruct (Auth.verifyPassword wrong (Auth.hashPassword (Page.password st))) eqn:E;
      [|reflexivity].
    apply verifyPassword_hash in E. contradiction.
  - unfold Page.handleLogin. cbn [Page.setPassword Page.username Page.password].
    rewrite (Hnb _ Hu), (Hnb _ Hw). reflexivity.
  - unfold Page.handleLogin. cbn [Page.setPassword Page.username Page.password].
    rewrite (Hnb _ Hu), (Hnb _ Hw). reflexivity.
Qed.

Lemma login_ignores_accounts_witness :
  snd (Page.handleLogin
         (Page.setPassword (str "otra")
            (Page.setPassword (str "secreto") PageSamples.page)))
  = true.
Proof.
  refine (proj1 (proj2 (proj2 (login_ignores_accounts (str "1700000000000") (str "otra")
                                 (Page.setPassword (str "secreto") PageSamples.page)
                                 Auth.empty _ _ _ _ _ _)))).
  - repeat split; constructor.
  - vm_compute. discriminate.
  - vm_compute. discriminate.
  - vm_compute. discriminate.
  - vm_compute. discriminate.
  - reflexivity.
Defined.

(** ** The clients and the route together *)

(** X27.  No request of either client is answered 400: both send only
    when the input has more than white space, so the route, when it does not
    answer with a stream, answers 500 for a missing configuration. *)
Theorem clients_send_no_blank_input (rt : Runtime) (env : Env) (upstream : FetchOutcome)
    (status : Z) (error : jsstring) :
  (forall st,
      trim (Submit.input st) <> [] ->
      POST rt env (Interface.requestBody st) upstream = JsonResponse status error ->
      status = 500 /\ error = str "N8N configuration missing")
  /\ (forall st,
         trim (Page.input st) <> [] ->
         POST rt env (Page.requestBody st) upstream = JsonResponse status error ->
         status = 500 /\ error = str "N8N configuration missing").
Proof.
  assert (H : forall body input,
             chatInput body = Some input -> trim input <> [] ->
             POST rt env body upstream = JsonResponse status error ->
             status = 500 /\ error = str "N8N configuration missing").
  { intros body input Hb Ht. unfold POST. rewrite Hb.
    destruct input as [|c input]; [exfalso; apply Ht; reflexivity|].
    destruct (JS.eqb (trim (c :: input)) []) eqn:E;
      [apply JS_eqb_eq in E; contradiction|].
    destruct (N8N_BASE_URL env) as [[|b base]|];
      destruct (webhookPath env body) as [[|q path]|];
      intros HP; try discriminate; injection HP as <- <-; split; reflexivity. }
  split; intros st Ht.
  - apply (H (Interface.requestBody st) (trim (Submit.input st)) eq_refl).
    rewrite trim_idem. exact Ht.
  - apply (H (Page.requestBody st) (Page.input st) eq_refl). exact Ht.
Qed.

Lemma clients_send_no_blank_input_witness :
  exists status error,
    POST runtime {| N8N_BASE_URL := None; N8N_WEBHOOK_PATH := Some (str "/webhook/chat");
                    N8N_GEMINI_WEBHOOK_PATH := None |}
         (Interface.requestBody typed) (FetchRejected (str "fetch failed"))
    = JsonResponse status error
    /\ status = 500 /\ error = str "N8N configuration missing".
Proof.
  exists 500, (str "N8N configuration missing").
  split; [vm_compute; reflexivity|].
  apply (proj1 (clients_send_no_blank_input runtime
                  {| N8N_BASE_URL := None; N8N_WEBHOOK_PATH := Some (str "/webhook/chat");
                     N8N_GEMINI_WEBHOOK_PATH := None |}
                  (FetchRejected (str "fetch failed")) 500
                  (str "N8N configuration missing"))
               typed).
  - vm_compute. discriminate.
  - vm_compute. reflexivity.
Defined.

Lemma titleOf_length (text : jsstring) : length (Page.titleOf text) <= 33.
Proof.
  unfold Page.titleOf. rewrite JS_length_app.
  assert (H1 : length (substring text 0 30) <= 30).
  { unfold substring. pose proof (JS_length_nonneg text) as Hl.
    rewrite (Z.max_l 0 0), (Z.max_l 30 0) by lia. rewrite (Z.min_l 0) by lia.
    unfold length. rewrite List.length_firstn. lia. }
  destruct (length text >? 30); unfold length in *; simpl List.length; lia.
Qed.

(** What one call of [handleSendMessage] does to the titles. *)
Lemma handleSendMessage_titles (rt : Runtime) (error : jsstring) (st : Page.State)
    (response : Submit.SendOutcome) :
  Forall2
    (fun chat chat' =>
       Page.title chat' = Page.title chat
       \/ (Page.messages chat = [] /\ Page.title chat' = Page.titleOf (Page.input st)
           /\ length (Page.title chat') <= 33))
    (Page.chats st) (Page.chats (Page.handleSendMessage rt error st response)).
Proof.
  assert (Hrefl : Forall2
                    (fun chat chat' =>
                       Page.title chat' = Page.title chat
                       \/ (Page.messages chat = []
                           /\ Page.title chat' = Page.titleOf (Page.input st)
                           /\ length (Page.title chat') <= 33))
                    (Page.chats st) (Page.chats st))
    by (apply Forall2_refl; intros; left; reflexivity).
  assert (Hmap : forall chatId change prev,
             (forall chat,
                 Page.title (change chat) = Page.title chat
                 \/ Page.title (change chat)
                    = Page.title (Page.withUserMessage (Page.input st) chat)) ->
             Forall2
               (fun chat chat' =>
                  Page.title chat' = Page.title chat
                  \/ (Page.messages chat = []
                      /\ Page.title chat' = Page.titleOf (Page.input st)
                      /\ length (Page.title chat') <= 33))
               prev (Page.updateCurrent chatId change prev)).
  { intros chatId change prev Hchange. induction prev as [|chat prev IH];
      [constructor|].
    cbn [Page.updateCurrent map]. constructor; [|exact IH].
    destruct (JS.eqb (Page.id chat) chatId); [|left; reflexivity].
    destruct (Hchange chat) as [H|H]; [left; exact H|].
    rewrite H. unfold Page.withUserMessage. cbn [Page.title].
    destruct (Page.messages chat); [|left; reflexivity].
    right. split; [reflexivity|]. split; [reflexivity|apply titleOf_length]. }
  unfold Page.handleSendMessage.
  destruct (Page.currentChatId st) as [[|c rest]|]; try exact Hrefl.
  destruct (JS.eqb (trim (Page.input st)) [] || Page.isLoading st); [exact Hrefl|].
  destruct (Page.lacksDocument (Page.currentChat st)).
  - cbn [Page.chats]. apply Hmap. intros chat. left. reflexivity.
  - cbv zeta. cbn [Page.chats].
    destruct (tryBlock_titles rt (c :: rest) (Page.input st) (Page.chats st) response)
      as [change [thrown [Htry Hchange]]].
    rewrite Htry. destruct thrown.
    + rewrite updateCurrent_comp by (intros chat; apply (Hchange chat)).
      apply Hmap. intros chat. right. exact (proj2 (Hchange chat)).
    + apply Hmap. intros chat. right. exact (proj2 (Hchange chat)).
Qed.

(** X28.  The title of a chat follows the first message of an empty
    chat.  In one call, [handleSendMessage] leaves the title of a chat as it
    was, or, for a chat that has no message at that time, makes it the first
    30 code units of the input, followed by three dots when there are more,
    33 code units at most.  The title is not set once and for all: after
    [handleClearChat] the chat has no message again, and the next message that
    is sent gives every chat with the current id the title of that message. *)
Theorem title_follows_first_message (rt : Runtime) (error : jsstring) (st : Page.State)
    (response : Submit.SendOutcome) :
  Forall2
    (fun chat chat' =>
       Page.title chat' = Page.title chat
       \/ (Page.messages chat = [] /\ Page.title chat' = Page.titleOf (Page.input st)
           /\ length (Page.title chat') <= 33))
    (Page.chats st) (Page.chats (Page.handleSendMessage rt error st response))
  /\ (forall chatId,
         Page.currentChatId st = Some chatId -> chatId <> [] ->
         trim (Page.input st) <> [] -> Page.isLoading st = false ->
         Page.lacksDocument (Page.currentChat (Page.handleClearChat st)) = false ->
         Forall (fun chat' =>
                   Page.id chat' = chatId ->
                   Page.title chat' = Page.titleOf (Page.input st))
                (Page.chats
                   (Page.handleSendMessage rt error (Page.handleClearChat st) response))).
Proof.
  split; [exact (handleSendMessage_titles rt error st response)|].
  intros chatId Hc Hid Ht Hl Hd.
  assert (Hclear : Page.handleClearChat st
                   = Page.withChats st
                       (Page.updateCurrent chatId (fun chat => Page.withMessages chat [])
                          (Page.chats st))).
  { unfold Page.handleClearChat. rewrite Hc.
    destruct chatId as [|c rest]; [contradiction|reflexivity]. }
  rewrite Hclear in Hd |- *.
  rewrite (handleSendMessage_sent rt error
             (Page.withChats st
                (Page.updateCurrent chatId (fun chat => Page.withMessages chat [])
                   (Page.chats st)))
             response chatId Hc Hid Ht Hl Hd).
  cbn [Page.chats Page.withChats Page.input].
  destruct (tryBlock_titles rt chatId (Page.input st)
              (Page.updateCurrent chatId (fun chat => Page.withMessages chat [])
                 (Page.chats st)) response)
    as [change [thrown [Htry Hchange]]].
  rewrite Htry.
  assert (Hall : forall change',
             (forall chat,
                 Page.id (change' chat) = Page.id chat
                 /\ Page.title (change' chat)
                    = Page.title (Page.withUserMessage (Page.input st) chat)) ->
             Forall (fun chat' =>
                       Page.id chat' = chatId ->
                       Page.title chat' = Page.titleOf (Page.input st))
                    (Page.updateCurrent chatId change'
                       (Page.updateCurrent chatId (fun chat => Page.withMessages chat [])
                          (Page.chats st)))).
  { intros change' Hchange'.
    rewrite updateCurrent_comp by reflexivity.
    apply Forall_forall. intros chat' Hin Hchat.
    unfold Page.updateCurrent in Hin. apply in_map_iff in Hin.
    destruct Hin as [chat [Heq _]].
    destruct (JS.eqb (Page.id chat) chatId) eqn:E.
    - subst chat'. rewrite (proj2 (Hchange' _)). reflexivity.
    - subst chat'. rewrite Hchat, JS_eqb_refl in E. discriminate. }
  destruct thrown.
  - rewrite updateCurrent_comp by (intros chat; apply (Hchange chat)).
    apply Hall. intros chat. split; [apply (Hchange chat)|].
    exact (proj2 (Hchange chat)).
  - apply Hall. exact Hchange.
Qed.

Lemma title_follows_first_message_witness :
  Forall (fun chat' =>
            Page.id chat' = str "1600000000000" -> Page.title chat' = str "Hola")
         (Page.chats
            (Page.handleSendMessage runtime (str "Error")
               (Page.handleClearChat
                  (Page.setInput (str "Hola")
                     (Page.handleSwitchChat (str "1600000000000") PageSamples.page)))
               (Submit.SendRejected (str "fetch failed")))).
Proof.
  refine (proj2 (title_follows_first_message runtime (str "Error")
                   (Page.setInput (str "Hola")
                      (Page.handleSwitchChat (str "1600000000000") PageSamples.page))
                   (Submit.SendRejected (str "fetch failed")))
                (str "1600000000000") _ _ _ _ _).
  - reflexivity.
  - discriminate.
  - vm_compute. discriminate.
  - reflexivity.
  - reflexivity.
Defined.
